(** * pwa-signer-nfc: the task-approval subsystem of the background service

    A shallow embedding of
      - [src/backend/lock/mutex.ts]        (module [Mutex]),
      - [src/class/emitter.ts]             (module [Emitter]),
      - [src/backend/db/controller.ts]     (module [Db]),
      - [src/backend/service/background.ts] (module [Service]),
      - [send] of [useMessageBus] and the settings listener of
        [useDatabase]                      (module [Frontend]),
    followed by the properties of the specification that concern them,
    and by further properties of the same code.

    JavaScript runs the service on one event loop.  A synchronous stretch of
    code is one function of the model; a suspended [async] computation is a
    piece of data (a continuation) that the scheduler resumes later.

    Left out: the WebSocket of the service, the timers behind [within],
    and the rest of the frontend (the React components and the state of
    the hooks).

    Taken as given: the [key] of a task is a string when it is there
    (the type of a task may be any value); the keys of the stores are
    compared byte by byte, which is the order of IndexedDB for keys of
    ASCII characters; numbers are integers; an object lists its
    properties in the order of their creation, and "__proto__" is a
    property like another; the text of the error for a key that exists
    already stands for the one of the engine. *)

From Stdlib Require Import List String Ascii Bool Arith ZArith Lia.
From Stdlib Require Import DecimalString OrderedTypeEx.
Import ListNotations.
Local Open Scope string_scope.
Local Open Scope list_scope.

(** String concatenation, apart from list concatenation. *)
Local Infix "+++" := String.append (right associativity, at level 60).

Set Implicit Arguments.
Set Warnings "-register-all".

(* ================================================================== *)
(** * Mutex ([src/backend/lock/mutex.ts]) *)

Module Mutex.

(** The two private fields.  A queued closure
    [() => { this.locked = true; resolve({release}) }] is represented by
    the identity of the caller whose [acquire] promise it resolves. *)
Record t := mk { queue : list nat; locked : bool }.

Definition init : t := mk [] false.

(** [acquire()], called by [c].  The second component is [Some c] when
    the returned promise is already resolved with a handle, [None] when
    the caller was queued. *)
Definition acquire (c : nat) (m : t) : t * option nat :=
  if negb (locked m)
  then (mk (queue m) true, Some c)
  else (mk (queue m ++ [c]) (locked m), None).

(** The queued closure of caller [c], run by [release]. *)
Definition wake (c : nat) (m : t) : t * option nat :=
  (mk (queue m) true, Some c).

(** [release()].  [queue.shift()] then [next()], or [locked = false]. *)
Definition release (m : t) : t * option nat :=
  match queue m with
  | next :: rest => wake next (mk rest (locked m))
  | [] => (mk (queue m) false, None)
  end.

Definition isLocked (m : t) : bool := locked m.

(** ** Callers around the mutex

    [holders] are the callers that were handed a [{ release }] handle and
    have not yet called it; [requests] and [grants] record the order of
    the [acquire] calls and of the handles handed out. *)
Inductive call := Acquire (c : nat) | Release (c : nat).

Record world := mkWorld {
  mutex    : t;
  holders  : list nat;
  requests : list nat;
  grants   : list nat
}.

Definition start : world := mkWorld init [] [] [].

Definition grant (g : option nat) (l : list nat) : list nat :=
  match g with Some c => l ++ [c] | None => l end.

Fixpoint drop_one (c : nat) (l : list nat) : list nat :=
  match l with
  | [] => []
  | x :: r => if Nat.eqb x c then r else x :: drop_one c r
  end.

(** One call.  [release] is reached through a handle only, but nothing
    in the code invalidates a handle once it is used: [Release c] runs
    [release()] whoever [c] is. *)
Definition step (e : call) (w : world) : world :=
  match e with
  | Acquire c =>
      let (m, g) := acquire c (mutex w) in
      mkWorld m (grant g (holders w)) (requests w ++ [c]) (grant g (grants w))
  | Release c =>
      let (m, g) := release (mutex w) in
      mkWorld m (grant g (drop_one c (holders w))) (requests w)
              (grant g (grants w))
  end.

Definition run (tr : list call) (w : world) : world :=
  fold_left (fun w e => step e w) tr w.

(** The discipline of the callers: a handle is released by the caller
    that holds it, once per [acquire]. *)
Definition allowed (e : call) (w : world) : bool :=
  match e with
  | Acquire _ => true
  | Release c => existsb (Nat.eqb c) (holders w)
  end.

Fixpoint disciplined (tr : list call) (w : world) : bool :=
  match tr with
  | [] => true
  | e :: r => allowed e w && disciplined r (step e w)
  end.

(** What every world reached with discipline satisfies. *)
Definition inv (w : world) : Prop :=
  requests w = grants w ++ queue (mutex w) /\
  (locked (mutex w) = false -> holders w = [] /\ queue (mutex w) = []) /\
  (locked (mutex w) = true -> exists c, holders w = [c]).

End Mutex.

(* ================================================================== *)
(** * JavaScript values and [JSON.stringify]

    Task payloads and setting values have type [any].  The model covers
    the JSON-like values, with [undefined] and [NaN] (both survive the
    structured clone of [postMessage] and of IndexedDB); numbers other
    than [NaN] are integers. *)

Module Js.

Inductive value :=
| Undefined
| Null
| Bool (b : bool)
| Num (n : Z)
| NaN
| Str (s : string)
| Arr (items : list value)
| Obj (fields : list (string * value)).

(** [ToBoolean]. *)
Definition truthy (v : value) : bool :=
  match v with
  | Undefined | Null | NaN => false
  | Bool b => b
  | Num n => negb (Z.eqb n 0)
  | Str s => negb (String.eqb s EmptyString)
  | Arr _ | Obj _ => true
  end.

Fixpoint lookup (k : string) (fs : list (string * value)) : value :=
  match fs with
  | [] => Undefined
  | (k', v) :: r => if String.eqb k' k then v else lookup k r
  end.

(** [v.k] for a [v] that is neither [null] nor [undefined]; none of the
    names read by the service is an own property of a primitive or of
    an array. *)
Definition prop (k : string) (v : value) : value :=
  match v with
  | Obj fs => lookup k fs
  | _ => Undefined
  end.

(** [v.k] for a property that is a string when it is there, as [key]
    of a task is: it is passed on as [key?: string].  The empty string
    stands for a missing property, both being falsy. *)
Definition str_prop (k : string) (v : value) : string :=
  match prop k v with
  | Str s => s
  | _ => EmptyString
  end.

(** Whether [v.k], when it is there, is a string, as [str_prop] takes it
    to be. *)
Definition string_or_falsy (k : string) (v : value) : bool :=
  match prop k v with
  | Str _ => true
  | x => negb (truthy x)
  end.

(** [a === b] for an [a] that has been read from the store: what is
    read is a structured copy, so an object or an array among what was
    stored is never identical to the one the caller holds; [NaN] is not
    equal to itself. *)
Definition strict_equal_copy (a b : value) : bool :=
  match a, b with
  | Undefined, Undefined => true
  | Null, Null => true
  | Bool x, Bool y => Bool.eqb x y
  | Num x, Num y => Z.eqb x y
  | Str x, Str y => String.eqb x y
  | _, _ => false
  end.

(** ** [JSON.stringify] *)

Definition dquote : string := String (ascii_of_nat 34) EmptyString.
Definition backslash : string := String (ascii_of_nat 92) EmptyString.

Definition hex_digit (n : nat) : ascii :=
  if Nat.ltb n 10 then ascii_of_nat (48 + n) else ascii_of_nat (87 + n).

(** [QuoteJSONString], one code unit. *)
Definition escape (c : ascii) : string :=
  let n := nat_of_ascii c in
  if Nat.eqb n 34 then backslash +++ dquote
  else if Nat.eqb n 92 then backslash +++ backslash
  else if Nat.eqb n 8 then backslash +++ "b"
  else if Nat.eqb n 12 then backslash +++ "f"
  else if Nat.eqb n 10 then backslash +++ "n"
  else if Nat.eqb n 13 then backslash +++ "r"
  else if Nat.eqb n 9 then backslash +++ "t"
  else if Nat.ltb n 32 then
    backslash +++ "u00" +++
    String (hex_digit (Nat.div n 16))
           (String (hex_digit (Nat.modulo n 16)) EmptyString)
  else String c EmptyString.

Definition quote (s : string) : string :=
  dquote +++ String.concat EmptyString (map escape (list_ascii_of_string s))
         +++ dquote.

(** [SerializeJSONProperty]: [None] is [undefined].  A property whose
    value serialises to [undefined] is left out of its object; in an
    array it becomes [null]; [NaN] becomes [null]. *)
Fixpoint stringify (v : value) : option string :=
  match v with
  | Undefined => None
  | Null => Some "null"
  | Bool true => Some "true"
  | Bool false => Some "false"
  | Num n => Some (NilZero.string_of_int (Z.to_int n))
  | NaN => Some "null"
  | Str s => Some (quote s)
  | Arr items =>
      Some ("[" +++ String.concat ","
              (map (fun x => match stringify x with
                             | Some t => t
                             | None => "null"
                             end) items) +++ "]")
  | Obj fields =>
      Some ("{" +++ String.concat ","
              (flat_map (fun kv => match kv with
                                   | (k, x) =>
                                       match stringify x with
                                       | Some t => [quote k +++ ":" +++ t]
                                       | None => []
                                       end
                                   end) fields) +++ "}")
  end.

(** Following the specification's words: two values are structurally
    identical (deep-equal) when they are built the same way from the
    same primitives, property by property and item by item. *)
Fixpoint deep_equal (a b : value) : bool :=
  match a, b with
  | Undefined, Undefined => true
  | Null, Null => true
  | Bool x, Bool y => Bool.eqb x y
  | Num x, Num y => Z.eqb x y
  | NaN, NaN => true
  | Str x, Str y => String.eqb x y
  | Arr xs, Arr ys =>
      (fix items (xs ys : list value) : bool :=
         match xs, ys with
         | [], [] => true
         | x :: xs', y :: ys' => deep_equal x y && items xs' ys'
         | _, _ => false
         end) xs ys
  | Obj fs, Obj gs =>
      (fix props (fs gs : list (string * value)) : bool :=
         match fs, gs with
         | [], [] => true
         | (k, x) :: fs', (l, y) :: gs' =>
             String.eqb k l && deep_equal x y && props fs' gs'
         | _, _ => false
         end) fs gs
  | _, _ => false
  end.

(** [obj[k] = v] on an object built property by property. *)
Fixpoint set_prop (k : string) (v : value) (fs : list (string * value))
  : list (string * value) :=
  match fs with
  | [] => [(k, v)]
  | (k', v') :: r =>
      if String.eqb k' k then (k, v) :: r else (k', v') :: set_prop k v r
  end.

End Js.

(* ================================================================== *)
(** * DatabaseController ([src/backend/db/controller.ts])

    Three IndexedDB object stores.  An object store keeps its records in
    key order, which is the order of [getAllKeys] and [getAll].  Whether
    the requests of one controller call succeed is decided by the
    environment ([outcome]). *)

Module Db.

Inductive outcome := Succeeds | Rejects (message : string).

(** What an [async] controller method settles to. *)
Inductive result (A : Type) := Ok (a : A) | Err (message : string).
Arguments Ok {A} a.
Arguments Err {A} message.

Record PermissionRecord := mkPermission {
  taskType : Js.value;
  approved : bool;
  remember : bool
}.

Definition store (V : Type) := list (string * V).

Record t := mk {
  data        : store Js.value;
  relays      : store string;
  permissions : store PermissionRecord
}.

Definition empty : t := mk [] [] [].

Section Store.
Variable V : Type.

(** [store.put(value, key)] *)
Fixpoint put (k : string) (v : V) (st : store V) : store V :=
  match st with
  | [] => [(k, v)]
  | (k', v') :: r =>
      match String.compare k k' with
      | Lt => (k, v) :: st
      | Eq => (k, v) :: r
      | Gt => (k', v') :: put k v r
      end
  end.

(** [store.get(key)] *)
Fixpoint get (k : string) (st : store V) : option V :=
  match st with
  | [] => None
  | (k', v') :: r => if String.eqb k' k then Some v' else get k r
  end.

(** [store.delete(key)] *)
Definition delete (k : string) (st : store V) : store V :=
  filter (fun kv => negb (String.eqb (fst kv) k)) st.

(** Records are kept in increasing key order, one per key. *)
Fixpoint sorted (st : store V) : Prop :=
  match st with
  | [] => True
  | (k, _) :: r =>
      (forall k' v', In (k', v') r -> String.compare k k' = Lt) /\ sorted r
  end.
End Store.

(** [key || crypto.randomUUID()] *)
Definition or_uuid (key uuid : string) : string :=
  if String.eqb key EmptyString then uuid else key.

(** [getAll()]: the [catch] turns a failure into [[]]. *)
Definition getAll (o : outcome) (db : t) : result (store Js.value) :=
  match o with
  | Succeeds => Ok (data db)
  | Rejects _ => Ok []
  end.

(** [update(value, key?)]: rethrows
    [new Error(`Failed to update data: ${error.message}`)]. *)
Definition update (value : Js.value) (key uuid : string) (o : outcome)
           (db : t) : result string * t :=
  match o with
  | Succeeds =>
      let finalKey := or_uuid key uuid in
      (Ok finalKey,
       mk (put finalKey value (data db)) (relays db) (permissions db))
  | Rejects e => (Err ("Failed to update data: " +++ e), db)
  end.

(** [getRelays()] *)
Definition getRelays (o : outcome) (db : t) : result (store string) :=
  match o with
  | Succeeds => Ok (relays db)
  | Rejects _ => Ok []
  end.

(** [addRelay(url)]; [store.add] rejects when the key exists. *)
Definition addRelay (url uuid : string) (o : outcome) (db : t)
  : result string * t :=
  match o with
  | Succeeds =>
      match get uuid (relays db) with
      | None => (Ok uuid,
                 mk (data db) (put uuid url (relays db)) (permissions db))
      | Some _ =>
          (Err ("Failed to add relay: " +++ "Key already exists"), db)
      end
  | Rejects e => (Err ("Failed to add relay: " +++ e), db)
  end.

(** [removeRelay(key)] *)
Definition removeRelay (key : string) (o : outcome) (db : t)
  : result unit * t :=
  match o with
  | Succeeds =>
      (Ok tt, mk (data db) (delete key (relays db)) (permissions db))
  | Rejects e => (Err ("Failed to remove relay: " +++ e), db)
  end.

(** [getPermissions()] *)
Definition getPermissions (o : outcome) (db : t)
  : result (store PermissionRecord) :=
  match o with
  | Succeeds => Ok (permissions db)
  | Rejects _ => Ok []
  end.

(** [getPermission(taskType)]:
    [permissions.find(p => p.value.taskType === taskType)]. *)
Definition getPermission (ty : Js.value) (o : outcome) (db : t)
  : result (option PermissionRecord) :=
  match getPermissions o db with
  | Ok ps =>
      match find (fun p => Js.strict_equal_copy (taskType (snd p)) ty)
                 ps with
      | Some p => Ok (Some (snd p))
      | None => Ok None
      end
  | Err _ => Ok None
  end.

(** [setPermission(taskType, approved, remember)] *)
Definition setPermission (ty : Js.value) (ok rem : bool) (uuid : string)
           (o : outcome) (db : t) : result string * t :=
  match o with
  | Succeeds =>
      (Ok uuid,
       mk (data db) (relays db)
          (put uuid (mkPermission ty ok rem) (permissions db)))
  | Rejects e => (Err ("Failed to set permission: " +++ e), db)
  end.

(** ** The other methods of the controller *)

(** [get(key)]: [undefined] for a key the store does not hold; the
    [catch] returns [null].  (The name [get] is the object store's.) *)
Definition getValue (key : string) (o : outcome) (db : t) : Js.value :=
  match o with
  | Succeeds =>
      match get key (data db) with
      | Some value => value
      | None => Js.Undefined
      end
  | Rejects _ => Js.Null
  end.

Definition defaultRelay : string := "ws://localhost:8002".

(** [initializeDefaultRelay(db)]: one transaction on the relays; a
    failure is logged and goes no further. *)
Definition initializeDefaultRelay (o : outcome) (db : t) : t :=
  match o with
  | Succeeds =>
      match relays db with
      | [] => mk (data db) (put "default" defaultRelay (relays db))
                 (permissions db)
      | _ :: _ => db
      end
  | Rejects _ => db
  end.


(** ** Subscribers

    A callback is known by its identity; what is modelled of its
    behaviour is whether it returns or throws (the message of what it
    throws). *)
Record subscriber := mkSubscriber {
  sub_id     : nat;
  sub_throws : option string
}.

(** [subscribe(callback)] *)
Definition subscribe (callback : subscriber) (subscribers : list subscriber)
  : list subscriber :=
  subscribers ++ [callback].

(** The function that [subscribe(callback)] returns. *)
Definition unsubscribe (callback : subscriber)
           (subscribers : list subscriber) : list subscriber :=
  filter (fun sub => negb (Nat.eqb (sub_id sub) (sub_id callback)))
         subscribers.

(** [notifySubscribers(key, value)]: the callbacks called, in order, and
    what the first one that throws has thrown. *)
Fixpoint notifySubscribers (subscribers : list subscriber)
  : list nat * option string :=
  match subscribers with
  | [] => ([], None)
  | sub :: rest =>
      match sub_throws sub with
      | Some message => ([sub_id sub], Some message)
      | None =>
          let (called, thrown) := notifySubscribers rest in
          (sub_id sub :: called, thrown)
      end
  end.

(** [update(value, key?)] of a controller that has subscribers: they
    are notified inside the [try], after the transaction is done. *)
Definition update_notifying (value : Js.value) (key uuid : string)
           (o : outcome) (subscribers : list subscriber) (db : t)
  : result string * t * list nat :=
  match o with
  | Succeeds =>
      let finalKey := or_uuid key uuid in
      let db' := mk (put finalKey value (data db)) (relays db)
                    (permissions db) in
      match notifySubscribers subscribers with
      | (called, None) => (Ok finalKey, db', called)
      | (called, Some message) =>
          (Err ("Failed to update data: " +++ message), db', called)
      end
  | Rejects e => (Err ("Failed to update data: " +++ e), db, [])
  end.

End Db.

(* ================================================================== *)
(** * EventEmitter ([src/class/emitter.ts])

    [eventMap] is a [Map] from event names to [Set] objects.  A [Set] is
    an object of its own: [clear] removes it from the map while a running
    [forEach] may still hold it, so the sets live in a heap and the map
    holds their addresses.  A [Set] iterates over its entry list by index,
    skipping deleted entries, and sees entries added meanwhile; a deleted
    entry stays in the list as a hole ([None]).

    Handlers are functions supplied from outside.  What such a function
    does when called is a list of commands ([body]): calls back into the
    emitter, effects on the rest of the program ([Effect]), or a
    synchronous [Throw]; [result] says whether it then returns a promise.
    Handlers may call [emit] again, so the functions take fuel. *)

Module Emitter.

Inductive res (A : Type) := Done (a : A) | Raised (a : A) | OutOfFuel.
Arguments OutOfFuel {A}.

Inductive returns := Plain | Promise (rejects : bool).

Section Emitter.
Variable H : Type.              (* handler functions *)
Variable same : H -> H -> bool. (* identity of function objects *)
Variable P : Type.              (* payloads *)
Variable W : Type.              (* what handlers act on outside *)
Variable X : Type.              (* their effects on it *)
Variable ext : X -> W -> W.

(** The functions found in the sets: a user's handler, or the
    [oneTimeHandler] closure of the [reg]-th call of [once]. *)
Inductive handler :=
| User (h : H)
| OneTime (reg : nat) (eventName : string) (h : H).

Definition handler_eqb (a b : handler) : bool :=
  match a, b with
  | User x, User y => same x y
  | OneTime r _ _, OneTime r' _ _ => Nat.eqb r r'
  | _, _ => false
  end.

Inductive arg := EventName (n : string) | Payload (p : P).

Inductive cmd :=
| On (eventName : string) (h : H)
| Once (eventName : string) (h : H)
| Off (eventName : string) (h : H)
| Emit (eventName : string) (p : P)
| Clear (eventName : string)
| Throw
| Effect (x : X).

Variable body : H -> list arg -> list cmd.
Variable result : H -> returns.

(** ** [Set] and [Map] *)

Definition set := list (option handler).

Definition live (s : set) : list handler :=
  flat_map (fun e => match e with Some h => [h] | None => [] end) s.

Definition set_has (h : handler) (s : set) : bool :=
  existsb (handler_eqb h) (live s).

Definition set_add (h : handler) (s : set) : set :=
  if set_has h s then s else s ++ [Some h].

Definition set_delete (h : handler) (s : set) : set :=
  map (fun e => match e with
                | Some h' => if handler_eqb h h' then None else Some h'
                | None => None
                end) s.

Fixpoint map_get (n : string) (m : list (string * nat)) : option nat :=
  match m with
  | [] => None
  | (k, a) :: r => if String.eqb k n then Some a else map_get n r
  end.

Fixpoint map_set (n : string) (a : nat) (m : list (string * nat))
  : list (string * nat) :=
  match m with
  | [] => [(n, a)]
  | (k, b) :: r =>
      if String.eqb k n then (k, a) :: r else (k, b) :: map_set n a r
  end.

Definition map_delete (n : string) (m : list (string * nat))
  : list (string * nat) :=
  filter (fun kb => negb (String.eqb (fst kb) n)) m.

(** ** The emitter *)

Record t := mk {
  heap     : list set;             (* the [Set] objects, by address *)
  eventMap : list (string * nat);  (* event name to address *)
  closures : nat                   (* [oneTimeHandler]s created *)
}.

Definition create : t := mk [] [] 0.

Definition set_at (a : nat) (e : t) : set := nth a (heap e) [].

Fixpoint replace (a : nat) (f : set -> set) (h : list set) : list set :=
  match h, a with
  | [], _ => []
  | s :: r, O => f s :: r
  | s :: r, S a' => s :: replace a' f r
  end.

Definition update_set (a : nat) (f : set -> set) (e : t) : t :=
  mk (replace a f (heap e)) (eventMap e) (closures e).

Definition getEventHandlers (n : string) (e : t) : nat * t :=
  match map_get n (eventMap e) with
  | Some a => (a, e)
  | None =>
      let a := List.length (heap e) in
      (a, mk (heap e ++ [[]]) (map_set n a (eventMap e)) (closures e))
  end.

Definition has (n : string) (e : t) : bool :=
  match map_get n (eventMap e) with
  | Some a => Nat.ltb 0 (List.length (live (set_at a e)))
  | None => false
  end.

Definition add_handler (n : string) (h : handler) (e : t) : t :=
  let (a, e1) := getEventHandlers n e in update_set a (set_add h) e1.

Definition on (n : string) (h : H) (e : t) : t :=
  add_handler n (User h) e.

Definition remove_handler (n : string) (h : handler) (e : t) : t :=
  let (a, e1) := getEventHandlers n e in update_set a (set_delete h) e1.

Definition off (n : string) (h : H) (e : t) : t :=
  remove_handler n (User h) e.

Definition once (n : string) (h : H) (e : t) : t :=
  add_handler n (OneTime (closures e) n h)
              (mk (heap e) (eventMap e) (S (closures e))).

Definition clear (n : string) (e : t) : t :=
  mk (heap e) (map_delete n (eventMap e)) (closures e).

(** ** Running handlers

    Besides the emitter and the outside world, the state records
    every call of a user's handler (with the [once] registration it
    came through, if any), the promises handed to
    [Promise.allSettled], and those dropped by [void]. *)
Record call := mkCall {
  via    : option nat;
  callee : H;
  args   : list arg
}.

Record state := mkState {
  emitter  : t;
  world    : W;
  calls    : list call;
  settled  : list (H * bool);
  floating : list (H * bool)
}.

Definition with_emitter (f : t -> t) (s : state) : state :=
  mkState (f (emitter s)) (world s) (calls s) (settled s) (floating s).

Definition with_world (f : W -> W) (s : state) : state :=
  mkState (emitter s) (f (world s)) (calls s) (settled s) (floating s).

Definition record_call (c : call) (s : state) : state :=
  mkState (emitter s) (world s) (calls s ++ [c]) (settled s) (floating s).

Definition promise_of (h : H) : list (H * bool) :=
  match result h with
  | Plain => []
  | Promise rejects => [(h, rejects)]
  end.

Definition allSettled (ps : list (H * bool)) (s : state) : state :=
  mkState (emitter s) (world s) (calls s) (settled s ++ ps) (floating s).

Definition drop_promises (ps : list (H * bool)) (s : state) : state :=
  mkState (emitter s) (world s) (calls s) (settled s) (floating s ++ ps).

Definition handlers_of (n : string) (s : state) : nat * state :=
  let (a, e) := getEventHandlers n (emitter s) in
  (a, with_emitter (fun _ => e) s).

(** [emit], [Set.prototype.forEach] from entry [index] on, a call of
    one function of the set, and the commands of a user's handler. *)
Fixpoint emit (fuel : nat) (eventName : string) (payload : P)
         (s : state) {struct fuel} : res state :=
  match fuel with
  | O => OutOfFuel
  | S f =>
      let (a, s1) := handlers_of eventName s in
      match forEach f a 0 [Payload payload] [] s1 with
      | Done (ps1, s2) =>
          let (b, s3) := handlers_of "*" s2 in
          match forEach f b 0 [EventName eventName; Payload payload]
                        ps1 s3 with
          | Done (ps2, s4) => Done (allSettled ps2 s4)
          | Raised (_, s4) => Raised s4
          | OutOfFuel => OutOfFuel
          end
      | Raised (_, s2) => Raised s2
      | OutOfFuel => OutOfFuel
      end
  end

with forEach (fuel : nat) (a index : nat) (xs : list arg)
             (promises : list (H * bool)) (s : state)
             {struct fuel} : res (list (H * bool) * state) :=
  match fuel with
  | O => OutOfFuel
  | S f =>
      match nth_error (set_at a (emitter s)) index with
      | None => Done (promises, s)
      | Some None => forEach f a (S index) xs promises s
      | Some (Some h) =>
          match invoke f h None xs s with
          | Done (ps, s') =>
              forEach f a (S index) xs (promises ++ ps) s'
          | Raised (_, s') => Raised (promises, s')
          | OutOfFuel => OutOfFuel
          end
      end
  end

with invoke (fuel : nat) (h : handler) (wrapper : option nat)
            (xs : list arg) (s : state)
            {struct fuel} : res (list (H * bool) * state) :=
  match fuel with
  | O => OutOfFuel
  | S f =>
      match h with
      | User u =>
          match exec f (body u xs) (record_call (mkCall wrapper u xs) s)
          with
          | Done s' => Done (promise_of u, s')
          | Raised s' => Raised ([], s')
          | OutOfFuel => OutOfFuel
          end
      | OneTime reg n u =>
          (* this.off(eventName, oneTimeHandler); void handler(payload) *)
          let s1 := with_emitter (remove_handler n h) s in
          match invoke f (User u) (Some reg) (firstn 1 xs) s1 with
          | Done (ps, s') => Done ([], drop_promises ps s')
          | Raised (_, s') => Raised ([], s')
          | OutOfFuel => OutOfFuel
          end
      end
  end

with exec (fuel : nat) (cs : list cmd) (s : state)
          {struct fuel} : res state :=
  match fuel with
  | O => OutOfFuel
  | S f =>
      match cs with
      | [] => Done s
      | c :: rest =>
          match c with
          | On n h => exec f rest (with_emitter (on n h) s)
          | Once n h => exec f rest (with_emitter (once n h) s)
          | Off n h => exec f rest (with_emitter (off n h) s)
          | Clear n => exec f rest (with_emitter (clear n) s)
          | Effect x => exec f rest (with_world (ext x) s)
          | Throw => Raised s
          | Emit n p =>
              match emit f n p s with
              | Done s' => exec f rest s'
              | Raised s' => Raised s'
              | OutOfFuel => OutOfFuel
              end
          end
      end
  end.

(** ** Vocabulary for the properties of [emit] *)

(** The entries of the set registered under a name. *)
Definition registered (n : string) (e : t) : set :=
  match map_get n (eventMap e) with
  | Some a => set_at a e
  | None => []
  end.

(** The state after [getEventHandlers(n)]. *)
Definition touch (n : string) (s : state) : state := snd (handlers_of n s).

(** The call of the user's handler that calling an entry amounts to. *)
Definition call_of (xs : list arg) (h : handler) : call :=
  match h with
  | User u => mkCall None u xs
  | OneTime reg _ u => mkCall (Some reg) u (firstn 1 xs)
  end.

Definition commands_of (xs : list arg) (h : handler) : list cmd :=
  match h with
  | User u => body u xs
  | OneTime _ _ u => body u (firstn 1 xs)
  end.

Definition run_effects (cs : list cmd) (w : W) : W :=
  fold_left (fun w c => match c with Effect x => ext x w | _ => w end) cs w.

(** No handler calls back into the emitter or throws. *)
Definition passive : Prop :=
  forall u xs c, In c (body u xs) -> exists x, c = Effect x.

(** The handlers leave the emitter alone: they act on the world outside
    it, and may throw. *)
Definition aloof : Prop :=
  forall u xs c, In c (body u xs) -> c = Throw \/ exists x, c = Effect x.

Definition is_throw (c : cmd) : bool :=
  match c with
  | Throw => true
  | _ => false
  end.

(** What a handler gets to run: its commands before the first [throw]. *)
Fixpoint before_throw (cs : list cmd) : list cmd :=
  match cs with
  | [] => []
  | c :: r => if is_throw c then [] else c :: before_throw r
  end.

Definition throws (xs : list arg) (h : handler) : bool :=
  existsb is_throw (commands_of xs h).

(** Of the handlers of a set, in order, those that get called: all of
    them up to and including the first that throws. *)
Fixpoint called (xs : list arg) (hs : list handler) : list handler :=
  match hs with
  | [] => []
  | h :: r => if throws xs h then [h] else h :: called xs r
  end.

Definition ends (A : Type) (raised : bool) (a : A) : res A :=
  if raised then Raised a else Done a.

Fixpoint distinctb (l : list handler) : bool :=
  match l with
  | [] => true
  | h :: r => negb (existsb (fun h' => handler_eqb h' h) r) && distinctb r
  end.

Fixpoint apartb (l : list nat) : bool :=
  match l with
  | [] => true
  | a :: r => negb (existsb (Nat.eqb a) r) && apartb r
  end.

Definition at_home (n : string) (h : handler) : bool :=
  match h with
  | User _ => true
  | OneTime _ n' _ => String.eqb n' n
  end.

(** What the methods of the emitter maintain: a set holds a function
    once, a [oneTimeHandler] sits in the set of the name it closes over,
    and no two names share a set. *)
Definition well_formed (e : t) : bool :=
  forallb (fun na => distinctb (live (set_at (snd na) e)) &&
                     forallb (at_home (fst na)) (live (set_at (snd na) e)) &&
                     Nat.ltb (snd na) (List.length (heap e)))
          (eventMap e) &&
  apartb (map snd (eventMap e)).

(** Fuel that [forEach] does not exhaust on these entries. *)
Fixpoint cost (xs : list arg) (entries : set) : nat :=
  match entries with
  | [] => 0
  | None :: r => S (cost xs r)
  | Some h :: r =>
      S (Nat.max (3 + List.length (commands_of xs h)) (cost xs r))
  end.

(** A run that ends, normally or not, ends with [Q]. *)
Definition finally (A : Type) (r : res A) (Q : A -> Prop) : Prop :=
  match r with
  | Done a => Q a
  | Raised a => Q a
  | OutOfFuel => True
  end.

(** What a command of a handler does to the emitter by itself. *)
Definition on_emitter (c : cmd) (e : t) : t :=
  match c with
  | On n h => on n h e
  | Once n h => once n h e
  | Off n h => off n h e
  | Clear n => clear n e
  | _ => e
  end.

(** The states of an emitter made by [new EventEmitter()] and used
    through its methods since, whatever happens outside it.  ([within]
    is [on] of a wrapper function, with an [off] of it later.) *)
Inductive built : state -> Prop :=
| built_new w cs ps fs : built (mkState create w cs ps fs)
| built_outside f s : built s -> built (with_world f s)
| built_on n h s : built s -> built (with_emitter (on n h) s)
| built_once n h s : built s -> built (with_emitter (once n h) s)
| built_off n h s : built s -> built (with_emitter (off n h) s)
| built_clear n s : built s -> built (with_emitter (clear n) s)
| built_emit fuel n p s s' :
    built s -> emit fuel n p s = Done s' -> built s'
| built_emit_raised fuel n p s s' :
    built s -> emit fuel n p s = Raised s' -> built s'.

Definition is_once (h : handler) : bool :=
  match h with
  | OneTime _ _ _ => true
  | User _ => false
  end.

(** An entry of a set after [forEach] has called it: a one-time
    wrapper has deleted itself. *)
Definition strike (entry : option handler) : option handler :=
  match entry with
  | Some (OneTime _ _ _) => None
  | _ => entry
  end.

(** How often the handler of the [reg]-th [once] registration ran. *)
Definition times_via (reg : nat) (s : state) : nat :=
  List.length
    (filter (fun c => match via c with
                      | Some r => Nat.eqb r reg
                      | None => false
                      end) (calls s)).

End Emitter.

Arguments User {H} h.
Arguments OneTime {H} reg eventName h.
Arguments EventName {P} n.
Arguments Payload {P} p.
Arguments On {H P X} eventName h.
Arguments Once {H P X} eventName h.
Arguments Off {H P X} eventName h.
Arguments Emit {H P X} eventName p.
Arguments Clear {H P X} eventName.
Arguments Throw {H P X}.
Arguments Effect {H P X} x.
Arguments create {H}.

End Emitter.

(* ================================================================== *)
(** * BackgroundService ([src/backend/service/background.ts])

    Every [await] of the service waits for the database or for the
    mutex.  A suspended [async] call is a continuation ([cont]); the
    scheduler resumes any pending one ([Resume]), giving the fate of its
    store request, or delivers a frontend message ([Receive]).  A store
    request and the code that awaits it run in the step that resumes
    them.  [crypto.randomUUID()] reads a stream fixed in advance.  The
    WebSocket is left out. *)

Module Service.

Record PromptResponse := mkResponse {
  approved : bool;
  remember : option bool
}.

(** [MessageType] of [src/types/index.ts]; [OTHER] is an object with an
    unhandled [type]. *)
Inductive Message :=
| TASK (task : Js.value) (requiresApproval : bool)
| PROMPT (promptId : string) (task : Js.value)
| PROMPT_RESPONSE (promptId : string) (response : PromptResponse)
| FETCH_SETTINGS
| SETTINGS_DATA (data : list (string * Js.value))
| UPDATE_SETTINGS (key : string) (value : Js.value)
| SETTINGS_UPDATED (key : string) (value : Js.value)
| FETCH_RELAYS
| RELAYS_DATA (data : list (string * string))
| ADD_RELAY (url : string)
| REMOVE_RELAY (key : string)
| FETCH_PERMISSIONS
| PERMISSIONS_DATA (data : list (string * Db.PermissionRecord))
| DATA_UPDATE (data : Js.value)
| ERROR (message : string)
| OTHER (type : string).

Definition tagged (type : string) (fields : list (string * Js.value))
  : Js.value :=
  Js.Obj (("type", Js.Str type) :: fields).

Definition entry (v : Js.value) (k : string) : Js.value :=
  Js.Obj [("key", Js.Str k); ("value", v)].

Definition permission_js (p : Db.PermissionRecord) : Js.value :=
  Js.Obj [("taskType", Db.taskType p);
          ("approved", Js.Bool (Db.approved p));
          ("remember", Js.Bool (Db.remember p))].

Definition response_js (r : PromptResponse) : Js.value :=
  Js.Obj (("approved", Js.Bool (approved r)) ::
          match remember r with
          | Some b => [("remember", Js.Bool b)]
          | None => []
          end).

(** The object a message is, fields in the order of the literals. *)
Definition to_js (m : Message) : Js.value :=
  match m with
  | TASK task ra =>
      tagged "TASK" [("task", task); ("requiresApproval", Js.Bool ra)]
  | PROMPT promptId task =>
      tagged "PROMPT" [("promptId", Js.Str promptId); ("task", task)]
  | PROMPT_RESPONSE promptId r =>
      tagged "PROMPT_RESPONSE"
             [("promptId", Js.Str promptId); ("response", response_js r)]
  | FETCH_SETTINGS => tagged "FETCH_SETTINGS" []
  | SETTINGS_DATA data => tagged "SETTINGS_DATA" [("data", Js.Obj data)]
  | UPDATE_SETTINGS key value =>
      tagged "UPDATE_SETTINGS" [("key", Js.Str key); ("value", value)]
  | SETTINGS_UPDATED key value =>
      tagged "SETTINGS_UPDATED" [("key", Js.Str key); ("value", value)]
  | FETCH_RELAYS => tagged "FETCH_RELAYS" []
  | RELAYS_DATA data =>
      tagged "RELAYS_DATA"
             [("data", Js.Arr (map (fun kv => entry (Js.Str (snd kv))
                                                    (fst kv)) data))]
  | ADD_RELAY url => tagged "ADD_RELAY" [("url", Js.Str url)]
  | REMOVE_RELAY key => tagged "REMOVE_RELAY" [("key", Js.Str key)]
  | FETCH_PERMISSIONS => tagged "FETCH_PERMISSIONS" []
  | PERMISSIONS_DATA data =>
      tagged "PERMISSIONS_DATA"
             [("data", Js.Arr (map (fun kv => entry (permission_js (snd kv))
                                                    (fst kv)) data))]
  | DATA_UPDATE data => tagged "DATA_UPDATE" [("data", data)]
  | ERROR message => tagged "ERROR" [("message", Js.Str message)]
  | OTHER type => tagged type []
  end.

(** [JSON.stringify(message)]; a message is an object, so the result is
    a string. *)
Definition messageStr (m : Message) : string :=
  match Js.stringify (to_js m) with
  | Some str => str
  | None => "undefined"
  end.

(** The arrow function that [processTask] hands to [emitter.once]: it
    closes over [task] and [taskType] of its call ([flow]). *)
Record waiter := mkWaiter {
  w_flow : nat;
  w_task : Js.value;
  w_taskType : Js.value
}.

Definition same (a b : waiter) : bool := Nat.eqb (w_flow a) (w_flow b).

(** Suspended computations, by the [await] they are at. *)
Inductive cont :=
| GetPermission (flow : nat) (task : Js.value) (taskType : Js.value)
| Acquire (flow : nat) (task : Js.value) (taskType : Js.value)
| Update (flow : nat) (task : Js.value) (key : string)
| SetPermission (flow : nat) (taskType : Js.value) (ok : bool)
| GetAll
| UpdateSetting (key : string) (value : Js.value)
| GetRelays
| AddRelay (url : string)
| RemoveRelay (key : string)
| GetPermissions.

(** What the promise of a [processTask] call settles to. *)
Inductive settlement := Fulfilled (result : option string) | Rejected.

(** The console lines of the approval flow, and (without a console
    line in the source) the lock operations and the drop of a task. *)
Inductive event :=
| Processing (flow : nat) (requiresApproval : bool)
| LockGranted (flow : nat)
| LockReleased (flow : nat)
| PromptSent (flow : nat) (promptId : string)
| ResponseReceived (flow : nat) (r : PromptResponse)
| PersistStarted (flow : nat) (taskType : Js.value) (ok : bool)
| Persisted (flow : nat) (key : string)
| PersistFailed (flow : nat)
| Executing (flow : nat)
| Executed (flow : nat) (key : string)
| ExecuteFailed (flow : nat)
| Dropped (flow : nat).

(** The fields of the service other than the emitter, with the
    environment it runs in. *)
Record core := mkCore {
  db              : Db.t;
  mutex           : Mutex.t;
  lastSentMessage : option string;
  outbox          : list Message;  (* handed to [client.postMessage] *)
  pending         : list cont;
  waiting         : list (nat * (Js.value * Js.value));
                                   (* calls queued in the mutex *)
  settled         : list (nat * settlement);
  events          : list event;
  uuids           : nat -> string;
  drawn           : nat;
  flows           : nat            (* [processTask] calls so far *)
}.

Definition with_db (d : Db.t) (c : core) : core :=
  mkCore d (mutex c) (lastSentMessage c) (outbox c) (pending c)
         (waiting c) (settled c) (events c) (uuids c) (drawn c) (flows c).

Definition with_mutex (m : Mutex.t) (c : core) : core :=
  mkCore (db c) m (lastSentMessage c) (outbox c) (pending c)
         (waiting c) (settled c) (events c) (uuids c) (drawn c) (flows c).

Definition with_pending (p : list cont) (c : core) : core :=
  mkCore (db c) (mutex c) (lastSentMessage c) (outbox c) p
         (waiting c) (settled c) (events c) (uuids c) (drawn c) (flows c).

Definition with_waiting (w : list (nat * (Js.value * Js.value))) (c : core)
  : core :=
  mkCore (db c) (mutex c) (lastSentMessage c) (outbox c) (pending c)
         w (settled c) (events c) (uuids c) (drawn c) (flows c).

Definition spawn (k : cont) (c : core) : core :=
  with_pending (pending c ++ [k]) c.

Definition settle (flow : nat) (v : settlement) (c : core) : core :=
  mkCore (db c) (mutex c) (lastSentMessage c) (outbox c) (pending c)
         (waiting c) (settled c ++ [(flow, v)]) (events c) (uuids c)
         (drawn c) (flows c).

Definition log (e : event) (c : core) : core :=
  mkCore (db c) (mutex c) (lastSentMessage c) (outbox c) (pending c)
         (waiting c) (settled c) (events c ++ [e]) (uuids c) (drawn c)
         (flows c).

Definition randomUUID (c : core) : string * core :=
  (uuids c (drawn c),
   mkCore (db c) (mutex c) (lastSentMessage c) (outbox c) (pending c)
          (waiting c) (settled c) (events c) (uuids c) (S (drawn c))
          (flows c)).

Definition new_flow (c : core) : nat * core :=
  (flows c,
   mkCore (db c) (mutex c) (lastSentMessage c) (outbox c) (pending c)
          (waiting c) (settled c) (events c) (uuids c) (drawn c)
          (S (flows c))).

(** ** [sendToFrontend] *)
Definition sendToFrontend (message : Message) (c : core) : core :=
  let str := messageStr message in
  match lastSentMessage c with
  | Some last =>
      if String.eqb last str then c
      else mkCore (db c) (mutex c) (Some str) (outbox c ++ [message])
                  (pending c) (waiting c) (settled c) (events c) (uuids c)
                  (drawn c) (flows c)
  | None =>
      mkCore (db c) (mutex c) (Some str) (outbox c ++ [message])
             (pending c) (waiting c) (settled c) (events c) (uuids c)
             (drawn c) (flows c)
  end.

(** The clients are handed nothing by this call. *)
Definition suppressed (message : Message) (c : core) : Prop :=
  outbox (sendToFrontend message c) = outbox c.

(** ** [executeTask], up to [await this.db.update(task, key)] *)
Definition nullish (v : Js.value) : bool :=
  match v with
  | Js.Undefined | Js.Null => true
  | _ => false
  end.

Definition executeTask (flow : nat) (task : Js.value) (c : core) : core :=
  let c := log (Executing flow) c in
  if nullish task then
    (* [task.key] throws, the [catch] returns [null] *)
    settle flow (Fulfilled None) (log (ExecuteFailed flow) c)
  else
    let key := Js.str_prop "key" task in
    if String.eqb key EmptyString then
      let (uuid, c1) := randomUUID c in spawn (Update flow task uuid) c1
    else spawn (Update flow task key) c.

(** [db.update(value, key)] seen from the service. *)
Definition db_update (value : Js.value) (key : string) (o : Db.outcome)
           (c : core) : Db.result string * core :=
  let (r, d) := Db.update value key (uuids c (drawn c)) o (db c) in
  match o with
  | Db.Succeeds =>
      if String.eqb key EmptyString
      then (r, with_db d (snd (randomUUID c)))
      else (r, with_db d c)
  | Db.Rejects _ => (r, with_db d c)
  end.

(** ... and from [await this.db.update] on. *)
Definition afterUpdate (flow : nat) (task : Js.value) (key : string)
           (o : Db.outcome) (c : core) : core :=
  match db_update task key o c with
  | (Db.Ok result, c1) =>
      settle flow (Fulfilled (Some result))
             (sendToFrontend (DATA_UPDATE task)
                             (log (Executed flow result) c1))
  | (Db.Err _, c1) =>
      settle flow (Fulfilled None) (log (ExecuteFailed flow) c1)
  end.

(** ** [processTask] *)

(** [task.type || 'default'] *)
Definition taskType_of (task : Js.value) : Js.value :=
  let type := Js.prop "type" task in
  if Js.truthy type then type else Js.Str "default".

(** Up to [await this.db.getPermission(taskType)]. *)
Definition processTask (task : Js.value) (requiresApproval : bool)
           (c : core) : core :=
  let (flow, c) := new_flow c in
  let c := log (Processing flow requiresApproval) c in
  if requiresApproval then
    if nullish task then settle flow Rejected c
    else spawn (GetPermission flow task (taskType_of task)) c
  else executeTask flow task c.

(** [await this.mutex.acquire()]: the call itself. *)
Definition acquireLock (flow : nat) (task : Js.value) (taskType : Js.value)
           (c : core) : core :=
  let (m, g) := Mutex.acquire flow (mutex c) in
  match g with
  | Some _ =>
      spawn (Acquire flow task taskType)
            (log (LockGranted flow) (with_mutex m c))
  | None =>
      with_waiting (waiting c ++ [(flow, (task, taskType))])
                   (with_mutex m c)
  end.

(** From the permission lookup to the next [await] or [return]. *)
Definition afterGetPermission (flow : nat) (task : Js.value)
           (taskType : Js.value) (o : Db.outcome) (c : core) : core :=
  match Db.getPermission taskType o (db c) with
  | Db.Ok (Some permission) =>
      if Db.remember permission then
        if Db.approved permission then executeTask flow task c
        else settle flow (Fulfilled None) (log (Dropped flow) c)
      else acquireLock flow task taskType c
  | Db.Ok None => acquireLock flow task taskType c
  | Db.Err _ => settle flow Rejected c
  end.

Fixpoint take_waiting (flow : nat) (w : list (nat * (Js.value * Js.value)))
  : option (Js.value * Js.value) * list (nat * (Js.value * Js.value)) :=
  match w with
  | [] => (None, [])
  | (f, x) :: r =>
      if Nat.eqb f flow then (Some x, r)
      else let (y, r') := take_waiting flow r in (y, (f, x) :: r')
  end.

(** The promise of a queued [acquire] is resolved. *)
Definition wake (g : option nat) (c : core) : core :=
  match g with
  | Some flow =>
      match take_waiting flow (waiting c) with
      | (Some (task, taskType), w) =>
          spawn (Acquire flow task taskType)
                (log (LockGranted flow) (with_waiting w c))
      | (None, _) => c
      end
  | None => c
  end.

(** [lock.release()] *)
Definition releaseLock (flow : nat) (c : core) : core :=
  let (m, g) := Mutex.release (mutex c) in
  wake g (log (LockReleased flow) (with_mutex m c)).

(** The handler registered with [once], called with the response. *)
Definition onPromptResponse (w : waiter) (response : PromptResponse)
           (c : core) : core :=
  let c := log (ResponseReceived (w_flow w) response) c in
  let c :=
    match remember response with
    | Some true =>
        (* not awaited; a failure is logged by [.catch] *)
        spawn (SetPermission (w_flow w) (w_taskType w) (approved response))
              (log (PersistStarted (w_flow w) (w_taskType w)
                                   (approved response)) c)
    | _ => c
    end in
  if approved response then executeTask (w_flow w) (w_task w) c
  else settle (w_flow w) (Fulfilled None) (log (Dropped (w_flow w)) c).

(** [setPermission] from its first [await] on, and the [.catch]. *)
Definition afterSetPermission (flow : nat) (taskType : Js.value) (ok : bool)
           (o : Db.outcome) (c : core) : core :=
  let (uuid, c1) := randomUUID c in
  match Db.setPermission taskType ok true uuid o (db c1) with
  | (Db.Ok key, d) => log (Persisted flow key) (with_db d c1)
  | (Db.Err _, _) => log (PersistFailed flow) c1
  end.

(** ** The emitter of the service *)

Definition handler_body (w : waiter)
           (xs : list (Emitter.arg PromptResponse))
  : list (Emitter.cmd waiter PromptResponse (waiter * PromptResponse)) :=
  match xs with
  | Emitter.Payload response :: _ => [Emitter.Effect (w, response)]
  | _ => []
  end.

Definition handler_effect (x : waiter * PromptResponse) (c : core) : core :=
  onPromptResponse (fst x) (snd x) c.

Definition handler_result (w : waiter) : Emitter.returns := Emitter.Plain.

Definition state := Emitter.state waiter PromptResponse core.

Definition lift (f : core -> core) (s : state) : state :=
  Emitter.with_world f s.

Definition topic (promptId : string) : string := "prompt-" +++ promptId.

(** Fuel that [emit] cannot exhaust with the handlers above. *)
Definition emit_fuel (s : state) : nat :=
  6 + fold_right (fun x n => List.length x + n) 0
                 (Emitter.heap (Emitter.emitter s)).

Definition emit (eventName : string) (payload : PromptResponse)
           (s : state) : Emitter.res state :=
  Emitter.emit same handler_effect handler_body handler_result
               (emit_fuel s) eventName payload s.

(** [processTask] from the granted lock on: the [try] block up to
    [return new Promise(...)], whose executor registers the handler,
    then the [finally] block. *)
Definition prompt (flow : nat) (task : Js.value) (taskType : Js.value)
           (s : state) : state :=
  let (promptId, c1) := randomUUID (Emitter.world s) in
  let c2 := log (PromptSent flow promptId) c1 in
  let c3 := sendToFrontend (PROMPT promptId task) c2 in
  let s1 :=
    Emitter.with_emitter
      (Emitter.once same (topic promptId) (mkWaiter flow task taskType))
      (lift (fun _ => c3) s) in
  lift (releaseLock flow) s1.

(** ** Settings, relays, permissions *)

Definition deleted (v : Js.value) : bool :=
  Js.truthy v && Js.truthy (Js.prop "_deleted" v).

Definition settingsData (settings : Db.store Js.value)
  : list (string * Js.value) :=
  fold_left
    (fun acc item =>
       if deleted (snd item) then acc
       else if String.eqb (fst item) EmptyString then acc
            else Js.set_prop (fst item) (snd item) acc)
    settings [].

Definition fetchSettings (c : core) : core := spawn GetAll c.

Definition afterGetAll (o : Db.outcome) (c : core) : core :=
  match Db.getAll o (db c) with
  | Db.Ok settings => sendToFrontend (SETTINGS_DATA (settingsData settings)) c
  | Db.Err e =>
      sendToFrontend (SETTINGS_DATA [])
        (sendToFrontend (ERROR ("Failed to fetch settings: " +++ e)) c)
  end.

Definition tombstone : Js.value := Js.Obj [("_deleted", Js.Bool true)].

Definition updateSettings (key : string) (value : Js.value) (c : core)
  : core := spawn (UpdateSetting key value) c.

Definition afterUpdateSetting (key : string) (value : Js.value)
           (o : Db.outcome) (c : core) : core :=
  let stored := match value with Js.Null => tombstone | _ => value end in
  match db_update stored key o c with
  | (Db.Ok _, c1) =>
      fetchSettings (sendToFrontend (SETTINGS_UPDATED key value) c1)
  | (Db.Err e, c1) =>
      sendToFrontend (ERROR ("Failed to update setting: " +++ e)) c1
  end.

Definition fetchRelays (c : core) : core := spawn GetRelays c.

(** Every relay read from the store is a [{ key, value }] object, which
    the formatting step returns as it is. *)
Definition afterGetRelays (o : Db.outcome) (c : core) : core :=
  match Db.getRelays o (db c) with
  | Db.Ok relays => sendToFrontend (RELAYS_DATA relays) c
  | Db.Err e =>
      sendToFrontend (RELAYS_DATA [])
        (sendToFrontend (ERROR ("Failed to fetch relays: " +++ e)) c)
  end.

Definition afterAddRelay (url : string) (o : Db.outcome) (c : core)
  : core :=
  let (uuid, c1) := randomUUID c in
  match Db.addRelay url uuid o (db c1) with
  | (Db.Ok _, d) => fetchRelays (with_db d c1)
  | (Db.Err e, _) =>
      sendToFrontend (ERROR ("Failed to add relay: " +++ e)) c1
  end.

Definition afterRemoveRelay (key : string) (o : Db.outcome) (c : core)
  : core :=
  match Db.removeRelay key o (db c) with
  | (Db.Ok _, d) => fetchRelays (with_db d c)
  | (Db.Err e, _) =>
      sendToFrontend (ERROR ("Failed to remove relay: " +++ e)) c
  end.

Definition fetchPermissions (c : core) : core := spawn GetPermissions c.

Definition afterGetPermissions (o : Db.outcome) (c : core) : core :=
  match Db.getPermissions o (db c) with
  | Db.Ok permissions => sendToFrontend (PERMISSIONS_DATA permissions) c
  | Db.Err _ => c
  end.

(** The three reads the frontend can ask for. *)
Inductive read := Settings | Relays | Permissions.

Definition request (r : read) : Message :=
  match r with
  | Settings => FETCH_SETTINGS
  | Relays => FETCH_RELAYS
  | Permissions => FETCH_PERMISSIONS
  end.

Definition reading (r : read) : cont :=
  match r with
  | Settings => GetAll
  | Relays => GetRelays
  | Permissions => GetPermissions
  end.

Definition empty_result (r : read) : Message :=
  match r with
  | Settings => SETTINGS_DATA []
  | Relays => RELAYS_DATA []
  | Permissions => PERMISSIONS_DATA []
  end.

(** ** The event loop *)

Definition handleFrontendMessage (message : Message) (s : state)
  : Emitter.res state :=
  match message with
  | TASK task requiresApproval =>
      Emitter.Done (lift (processTask task requiresApproval) s)
  | PROMPT_RESPONSE promptId response => emit (topic promptId) response s
  | FETCH_SETTINGS => Emitter.Done (lift fetchSettings s)
  | UPDATE_SETTINGS key value =>
      Emitter.Done (lift (updateSettings key value) s)
  | FETCH_RELAYS => Emitter.Done (lift fetchRelays s)
  | ADD_RELAY url => Emitter.Done (lift (spawn (AddRelay url)) s)
  | REMOVE_RELAY key => Emitter.Done (lift (spawn (RemoveRelay key)) s)
  | FETCH_PERMISSIONS => Emitter.Done (lift fetchPermissions s)
  | _ => Emitter.Done s
  end.

Definition resume (k : cont) (o : Db.outcome) (s : state) : state :=
  match k with
  | GetPermission flow task taskType =>
      lift (afterGetPermission flow task taskType o) s
  | Acquire flow task taskType => prompt flow task taskType s
  | Update flow task key => lift (afterUpdate flow task key o) s
  | SetPermission flow taskType ok =>
      lift (afterSetPermission flow taskType ok o) s
  | GetAll => lift (afterGetAll o) s
  | UpdateSetting key value => lift (afterUpdateSetting key value o) s
  | GetRelays => lift (afterGetRelays o) s
  | AddRelay url => lift (afterAddRelay url o) s
  | RemoveRelay key => lift (afterRemoveRelay key o) s
  | GetPermissions => lift (afterGetPermissions o) s
  end.

Fixpoint remove_nth (A : Type) (i : nat) (l : list A) : list A :=
  match l, i with
  | [], _ => []
  | _ :: r, O => r
  | x :: r, S j => x :: remove_nth j r
  end.

Inductive input :=
| Receive (message : Message)
| Resume (i : nat) (o : Db.outcome).

Definition step (i : input) (s : state) : Emitter.res state :=
  match i with
  | Receive message => handleFrontendMessage message s
  | Resume n o =>
      match nth_error (pending (Emitter.world s)) n with
      | Some k =>
          Emitter.Done
            (resume k o
               (lift (fun c => with_pending (remove_nth n (pending c)) c)
                     s))
      | None => Emitter.Done s
      end
  end.

(** An exception that leaves [handleFrontendMessage] ends that turn of
    the loop; the service goes on from the state reached. *)
Definition next (i : input) (s : state) : state :=
  match step i s with
  | Emitter.Done s' => s'
  | Emitter.Raised s' => s'
  | Emitter.OutOfFuel => s
  end.

Definition run (inputs : list input) (s : state) : state :=
  fold_left (fun s i => next i s) inputs s.

Definition boot (uuids : nat -> string) (d : Db.t) : state :=
  Emitter.mkState Emitter.create
    (mkCore d Mutex.init None [] [] [] [] [] uuids 0 0) [] [] [].

(** ** Vocabulary for the properties of the approval flow *)

(** A continuation from which [flow] can still reach its prompt. *)
Definition asks (flow : nat) (k : cont) : bool :=
  match k with
  | GetPermission f _ _ => Nat.eqb f flow
  | Acquire f _ _ => Nat.eqb f flow
  | _ => false
  end.

Definition is_prompt (flow : nat) (e : event) : bool :=
  match e with
  | PromptSent f _ => Nat.eqb f flow
  | _ => false
  end.

(** [PROMPT] has been sent for [flow]. *)
Definition prompted (flow : nat) (c : core) : bool :=
  existsb (is_prompt flow) (events c).

(** [flow] is a call that has been made, has not prompted, and is not on
    its way to: it neither awaits its permission lookup nor the lock. *)
Definition quiet (flow : nat) (c : core) : Prop :=
  flow < flows c /\
  forallb (fun k => negb (asks flow k)) (pending c) = true /\
  forallb (fun w => negb (Nat.eqb (fst w) flow)) (waiting c) = true /\
  prompted flow c = false.

(** How many times [flow] is on its way to a prompt: awaiting its
    permission lookup or the lock, in the hands of the scheduler or in
    the queue of the mutex. *)
Definition asking (flow : nat) (c : core) : nat :=
  List.length (filter (asks flow) (pending c)) +
  List.length (filter (fun w => Nat.eqb (fst w) flow) (waiting c)).

(** Every call is at one place at most on its way to its prompt, and not
    on its way once it has prompted; the calls not made yet are nowhere. *)
Definition orderly (c : core) : Prop :=
  forall flow,
    asking flow c + (if prompted flow c then 1 else 0) <= 1 /\
    (flows c <= flow -> asking flow c = 0 /\ prompted flow c = false).

(** From [c] to [c'] no call has moved towards its prompt. *)
Definition unmoved (c c' : core) : Prop :=
  flows c' = flows c /\
  forall flow, asking flow c' = asking flow c /\
               prompted flow c' = prompted flow c.


Definition is_response (flow : nat) (e : event) : bool :=
  match e with
  | ResponseReceived f _ => Nat.eqb f flow
  | _ => false
  end.



(** Where the first event of a kind is. *)
Fixpoint position (kind : event -> bool) (l : list event) : option nat :=
  match l with
  | [] => None
  | e :: r =>
      if kind e then Some 0
      else match position kind r with
           | Some n => Some (S n)
           | None => None
           end
  end.

(** Both kinds of event happen, the first kind first. *)
Definition before (first second : event -> bool) (l : list event) : Prop :=
  match position first l, position second l with
  | Some i, Some j => i < j
  | _, _ => False
  end.


(** Following the claim C8: processing the message changes no state. *)
Definition changes_nothing (message : Message) (s : state) : Prop :=
  handleFrontendMessage message s = Emitter.Done s.

(** A stream of identifiers to run examples with: uuid-0, uuid-1, ... *)
Definition numbered (n : nat) : string :=
  "uuid-" +++ NilZero.string_of_uint (Nat.to_uint n).

(** ** Vocabulary for the invariants of the service *)

(** What the code of the service does to its fields, one assignment
    or call at a time. *)
Inductive act :=
| Log (e : event)
| Spawn (k : cont)
| Settle (flow : nat) (v : settlement)
| Store (d : Db.t)
| Draw
| Send (m : Message)
| Call
| Take (p : list cont)
| Lock (m : Mutex.t)
| Wait (w : list (nat * (Js.value * Js.value))).

Definition perform (a : act) (c : core) : core :=
  match a with
  | Log e => log e c
  | Spawn k => spawn k c
  | Settle flow v => settle flow v c
  | Store d => with_db d c
  | Draw => snd (randomUUID c)
  | Send m => sendToFrontend m c
  | Call => snd (new_flow c)
  | Take p => with_pending p c
  | Lock m => with_mutex m c
  | Wait w => with_waiting w c
  end.

Definition perform_all (l : list act) (c : core) : core :=
  fold_left (fun c a => perform a c) l c.

(** [c'] is [c] after some acts. *)
Definition after_acts (c c' : core) : Prop :=
  exists l, c' = perform_all l c.

(** The continuations that are not on the way to a prompt. *)
Definition inert (k : cont) : bool :=
  match k with
  | GetPermission _ _ _ | Acquire _ _ _ => false
  | _ => true
  end.

(** The acts that concern neither a new call, nor the lock, nor a prompt
    or the way to one. *)
Definition plain (a : act) : bool :=
  match a with
  | Log (PromptSent _ _) => false
  | Log _ => true
  | Spawn k => inert k
  | Settle _ _ | Store _ | Draw | Send _ => true
  | Call | Take _ | Lock _ | Wait _ => false
  end.

(** [c'] is [c] after some plain acts. *)
Definition after_plain (c c' : core) : Prop :=
  exists l, forallb plain l = true /\ c' = perform_all l c.

Definition is_acquire (k : cont) : bool :=
  match k with
  | Acquire _ _ _ => true
  | _ => false
  end.

(** The mutex and the calls around it agree: the queue of the mutex is
    the calls that wait, in their order; the mutex is locked when one
    call has been handed the lock and is about to go on, and only then;
    nobody waits for an unlocked mutex. *)
Definition lockstep (c : core) : Prop :=
  map fst (waiting c) = Mutex.queue (mutex c) /\
  List.length (filter is_acquire (pending c)) =
    (if Mutex.locked (mutex c) then 1 else 0) /\
  (Mutex.locked (mutex c) = false -> waiting c = []).

(** How many [PROMPT]s have been sent for [flow]. *)
Definition prompts (flow : nat) (c : core) : nat :=
  List.length (filter (is_prompt flow) (events c)).

(** Two consecutive messages with one serialisation. *)
Fixpoint stutters (l : list Message) : bool :=
  match l with
  | [] => false
  | a :: r =>
      match r with
      | [] => false
      | b :: _ => String.eqb (messageStr a) (messageStr b) || stutters r
      end
  end.

(** [lastSentMessage] is the serialisation of the last message handed
    to the clients, and no message was handed over twice in a row. *)
Definition outbox_coalesced (c : core) : Prop :=
  lastSentMessage c =
    match rev (outbox c) with
    | m :: _ => Some (messageStr m)
    | [] => None
    end /\
  stutters (outbox c) = false.

(** The scheduler resumes a suspended computation; no message comes
    in. *)
Definition is_resume (i : input) : bool :=
  match i with
  | Resume _ _ => true
  | Receive _ => false
  end.

(** Every handler the emitter holds was registered with [once]. *)
Definition only_once (e : Emitter.t waiter) : Prop :=
  forall a,
    forallb (@Emitter.is_once waiter) (Emitter.live (Emitter.set_at a e)) =
    true.

End Service.

(* ================================================================== *)
(** * The frontend hooks ([useMessageBus], [useDatabase])

    The two ends of the message channel in a page: [send] of
    [useMessageBus], and the listener that [useDatabase] sets up, as far
    as it updates the settings. *)

Module Frontend.
Import Service.

(** [lastMessageRef], and the messages handed to
    [navigator.serviceWorker.controller.postMessage]. *)
Record bus := mkBus {
  lastMessage : option string;
  posted      : list Message
}.

Definition fresh : bus := mkBus None [].

(** [send(message)]; [controller] tells whether a service worker
    controls the page ([controller?.postMessage]). *)
Definition send (controller : bool) (message : Message) (b : bus) : bus :=
  let str := messageStr message in
  let repeated :=
    match lastMessage b with
    | Some last => String.eqb str last
    | None => false
    end in
  if repeated then b
  else mkBus (Some str)
             (if controller then posted b ++ [message] else posted b).

Definition send_all (l : list (bool * Message)) (b : bus) : bus :=
  fold_left (fun b cm => send (fst cm) (snd cm) b) l b.

(** [delete newData[key]] *)
Definition delete_prop (k : string) (fs : list (string * Js.value))
  : list (string * Js.value) :=
  filter (fun kv => negb (String.eqb (fst kv) k)) fs.

(** The listener of [useDatabase] on [SETTINGS_UPDATED]: the function
    it passes to [setData]. *)
Definition settingUpdated (key : string) (value : Js.value)
           (prevData : list (string * Js.value))
  : list (string * Js.value) :=
  match value with
  | Js.Null => delete_prop key prevData
  | _ => Js.set_prop key value prevData
  end.

End Frontend.

(* ================================================================== *)
(** * Properties of the mutex *)

Section MutexFacts.
Import Mutex.

Lemma mutex_inv_start : inv start.
Proof.
  unfold inv; simpl; repeat split; auto; discriminate.
Qed.

Lemma existsb_single c x : existsb (Nat.eqb c) [x] = true -> x = c.
Proof.
  simpl. rewrite orb_false_r. intro E. apply Nat.eqb_eq in E. congruence.
Qed.

Lemma mutex_inv_step e w : inv w -> allowed e w = true -> inv (step e w).
Proof.
  intros (Hreq & Hfree & Hheld) Ha.
  destruct w as [[q l] hs rq gr]; simpl in *.
  destruct e as [c|c]; simpl in *.
  - unfold acquire; simpl. destruct l; simpl.
    + destruct (Hheld eq_refl) as [h ->].
      unfold inv; simpl. repeat split; try discriminate.
      * rewrite Hreq, app_assoc. reflexivity.
      * eauto.
    + destruct (Hfree eq_refl) as [-> ->].
      unfold inv; simpl. repeat split; try discriminate.
      * rewrite Hreq, !app_nil_r. reflexivity.
      * eauto.
  - destruct l.
    + destruct (Hheld eq_refl) as [h ->].
      apply existsb_single in Ha; subst h.
      unfold release; simpl. rewrite Nat.eqb_refl.
      destruct q as [|n q']; simpl;
        unfold inv; simpl; repeat split; try discriminate; eauto.
      rewrite Hreq, <- app_assoc. reflexivity.
    + destruct (Hfree eq_refl) as [-> _]. discriminate.
Qed.

Lemma mutex_inv_run tr : forall w,
  inv w -> disciplined tr w = true -> inv (run tr w).
Proof.
  induction tr as [|e r IH]; simpl; intros w Hi Hd; auto.
  apply andb_prop in Hd. destruct Hd as [Ha Hd].
  apply IH; auto. apply mutex_inv_step; auto.
Qed.

(** C2. Whatever the sequence of [acquire]/[release] calls (each release
    made by the holder of a handle, once per acquire), at every instant
    at most one handle is outstanding, and one is outstanding exactly
    when the mutex is locked; the handles have been granted in the order
    of the [acquire] calls, the callers still queued being the remaining
    ones in that same order; and a release that finds a waiter hands the
    lock to the head of the queue, the mutex being locked after it as
    before, while a release that finds none unlocks it. *)
Theorem mutex_exclusive_fifo (tr : list call) :
  disciplined tr start = true ->
  let w := run tr start in
  (List.length (holders w) <= 1 /\
   (locked (mutex w) = true <-> List.length (holders w) = 1)) /\
  requests w = grants w ++ queue (mutex w) /\
  (forall c, allowed (Release c) w = true ->
     let w' := step (Release c) w in
     match queue (mutex w) with
     | next :: rest =>
         locked (mutex w') = true /\ holders w' = [next] /\
         queue (mutex w') = rest /\ grants w' = grants w ++ [next]
     | [] => locked (mutex w') = false /\ holders w' = [] /\
             grants w' = grants w
     end).
Proof.
  intros Hd w.
  pose proof (mutex_inv_run tr mutex_inv_start Hd) as (Hreq & Hfree & Hheld).
  fold w in Hreq, Hfree, Hheld.
  split; [|split]; auto.
  - destruct (locked (mutex w)) eqn:Hl.
    + destruct (Hheld eq_refl) as [h ->]. simpl. intuition.
    + destruct (Hfree eq_refl) as [-> _]. simpl.
      split; [lia | split; discriminate].
  - intros c Ha w'. unfold w'. simpl in Ha |- *.
    destruct (locked (mutex w)) eqn:Hl.
    + destruct (Hheld eq_refl) as [h Hh]. rewrite Hh in *.
      apply existsb_single in Ha; subst h.
      unfold release. simpl. rewrite Nat.eqb_refl.
      destruct (queue (mutex w)) as [|n q']; simpl; auto.
    + destruct (Hfree eq_refl) as [Hh _]. rewrite Hh in Ha. discriminate.
Qed.

(** The theorem at work: 1 takes the lock, 2 and 3 queue up, 1 hands
    over to 2. *)
Lemma mutex_exclusive_fifo_witness :
  let tr := [Acquire 1; Acquire 2; Acquire 3; Release 1] in
  disciplined tr start = true /\
  run tr start = mkWorld (mk [3] true) [2] [1; 2; 3] [1; 2] /\
  List.length (holders (run tr start)) <= 1 /\
  requests (run tr start) =
    grants (run tr start) ++ queue (mutex (run tr start)).
Proof.
  split; [reflexivity|]. split; [reflexivity|].
  pose proof (@mutex_exclusive_fifo
                [Acquire 1; Acquire 2; Acquire 3; Release 1] eq_refl)
    as ((H1 & _) & H2 & _).
  split; assumption.
Defined.

(** The discipline is needed: the handle is a bound [release] that stays
    usable, and a second call of it by 1 hands the lock to 3 while 2
    holds it. *)
Remark stale_handle_breaks_exclusion :
  let tr := [Acquire 1; Acquire 2; Acquire 3; Release 1; Release 1] in
  disciplined tr start = false /\ holders (run tr start) = [2; 3].
Proof. split; reflexivity. Qed.

End MutexFacts.

(* ================================================================== *)
(** * The message channel: coalescing of consecutive messages *)

Section Channel.
Import Service.

Lemma sent_last message c :
  lastSentMessage (sendToFrontend message c) = Some (messageStr message).
Proof.
  unfold sendToFrontend.
  destruct (lastSentMessage c) as [last|] eqn:E; simpl; auto.
  destruct (String.eqb last (messageStr message)) eqn:Q; simpl; auto.
  apply String.eqb_eq in Q. congruence.
Qed.

Lemma sent_outbox message c :
  outbox (sendToFrontend message c) =
  match lastSentMessage c with
  | Some last =>
      if String.eqb last (messageStr message) then outbox c
      else outbox c ++ [message]
  | None => outbox c ++ [message]
  end.
Proof.
  unfold sendToFrontend.
  destruct (lastSentMessage c) as [last|]; simpl; auto.
  destruct (String.eqb last (messageStr message)); reflexivity.
Qed.

Lemma snoc_differs (A : Type) (l : list A) (x : A) : l ++ [x] <> l.
Proof.
  intro E. apply (f_equal (@List.length A)) in E.
  rewrite length_app in E. simpl in E. lia.
Qed.

(** The claim of C7 as it is stated fails: these two messages differ in
    a field ([NaN] against [null]) and are not deep-equal, yet the
    second one, sent right after the first, is suppressed. *)
Lemma coalescing_is_not_deep_equality :
  let first := DATA_UPDATE (Js.Obj [("x", Js.NaN)]) in
  let second := DATA_UPDATE (Js.Obj [("x", Js.Null)]) in
  let c := Emitter.world (boot (fun _ => "id") Db.empty) in
  Js.deep_equal (to_js first) (to_js second) = false /\
  first <> second /\
  suppressed second (sendToFrontend first c) /\
  outbox (sendToFrontend second (sendToFrontend first c)) = [first].
Proof.
  simpl. repeat split; try reflexivity. discriminate.
Qed.

(** C7, amended. Of two consecutive sends, the second is suppressed if
    and only if its JSON serialisation is the one of the first; so a
    message identical to the one before it is never delivered twice,
    and a message with another serialisation is delivered. *)
Theorem coalescing_by_serialisation (first second : Message) (c : core) :
  let c1 := sendToFrontend first c in
  (suppressed second c1 <-> messageStr second = messageStr first) /\
  (messageStr second <> messageStr first ->
     outbox (sendToFrontend second c1) = outbox c1 ++ [second]) /\
  outbox (sendToFrontend first c1) = outbox c1.
Proof.
  intro c1. unfold suppressed.
  assert (L : lastSentMessage c1 = Some (messageStr first))
    by apply sent_last.
  rewrite !sent_outbox, L, String.eqb_refl.
  destruct (String.eqb (messageStr first) (messageStr second)) eqn:Q.
  - apply String.eqb_eq in Q. repeat split; auto; congruence.
  - apply String.eqb_neq in Q. repeat split; auto.
    + intro E. exfalso. eapply snoc_differs; exact E.
    + intro E. congruence.
Qed.

End Channel.

(* ================================================================== *)
(** * Object stores *)

Section Stores.
Variable V : Type.
Implicit Types (st : Db.store V) (k : string) (v : V).

Lemma compare_refl k : String.compare k k = Eq.
Proof.
  destruct (String.compare k k) eqn:E; auto;
    pose proof (String.compare_antisym k k) as A; rewrite E in A;
    discriminate.
Qed.

Lemma compare_lt_trans a b c :
  String.compare a b = Lt -> String.compare b c = Lt ->
  String.compare a c = Lt.
Proof.
  intros H1 H2. apply OrderedTypeEx.String_as_OT.cmp_lt.
  eapply OrderedTypeEx.String_as_OT.lt_trans;
    apply OrderedTypeEx.String_as_OT.cmp_lt; eauto.
Qed.

Lemma compare_lt_neq a b : String.compare a b = Lt -> a <> b.
Proof.
  intros H E. subst. rewrite compare_refl in H. discriminate.
Qed.

Lemma compare_gt_lt a b : String.compare a b = Gt -> String.compare b a = Lt.
Proof.
  intro H. rewrite String.compare_antisym, H. reflexivity.
Qed.

Lemma get_put_same k v st : Db.get k (Db.put k v st) = Some v.
Proof.
  induction st as [|[k' v'] r IH]; simpl.
  - rewrite String.eqb_refl. reflexivity.
  - destruct (String.compare k k') eqn:E; simpl.
    + rewrite String.eqb_refl. reflexivity.
    + rewrite String.eqb_refl. reflexivity.
    + assert (N : String.eqb k' k = false).
      { apply String.eqb_neq. intro Q. subst.
        rewrite compare_refl in E. discriminate. }
      rewrite N. exact IH.
Qed.

Lemma in_put_same k v st : In (k, v) (Db.put k v st).
Proof.
  induction st as [|[k' v'] r IH]; simpl; auto.
  destruct (String.compare k k'); simpl; auto.
Qed.

Lemma in_put k v st k' v' :
  In (k', v') (Db.put k v st) -> (k', v') = (k, v) \/ In (k', v') st.
Proof.
  induction st as [|[k0 v0] r IH]; simpl.
  - intros [E|[]]; auto.
  - destruct (String.compare k k0); simpl; intros [E|H]; auto.
    destruct (IH H); auto.
Qed.

Lemma sorted_put k v st : Db.sorted st -> Db.sorted (Db.put k v st).
Proof.
  induction st as [|[k0 v0] r IH]; simpl.
  - intros _. split; auto. intros ? ? [].
  - intros [Hlo Hr]. destruct (String.compare k k0) eqn:E; simpl.
    + apply String.compare_eq_iff in E. subst k0. split; auto.
    + split; [|split; auto].
      intros k' v' [Q|Q].
      * injection Q as <- <-. exact E.
      * eapply compare_lt_trans; eauto.
    + split; auto.
      intros k' v' Q. apply in_put in Q. destruct Q as [Q|Q].
      * injection Q as -> ->. apply compare_gt_lt. exact E.
      * eauto.
Qed.

Lemma sorted_get k v st : Db.sorted st -> In (k, v) st -> Db.get k st = Some v.
Proof.
  induction st as [|[k0 v0] r IH]; simpl; [intros _ []|].
  intros [Hlo Hr] [Q|Q].
  - injection Q as -> ->. rewrite String.eqb_refl. reflexivity.
  - assert (N : String.eqb k0 k = false).
    { apply String.eqb_neq. eapply compare_lt_neq. eauto. }
    rewrite N. auto.
Qed.

Lemma get_in k v st : Db.get k st = Some v -> In (k, v) st.
Proof.
  induction st as [|[k0 v0] r IH]; simpl; [discriminate|].
  destruct (String.eqb k0 k) eqn:E.
  - apply String.eqb_eq in E. subst. intro Q. injection Q as ->. auto.
  - auto.
Qed.

End Stores.

(* ================================================================== *)
(** * Settings: soft deletion *)

Section Settings.
Import Service.

Lemma set_prop_in k v acc k' v' :
  In (k', v') (Js.set_prop k v acc) -> (k', v') = (k, v) \/ In (k', v') acc.
Proof.
  induction acc as [|[k0 v0] r IH]; simpl.
  - intros [E|[]]; auto.
  - destruct (String.eqb k0 k); simpl; intros [E|H]; auto.
    destruct (IH H); auto.
Qed.

Lemma settingsData_from settings : forall acc k v,
  In (k, v)
     (fold_left
        (fun acc item =>
           if deleted (snd item) then acc
           else if String.eqb (fst item) EmptyString then acc
                else Js.set_prop (fst item) (snd item) acc)
        settings acc) ->
  In (k, v) acc \/ (In (k, v) settings /\ deleted v = false).
Proof.
  induction settings as [|[k0 v0] r IH]; simpl; intros acc k v H; auto.
  apply IH in H. destruct H as [H|[H D]]; auto.
  destruct (deleted v0) eqn:Dv; auto.
  destruct (String.eqb k0 EmptyString); auto.
  apply set_prop_in in H. destruct H as [H|H]; auto.
  injection H as -> ->. auto.
Qed.

(** What [fetchSettings] puts into [settingsData] is in the store and
    not marked deleted. *)
Lemma settingsData_sound settings k v :
  In (k, v) (settingsData settings) ->
  In (k, v) settings /\ deleted v = false.
Proof.
  intro H. apply settingsData_from in H. destruct H as [[]|H]; auto.
Qed.

Lemma settingsData_hides settings k v :
  Db.sorted settings -> Db.get k settings = Some v -> deleted v = true ->
  ~ In k (map fst (settingsData settings)).
Proof.
  intros Hs Hg Hd Hin. apply in_map_iff in Hin.
  destruct Hin as [[k' v'] [E H]]. simpl in E. subst k'.
  apply settingsData_sound in H. destruct H as [H D].
  eapply sorted_get in H; [|exact Hs]. congruence.
Qed.

(** C10. Deleting a setting is a soft delete.  [UPDATE_SETTINGS] with
    value [null] makes the service start a write.  When that write, for
    a key that is not empty, is resumed and succeeds, the store maps the
    key to the tombstone [{ _deleted: true }], which [getAll] returns
    with the rest; the frontend is sent [SETTINGS_UPDATED] and a read of
    the settings is started.  And in every state [s'] whose store holds
    the tombstone, the step that resumes a read of the settings sends a
    [SETTINGS_DATA] that has no entry marked deleted and no entry for
    the key. *)
Theorem soft_delete (key : string) (s s' : state) (i j : nat)
        (o : Db.outcome) :
  key <> EmptyString ->
  Db.sorted (Db.data (db (Emitter.world s))) ->
  nth_error (pending (Emitter.world s)) i =
    Some (UpdateSetting key Js.Null) ->
  let c := with_pending (remove_nth i (pending (Emitter.world s)))
                        (Emitter.world s) in
  let written := with_db (Db.mk (Db.put key tombstone (Db.data (db c)))
                                (Db.relays (db c)) (Db.permissions (db c)))
                         c in
  let s1 := next (Resume i Db.Succeeds) s in
  let c' := with_pending (remove_nth j (pending (Emitter.world s')))
                         (Emitter.world s') in
  (forall s0 : state,
     step (Receive (UPDATE_SETTINGS key Js.Null)) s0 =
       Emitter.Done (lift (spawn (UpdateSetting key Js.Null)) s0)) /\
  step (Resume i Db.Succeeds) s =
    Emitter.Done
      (lift (fun _ => fetchSettings
                        (sendToFrontend (SETTINGS_UPDATED key Js.Null)
                                        written)) s) /\
  (Db.get key (Db.data (db (Emitter.world s1))) = Some tombstone /\
   Db.sorted (Db.data (db (Emitter.world s1))) /\
   exists all, Db.getAll Db.Succeeds (db (Emitter.world s1)) = Db.Ok all /\
               In (key, tombstone) all) /\
  pending (Emitter.world s1) = pending c ++ [GetAll] /\
  (Db.sorted (Db.data (db (Emitter.world s'))) ->
   Db.get key (Db.data (db (Emitter.world s'))) = Some tombstone ->
   nth_error (pending (Emitter.world s')) j = Some GetAll ->
   exists d,
     step (Resume j o) s' =
       Emitter.Done (lift (fun _ => sendToFrontend (SETTINGS_DATA d) c') s')
     /\ ~ In key (map fst d)
     /\ forall k v, In (k, v) d -> deleted v = false).
Proof.
  intros Hk Hs Hp c written s1 c'.
  assert (N : String.eqb key EmptyString = false)
    by (apply String.eqb_neq; exact Hk).
  assert (E : step (Resume i Db.Succeeds) s =
              Emitter.Done
                (lift (fun _ => fetchSettings
                                  (sendToFrontend
                                     (SETTINGS_UPDATED key Js.Null)
                                     written)) s)).
  { unfold step. rewrite Hp. cbn [resume].
    unfold lift, Emitter.with_world. cbn [Emitter.world Emitter.emitter
      Emitter.calls Emitter.settled Emitter.floating].
    unfold afterUpdateSetting, db_update, Db.update, Db.or_uuid.
    rewrite N. reflexivity. }
  assert (W : Emitter.world s1 =
              fetchSettings
                (sendToFrontend (SETTINGS_UPDATED key Js.Null) written)).
  { unfold s1, next. rewrite E. reflexivity. }
  assert (D : Db.data (db (Emitter.world s1)) =
              Db.put key tombstone (Db.data (db (Emitter.world s)))).
  { rewrite W. unfold fetchSettings, spawn, with_pending. simpl.
    unfold sendToFrontend. simpl.
    destruct (lastSentMessage (Emitter.world s)) as [last|]; simpl; auto.
    match goal with |- context [String.eqb ?a ?b] =>
      destruct (String.eqb a b) end; reflexivity. }
  split; [intro s0; reflexivity|]. split; [exact E|]. split; [|split].
  - rewrite D. split; [apply get_put_same|].
    split; [apply sorted_put; exact Hs|].
    exists (Db.data (db (Emitter.world s1))). split; [reflexivity|].
    rewrite D. apply in_put_same.
  - rewrite W. unfold fetchSettings, spawn, with_pending. simpl.
    unfold sendToFrontend. simpl.
    destruct (lastSentMessage (Emitter.world s)) as [last|]; simpl; auto.
    match goal with |- context [String.eqb ?a ?b] =>
      destruct (String.eqb a b) end; reflexivity.
  - intros Hs2 Hg2 Hp2. unfold step. rewrite Hp2. destruct o as [|e].
    + exists (settingsData (Db.data (db (Emitter.world s')))).
      split; [reflexivity|]. split.
      * eapply settingsData_hides; eauto.
      * intros k v H. apply settingsData_sound in H. tauto.
    + exists []. split; [reflexivity|]. split; [intros []|intros ? ? []].
Qed.

(** The theorem on a service whose store holds a theme and a language:
    the frontend asks for the theme to be deleted, the write is resumed,
    then the read. *)
Lemma soft_delete_witness :
  let d := Db.mk [("lang", Js.Str "en"); ("theme", Js.Str "dark")] [] [] in
  let s := next (Receive (UPDATE_SETTINGS "theme" Js.Null))
                (boot numbered d) in
  let s1 := next (Resume 0 Db.Succeeds) s in
  let s2 := next (Resume 0 Db.Succeeds) s1 in
  Db.data (db (Emitter.world s2)) =
    [("lang", Js.Str "en"); ("theme", tombstone)] /\
  outbox (Emitter.world s2) =
    [SETTINGS_UPDATED "theme" Js.Null;
     SETTINGS_DATA [("lang", Js.Str "en")]] /\
  Db.get "theme" (Db.data (db (Emitter.world s1))) = Some tombstone /\
  exists data,
    step (Resume 0 Db.Succeeds) s1 =
      Emitter.Done
        (lift (fun _ => sendToFrontend (SETTINGS_DATA data)
                          (with_pending [] (Emitter.world s1))) s1) /\
    ~ In "theme" (map fst data).
Proof.
  intros d s s1 s2.
  split; [reflexivity|]. split; [reflexivity|].
  assert (K : "theme" <> EmptyString) by discriminate.
  assert (S : Db.sorted (Db.data (db (Emitter.world s)))).
  { simpl. split; [|split; [intros ? ? []|exact I]].
    intros k' v' [Q|[]]. injection Q as <- <-. reflexivity. }
  pose proof (@soft_delete "theme" s s1 0 0 Db.Succeeds K S eq_refl)
    as (_ & _ & (G & S1 & _) & _ & R).
  split; [exact G|].
  destruct (R S1 G eq_refl) as (data & E & A & _).
  exists data. split; [exact E|exact A].
Defined.

End Settings.

(* ================================================================== *)
(** * Reads when the store fails *)

Section FailedReads.
Import Service.

(** The claim of C6 as it is stated fails: the store rejects the read
    behind [FETCH_SETTINGS] (and likewise [FETCH_RELAYS],
    [FETCH_PERMISSIONS]); the frontend gets the empty result and no
    [ERROR] message at all. *)
Lemma failed_read_sends_no_error :
  let after r :=
    outbox (Emitter.world
              (run [Receive (request r); Resume 0 (Db.Rejects "QuotaExceeded")]
                   (boot numbered Db.empty))) in
  after Settings = [SETTINGS_DATA []] /\
  after Relays = [RELAYS_DATA []] /\
  after Permissions = [PERMISSIONS_DATA []] /\
  forall r message, ~ In (ERROR message) (after r).
Proof.
  simpl. repeat split.
  intros [] message [Q|[]]; discriminate.
Qed.

(** C6, amended. A failure of the store behind a read never gets past
    the handler, and no [ERROR] is broadcast for it: the controller
    turns the failure into the empty result, which the handler
    broadcasts as the data message of that read, unless it repeats the
    last message sent. *)
Theorem failed_read_is_empty_read (r : read) (s : state) (i : nat)
        (e : string) :
  nth_error (pending (Emitter.world s)) i = Some (reading r) ->
  let c := with_pending (remove_nth i (pending (Emitter.world s)))
                        (Emitter.world s) in
  step (Receive (request r)) s = Emitter.Done (lift (spawn (reading r)) s) /\
  step (Resume i (Db.Rejects e)) s =
    Emitter.Done (lift (fun _ => sendToFrontend (empty_result r) c) s) /\
  db (sendToFrontend (empty_result r) c) = db (Emitter.world s) /\
  (outbox (sendToFrontend (empty_result r) c) =
     outbox (Emitter.world s) ++ [empty_result r] \/
   outbox (sendToFrontend (empty_result r) c) = outbox (Emitter.world s) /\
   lastSentMessage (Emitter.world s) = Some (messageStr (empty_result r))).
Proof.
  intros Hp c. split; [destruct r; reflexivity|]. split.
  - unfold step. rewrite Hp. destruct r; reflexivity.
  - split.
    + unfold sendToFrontend. simpl.
      destruct (lastSentMessage (Emitter.world s)) as [last|]; simpl; auto.
      destruct (String.eqb last (messageStr (empty_result r))); reflexivity.
    + rewrite sent_outbox. simpl.
      destruct (lastSentMessage (Emitter.world s)) as [last|]; simpl; auto.
      destruct (String.eqb last (messageStr (empty_result r))) eqn:Q; auto.
      right. split; auto. apply String.eqb_eq in Q. congruence.
Qed.

(** The theorem on the permissions read of a service that was just asked
    for it. *)
Lemma failed_read_is_empty_read_witness :
  let s := next (Receive FETCH_PERMISSIONS) (boot numbered Db.empty) in
  nth_error (pending (Emitter.world s)) 0 = Some GetPermissions /\
  step (Resume 0 (Db.Rejects "AbortError")) s =
    Emitter.Done
      (lift (fun _ => sendToFrontend (PERMISSIONS_DATA [])
                        (with_pending [] (Emitter.world s))) s).
Proof.
  split; [reflexivity|].
  exact (proj1 (proj2
    (@failed_read_is_empty_read Permissions
       (next (Receive FETCH_PERMISSIONS) (boot numbered Db.empty))
       0 "AbortError" eq_refl))).
Defined.

End FailedReads.

(* ================================================================== *)
(** * The emitter: one step of each function *)

Section EmitterEquations.
Import Emitter.
Variables (H P W X : Type).
Variable same : H -> H -> bool.
Variable ext : X -> W -> W.
Variable body : H -> list (arg P) -> list (cmd H P X).
Variable result : H -> returns.

Lemma emit_S f n p (s : state H P W) :
  emit same ext body result (S f) n p s =
  let (a, s1) := handlers_of n s in
  match forEach same ext body result f a 0 [Payload p] [] s1 with
  | Done (ps1, s2) =>
      let (b, s3) := handlers_of "*" s2 in
      match forEach same ext body result f b 0 [EventName n; Payload p]
                    ps1 s3 with
      | Done (ps2, s4) => Done (allSettled ps2 s4)
      | Raised (_, s4) => Raised s4
      | OutOfFuel => OutOfFuel
      end
  | Raised (_, s2) => Raised s2
  | OutOfFuel => OutOfFuel
  end.
Proof. reflexivity. Qed.

Lemma forEach_S f a i xs ps (s : state H P W) :
  forEach same ext body result (S f) a i xs ps s =
  match nth_error (set_at a (emitter s)) i with
  | None => Done (ps, s)
  | Some None => forEach same ext body result f a (S i) xs ps s
  | Some (Some h) =>
      match invoke same ext body result f h None xs s with
      | Done (ps', s') =>
          forEach same ext body result f a (S i) xs (ps ++ ps') s'
      | Raised (_, s') => Raised (ps, s')
      | OutOfFuel => OutOfFuel
      end
  end.
Proof. reflexivity. Qed.

Lemma invoke_user_S f u wr xs (s : state H P W) :
  invoke same ext body result (S f) (User u) wr xs s =
  match exec same ext body result f (body u xs)
             (record_call (mkCall wr u xs) s) with
  | Done s' => Done (promise_of result u, s')
  | Raised s' => Raised ([], s')
  | OutOfFuel => OutOfFuel
  end.
Proof. reflexivity. Qed.

Lemma invoke_once_S f reg n u wr xs (s : state H P W) :
  invoke same ext body result (S f) (OneTime reg n u) wr xs s =
  match invoke same ext body result f (User u) (Some reg) (firstn 1 xs)
               (with_emitter (remove_handler same n (OneTime reg n u)) s)
  with
  | Done (ps, s') => Done ([], drop_promises ps s')
  | Raised (_, s') => Raised ([], s')
  | OutOfFuel => OutOfFuel
  end.
Proof. reflexivity. Qed.

Lemma exec_S f cs (s : state H P W) :
  exec same ext body result (S f) cs s =
  match cs with
  | [] => Done s
  | c :: rest =>
      match c with
      | On n h =>
          exec same ext body result f rest (with_emitter (on same n h) s)
      | Once n h =>
          exec same ext body result f rest (with_emitter (once same n h) s)
      | Off n h =>
          exec same ext body result f rest (with_emitter (off same n h) s)
      | Clear n =>
          exec same ext body result f rest (with_emitter (clear n) s)
      | Effect x => exec same ext body result f rest (with_world (ext x) s)
      | Throw => Raised s
      | Emit n p =>
          match emit same ext body result f n p s with
          | Done s' => exec same ext body result f rest s'
          | Raised s' => Raised s'
          | OutOfFuel => OutOfFuel
          end
      end
  end.
Proof. reflexivity. Qed.

Lemma handlers_of_world n (s : state H P W) :
  world (snd (handlers_of n s)) = world s.
Proof.
  unfold handlers_of. destruct (getEventHandlers n (emitter s)). reflexivity.
Qed.

End EmitterEquations.

(* ================================================================== *)
(** * The emitter and the world outside it *)

Section EmitterWorld.
Import Emitter.
Variables (H P W X : Type).
Variable same : H -> H -> bool.
Variable ext : X -> W -> W.
Variable body : H -> list (arg P) -> list (cmd H P X).
Variable result : H -> returns.

(** A property of the world that every effect of a handler keeps. *)
Variable keeps : W -> Prop.
Hypothesis keeps_ext : forall x w, keeps w -> keeps (ext x w).

Lemma emit_keeps_world fuel :
  (forall n p (s : state H P W), keeps (world s) ->
     finally (emit same ext body result fuel n p s)
             (fun s' => keeps (world s'))) /\
  (forall a i xs ps (s : state H P W), keeps (world s) ->
     finally (forEach same ext body result fuel a i xs ps s)
             (fun r => keeps (world (snd r)))) /\
  (forall h wr xs (s : state H P W), keeps (world s) ->
     finally (invoke same ext body result fuel h wr xs s)
             (fun r => keeps (world (snd r)))) /\
  (forall cs (s : state H P W), keeps (world s) ->
     finally (exec same ext body result fuel cs s)
             (fun s' => keeps (world s'))).
Proof.
  induction fuel as [|f (IHemit & IHeach & IHinvoke & IHexec)];
    [repeat split; intros; exact I|].
  repeat split.
  - intros n p s K. rewrite emit_S.
    pose proof (handlers_of_world n s) as E1.
    destruct (handlers_of n s) as [a s1]. simpl in E1.
    assert (K1 : keeps (world s1)) by (rewrite E1; exact K).
    pose proof (IHeach a 0 [Payload p] [] s1 K1) as F1.
    destruct (forEach same ext body result f a 0 [Payload p] [] s1)
      as [[ps1 s2]|[ps1 s2]|]; simpl in F1; [|exact F1|exact I].
    pose proof (handlers_of_world "*" s2) as E3.
    destruct (handlers_of "*" s2) as [b s3]. simpl in E3.
    assert (K3 : keeps (world s3)) by (rewrite E3; exact F1).
    pose proof (IHeach b 0 [EventName n; Payload p] ps1 s3 K3) as F3.
    destruct (forEach same ext body result f b 0 [EventName n; Payload p]
                      ps1 s3) as [[ps2 s4]|[ps2 s4]|]; simpl in F3;
      [exact F3|exact F3|exact I].
  - intros a i xs ps s K. rewrite forEach_S.
    destruct (nth_error (set_at a (emitter s)) i) as [[h|]|].
    + pose proof (IHinvoke h None xs s K) as F1.
      destruct (invoke same ext body result f h None xs s)
        as [[ps1 s1]|[ps1 s1]|]; simpl in F1; [|exact F1|exact I].
      apply IHeach. exact F1.
    + apply IHeach. exact K.
    + exact K.
  - intros h wr xs s K. destruct h as [u|reg n u].
    + rewrite invoke_user_S.
      pose proof (IHexec (body u xs) (record_call (mkCall wr u xs) s) K)
        as F1.
      destruct (exec same ext body result f (body u xs)
                     (record_call (mkCall wr u xs) s)); exact F1.
    + rewrite invoke_once_S.
      pose proof (IHinvoke (User u) (Some reg) (firstn 1 xs)
                    (with_emitter (remove_handler same n (OneTime reg n u))
                                  s) K) as F1.
      destruct (invoke same ext body result f (User u) (Some reg)
                       (firstn 1 xs)
                       (with_emitter
                          (remove_handler same n (OneTime reg n u)) s))
        as [[ps1 s1]|[ps1 s1]|]; exact F1.
  - intros cs s K. rewrite exec_S. destruct cs as [|c rest]; [exact K|].
    destruct c; try (apply IHexec; simpl; auto; fail).
    + pose proof (IHemit eventName p s K) as F1.
      destruct (emit same ext body result f eventName p s);
        simpl in F1; [|exact F1|exact I].
      apply IHexec. exact F1.
    + exact K.
Qed.

End EmitterWorld.

(* ================================================================== *)
(** * What every run of [emit] keeps true of the emitter *)

Section EmitterKeeps.
Import Emitter.
Variables (H P W X : Type).
Variable same : H -> H -> bool.
Variable ext : X -> W -> W.
Variable body : H -> list (arg P) -> list (cmd H P X).
Variable result : H -> returns.

(** A property of the emitter that the lookup of a set, the removal of
    a handler and every command of a handler keep. *)
Variable keeps : t H -> Prop.
Hypothesis keeps_get :
  forall n e, keeps e -> keeps (snd (getEventHandlers n e)).
Hypothesis keeps_remove :
  forall n h e, keeps e -> keeps (remove_handler same n h e).
Hypothesis keeps_body :
  forall u xs c e, In c (body u xs) -> keeps e ->
                   keeps (on_emitter same c e).

Lemma handlers_of_emitter n (s : state H P W) :
  emitter (snd (handlers_of n s)) = snd (getEventHandlers n (emitter s)).
Proof.
  unfold handlers_of. destruct (getEventHandlers n (emitter s)). reflexivity.
Qed.

Lemma emit_keeps_emitter fuel :
  (forall n p (s : state H P W), keeps (emitter s) ->
     finally (emit same ext body result fuel n p s)
             (fun s' => keeps (emitter s'))) /\
  (forall a i xs ps (s : state H P W), keeps (emitter s) ->
     finally (forEach same ext body result fuel a i xs ps s)
             (fun r => keeps (emitter (snd r)))) /\
  (forall h wr xs (s : state H P W), keeps (emitter s) ->
     finally (invoke same ext body result fuel h wr xs s)
             (fun r => keeps (emitter (snd r)))) /\
  (forall cs (s : state H P W),
     (forall c e, In c cs -> keeps e -> keeps (on_emitter same c e)) ->
     keeps (emitter s) ->
     finally (exec same ext body result fuel cs s)
             (fun s' => keeps (emitter s'))).
Proof.
  induction fuel as [|f (IHemit & IHeach & IHinvoke & IHexec)];
    [repeat split; intros; exact I|].
  repeat split.
  - intros n p s K. rewrite emit_S.
    pose proof (handlers_of_emitter n s) as E1.
    destruct (handlers_of n s) as [a s1]. simpl in E1.
    assert (K1 : keeps (emitter s1)) by (rewrite E1; auto).
    pose proof (IHeach a 0 [Payload p] [] s1 K1) as F1.
    destruct (forEach same ext body result f a 0 [Payload p] [] s1)
      as [[ps1 s2]|[ps1 s2]|]; simpl in F1; [|exact F1|exact I].
    pose proof (handlers_of_emitter "*" s2) as E3.
    destruct (handlers_of "*" s2) as [b s3]. simpl in E3.
    assert (K3 : keeps (emitter s3)) by (rewrite E3; auto).
    pose proof (IHeach b 0 [EventName n; Payload p] ps1 s3 K3) as F3.
    destruct (forEach same ext body result f b 0 [EventName n; Payload p]
                      ps1 s3) as [[ps2 s4]|[ps2 s4]|]; simpl in F3;
      [exact F3|exact F3|exact I].
  - intros a i xs ps s K. rewrite forEach_S.
    destruct (nth_error (set_at a (emitter s)) i) as [[h|]|].
    + pose proof (IHinvoke h None xs s K) as F1.
      destruct (invoke same ext body result f h None xs s)
        as [[ps1 s1]|[ps1 s1]|]; simpl in F1; [|exact F1|exact I].
      apply IHeach. exact F1.
    + apply IHeach. exact K.
    + exact K.
  - intros h wr xs s K. destruct h as [u|reg n u].
    + rewrite invoke_user_S.
      assert (F1 : finally
                (exec same ext body result f (body u xs)
                      (record_call (mkCall wr u xs) s))
                (fun s' => keeps (emitter s'))).
      { apply IHexec; [|exact K]. intros c e Hin. apply keeps_body with u xs.
        exact Hin. }
      destruct (exec same ext body result f (body u xs)
                     (record_call (mkCall wr u xs) s)); exact F1.
    + rewrite invoke_once_S.
      assert (F1 : finally
                (invoke same ext body result f (User u) (Some reg)
                        (firstn 1 xs)
                        (with_emitter
                           (remove_handler same n (OneTime reg n u)) s))
                (fun r => keeps (emitter (snd r)))).
      { apply IHinvoke. simpl. apply keeps_remove. exact K. }
      destruct (invoke same ext body result f (User u) (Some reg)
                       (firstn 1 xs)
                       (with_emitter
                          (remove_handler same n (OneTime reg n u)) s))
        as [[ps1 s1]|[ps1 s1]|]; exact F1.
  - intros cs s Hc K. rewrite exec_S. destruct cs as [|c rest]; [exact K|].
    assert (Hr : forall c' e, In c' rest -> keeps e ->
                              keeps (on_emitter same c' e))
      by (intros c' e Hin; apply Hc; right; exact Hin).
    pose proof (fun e => Hc c e (or_introl eq_refl)) as H0.
    destruct c; simpl in H0;
      try (apply IHexec; [exact Hr|simpl; auto]; fail).
    + pose proof (IHemit eventName p s K) as F1.
      destruct (emit same ext body result f eventName p s);
        simpl in F1; [|exact F1|exact I].
      apply IHexec; assumption.
    + exact K.
Qed.

End EmitterKeeps.

(* ================================================================== *)
(** * The approval flow: what cannot lead to a prompt *)

Section Quiet.
Import Service.
Variable flow : nat.

Lemma quiet_log e c :
  is_prompt flow e = false -> quiet flow c -> quiet flow (log e c).
Proof.
  intros He (Hf & Hp & Hw & Hq). repeat split; auto.
  unfold prompted in *. simpl. rewrite existsb_app, Hq. simpl.
  rewrite He. reflexivity.
Qed.

Lemma quiet_spawn k c :
  asks flow k = false -> quiet flow c -> quiet flow (spawn k c).
Proof.
  intros Hk (Hf & Hp & Hw & Hq). repeat split; auto.
  simpl. rewrite forallb_app, Hp. simpl. rewrite Hk. reflexivity.
Qed.

Lemma quiet_settle f v c : quiet flow c -> quiet flow (settle f v c).
Proof. intros (Hf & Hp & Hw & Hq). repeat split; auto. Qed.

Lemma quiet_with_db d c : quiet flow c -> quiet flow (with_db d c).
Proof. intros (Hf & Hp & Hw & Hq). repeat split; auto. Qed.

Lemma quiet_with_mutex m c : quiet flow c -> quiet flow (with_mutex m c).
Proof. intros (Hf & Hp & Hw & Hq). repeat split; auto. Qed.

Lemma quiet_randomUUID c : quiet flow c -> quiet flow (snd (randomUUID c)).
Proof. intros (Hf & Hp & Hw & Hq). repeat split; auto. Qed.

Lemma quiet_send message c :
  quiet flow c -> quiet flow (sendToFrontend message c).
Proof.
  intros (Hf & Hp & Hw & Hq). unfold sendToFrontend.
  destruct (lastSentMessage c) as [last|];
    [destruct (String.eqb last (messageStr message))|];
    repeat split; auto.
Qed.

Lemma forallb_remove_nth (A : Type) (p : A -> bool) (l : list A) :
  forall i, forallb p l = true -> forallb p (remove_nth i l) = true.
Proof.
  induction l as [|x r IH]; intros [|i]; simpl; auto.
  - intro E. apply andb_prop in E. tauto.
  - intro E. apply andb_prop in E. destruct E as [-> E]. simpl. auto.
Qed.

Lemma forallb_nth_error (A : Type) (p : A -> bool) (l : list A) :
  forall i x, forallb p l = true -> nth_error l i = Some x -> p x = true.
Proof.
  induction l as [|y r IH]; intros [|i] x; simpl; try discriminate.
  - intros E Q. injection Q as <-. apply andb_prop in E. tauto.
  - intros E Q. apply andb_prop in E. destruct E as [_ E]. eauto.
Qed.

Lemma quiet_resumed i c :
  quiet flow c -> quiet flow (with_pending (remove_nth i (pending c)) c).
Proof.
  intros (Hf & Hp & Hw & Hq). repeat split; auto.
  simpl. apply forallb_remove_nth. exact Hp.
Qed.

(** The steps that keep [quiet] whatever their arguments. *)
Ltac quiet_step :=
  first [ apply quiet_settle
        | apply quiet_send
        | apply quiet_with_db
        | apply quiet_with_mutex
        | apply quiet_log; [reflexivity|]
        | apply quiet_spawn; [reflexivity|] ].

Ltac quiet_steps := repeat quiet_step; try assumption.

Lemma quiet_executeTask f task c :
  quiet flow c -> quiet flow (executeTask f task c).
Proof.
  intro Q. unfold executeTask.
  destruct (nullish task); [quiet_steps|].
  destruct (String.eqb (Js.str_prop "key" task) EmptyString); [|quiet_steps].
  quiet_step. apply (quiet_randomUUID (c := log (Executing f) c)).
  quiet_steps.
Qed.

Lemma quiet_db_update value key o c :
  quiet flow c -> quiet flow (snd (db_update value key o c)).
Proof.
  intro Q. unfold db_update.
  destruct (Db.update value key (uuids c (drawn c)) o (db c)) as [r d].
  destruct o; [destruct (String.eqb key EmptyString)|]; simpl;
    quiet_steps.
Qed.

Lemma quiet_afterUpdate f task key o c :
  quiet flow c -> quiet flow (afterUpdate f task key o c).
Proof.
  intro Q. unfold afterUpdate.
  pose proof (quiet_db_update task key o Q) as Q1.
  destruct (db_update task key o c) as [[r|e] c1]; simpl in Q1; quiet_steps.
Qed.

Lemma quiet_acquireLock f task ty c :
  f <> flow -> quiet flow c -> quiet flow (acquireLock f task ty c).
Proof.
  intros N Q. unfold acquireLock.
  destruct (Mutex.acquire f (mutex c)) as [m [g|]].
  - apply quiet_spawn; [simpl; apply Nat.eqb_neq; exact N|]. quiet_steps.
  - destruct Q as (Hf & Hp & Hw & Hq). repeat split; auto.
    simpl. rewrite forallb_app, Hw. simpl.
    apply Nat.eqb_neq in N. rewrite N. reflexivity.
Qed.

Lemma quiet_afterGetPermission f task ty o c :
  f <> flow -> quiet flow c -> quiet flow (afterGetPermission f task ty o c).
Proof.
  intros N Q. unfold afterGetPermission.
  destruct (Db.getPermission ty o (db c)) as [[p|]|e].
  - destruct (Db.remember p); [destruct (Db.approved p)|].
    + apply quiet_executeTask; auto.
    + quiet_steps.
    + apply quiet_acquireLock; auto.
  - apply quiet_acquireLock; auto.
  - quiet_steps.
Qed.

Lemma take_waiting_spec f w :
  forallb (fun x => negb (Nat.eqb (fst x) flow)) w = true ->
  forallb (fun x => negb (Nat.eqb (fst x) flow))
          (snd (take_waiting f w)) = true /\
  (fst (take_waiting f w) <> None -> f <> flow).
Proof.
  induction w as [|[g x] r IH]; simpl.
  - intros _. split; auto.
  - intro E. apply andb_prop in E. destruct E as [E1 E2].
    destruct (Nat.eqb g f) eqn:G; simpl.
    + split; auto. intros _. apply Nat.eqb_eq in G. subst g.
      apply negb_true_iff, Nat.eqb_neq in E1. exact E1.
    + destruct (IH E2) as [I1 I2].
      destruct (take_waiting f r) as [y r']; simpl in *.
      rewrite E1, I1. auto.
Qed.

Lemma quiet_wake g c : quiet flow c -> quiet flow (wake g c).
Proof.
  intro Q. unfold wake. destruct g as [f|]; auto.
  destruct Q as (Hf & Hp & Hw & Hq).
  destruct (take_waiting_spec f _ Hw) as [T1 T2].
  destruct (take_waiting f (waiting c)) as [[[task ty]|] w]; simpl in *.
  - apply quiet_spawn.
    + simpl. apply Nat.eqb_neq. apply T2. discriminate.
    + quiet_step. repeat split; auto.
  - repeat split; auto.
Qed.

Lemma quiet_releaseLock f c :
  quiet flow c -> quiet flow (releaseLock f c).
Proof.
  intro Q. unfold releaseLock.
  destruct (Mutex.release (mutex c)) as [m g].
  apply quiet_wake. quiet_steps.
Qed.

Lemma world_prompt f task ty (s : state) :
  Emitter.world (prompt f task ty s) =
  releaseLock f
    (sendToFrontend
       (PROMPT (uuids (Emitter.world s) (drawn (Emitter.world s))) task)
       (log (PromptSent f (uuids (Emitter.world s)
                                 (drawn (Emitter.world s))))
            (snd (randomUUID (Emitter.world s))))).
Proof. reflexivity. Qed.

Lemma quiet_prompt f task ty (s : state) :
  f <> flow -> quiet flow (Emitter.world s) ->
  quiet flow (Emitter.world (prompt f task ty s)).
Proof.
  intros N Q. rewrite world_prompt.
  apply quiet_releaseLock, quiet_send, quiet_log.
  - simpl. apply Nat.eqb_neq. exact N.
  - apply quiet_randomUUID. exact Q.
Qed.

Lemma quiet_onPromptResponse w r c :
  quiet flow c -> quiet flow (onPromptResponse w r c).
Proof.
  intro Q. unfold onPromptResponse.
  assert (Q2 : quiet flow
    match remember r with
    | Some true =>
        spawn (SetPermission (w_flow w) (w_taskType w) (approved r))
          (log (PersistStarted (w_flow w) (w_taskType w) (approved r))
               (log (ResponseReceived (w_flow w) r) c))
    | _ => log (ResponseReceived (w_flow w) r) c
    end).
  { destruct (remember r) as [[|]|]; quiet_steps. }
  destruct (approved r).
  - apply quiet_executeTask. exact Q2.
  - quiet_steps.
Qed.

Lemma quiet_afterSetPermission f ty ok o c :
  quiet flow c -> quiet flow (afterSetPermission f ty ok o c).
Proof.
  intro Q. unfold afterSetPermission.
  pose proof (quiet_randomUUID Q) as Q1.
  destruct (randomUUID c) as [uuid c1]. simpl in Q1.
  destruct (Db.setPermission ty ok true uuid o (db c1)) as [[key|e] d];
    quiet_steps.
Qed.

Lemma quiet_afterGetAll o c : quiet flow c -> quiet flow (afterGetAll o c).
Proof.
  intro Q. unfold afterGetAll.
  destruct (Db.getAll o (db c)); quiet_steps.
Qed.

Lemma quiet_afterUpdateSetting key value o c :
  quiet flow c -> quiet flow (afterUpdateSetting key value o c).
Proof.
  intro Q. unfold afterUpdateSetting, fetchSettings.
  match goal with |- context [db_update ?v key o c] =>
    pose proof (quiet_db_update v key o Q) as Q1;
    destruct (db_update v key o c) as [[r|e] c1] end; simpl in Q1;
    quiet_steps.
Qed.

Lemma quiet_afterGetRelays o c :
  quiet flow c -> quiet flow (afterGetRelays o c).
Proof.
  intro Q. unfold afterGetRelays.
  destruct (Db.getRelays o (db c)); quiet_steps.
Qed.

Lemma quiet_afterAddRelay url o c :
  quiet flow c -> quiet flow (afterAddRelay url o c).
Proof.
  intro Q. unfold afterAddRelay, fetchRelays.
  pose proof (quiet_randomUUID Q) as Q1.
  destruct (randomUUID c) as [uuid c1]. simpl in Q1.
  destruct (Db.addRelay url uuid o (db c1)) as [[key|e] d]; quiet_steps.
Qed.

Lemma quiet_afterRemoveRelay key o c :
  quiet flow c -> quiet flow (afterRemoveRelay key o c).
Proof.
  intro Q. unfold afterRemoveRelay, fetchRelays.
  destruct (Db.removeRelay key o (db c)) as [[u|e] d]; quiet_steps.
Qed.

Lemma quiet_afterGetPermissions o c :
  quiet flow c -> quiet flow (afterGetPermissions o c).
Proof.
  intro Q. unfold afterGetPermissions.
  destruct (Db.getPermissions o (db c)); quiet_steps.
Qed.

Lemma quiet_processTask task ra c :
  quiet flow c -> quiet flow (processTask task ra c).
Proof.
  intro Q. unfold processTask.
  assert (N : flows c <> flow) by (destruct Q as (Hf & _); lia).
  assert (Q0 : quiet flow (snd (new_flow c))).
  { destruct Q as (Hf & Hp & Hw & Hq). repeat split; auto. simpl. lia. }
  simpl.
  assert (Q1 : quiet flow (log (Processing (flows c) ra) (snd (new_flow c))))
    by quiet_steps.
  destruct ra.
  - destruct (nullish task).
    + quiet_steps.
    + apply quiet_spawn; [|exact Q1]. simpl. apply Nat.eqb_neq. exact N.
  - apply quiet_executeTask. exact Q1.
Qed.

Lemma quiet_resume k o (s : state) :
  asks flow k = false -> quiet flow (Emitter.world s) ->
  quiet flow (Emitter.world (resume k o s)).
Proof.
  intros A Q. destruct k; simpl in A; unfold resume, lift, Emitter.with_world;
    cbn [Emitter.world].
  - apply quiet_afterGetPermission; auto. apply Nat.eqb_neq. exact A.
  - apply quiet_prompt; auto. apply Nat.eqb_neq. exact A.
  - apply quiet_afterUpdate; auto.
  - apply quiet_afterSetPermission; auto.
  - apply quiet_afterGetAll; auto.
  - apply quiet_afterUpdateSetting; auto.
  - apply quiet_afterGetRelays; auto.
  - apply quiet_afterAddRelay; auto.
  - apply quiet_afterRemoveRelay; auto.
  - apply quiet_afterGetPermissions; auto.
Qed.

Lemma quiet_next i (s : state) :
  quiet flow (Emitter.world s) -> quiet flow (Emitter.world (next i s)).
Proof.
  intro Q. unfold next, step. destruct i as [message|n o].
  - destruct message; simpl; auto;
      try (apply quiet_processTask; exact Q);
      try (apply quiet_spawn; [reflexivity|exact Q]).
    unfold emit.
    pose proof (proj1 (@emit_keeps_world _ _ _ _ same handler_effect
                         handler_body handler_result (quiet flow)
                         (fun x w => @quiet_onPromptResponse (fst x) (snd x) w)
                         (emit_fuel s))
                      (topic promptId) response s Q) as F.
    destruct (Emitter.emit same handler_effect handler_body handler_result
                           (emit_fuel s) (topic promptId) response s);
      simpl in F; auto.
  - destruct (nth_error (pending (Emitter.world s)) n) as [k|] eqn:E; auto.
    apply quiet_resume.
    + destruct Q as (_ & Hp & _).
      pose proof (forallb_nth_error _ _ _ Hp E) as A.
      apply negb_true_iff in A. exact A.
    + simpl. apply quiet_resumed. exact Q.
Qed.

Lemma quiet_run inputs : forall (s : state),
  quiet flow (Emitter.world s) -> quiet flow (Emitter.world (run inputs s)).
Proof.
  induction inputs as [|i r IH]; simpl; intros s Q; auto.
  apply IH. apply quiet_next. exact Q.
Qed.

End Quiet.

(* ================================================================== *)
(** * The approval flow: every call is at one place *)

Section Orderly.
Import Service.

Lemma asking_eq flow c c' :
  pending c' = pending c -> waiting c' = waiting c ->
  asking flow c' = asking flow c.
Proof. unfold asking. intros -> ->. reflexivity. Qed.

Lemma asking_spawn flow k c :
  asking flow (spawn k c) = asking flow c + (if asks flow k then 1 else 0).
Proof.
  unfold asking. simpl. rewrite filter_app, length_app. simpl.
  destruct (asks flow k); simpl; lia.
Qed.

Lemma prompted_log flow e c :
  prompted flow (log e c) = prompted flow c || is_prompt flow e.
Proof.
  unfold prompted. simpl. rewrite existsb_app. simpl.
  rewrite orb_false_r. reflexivity.
Qed.

Lemma unmoved_refl c : unmoved c c.
Proof. split; auto. Qed.

Lemma unmoved_log e c c1 :
  (forall flow, is_prompt flow e = false) ->
  unmoved c c1 -> unmoved c (log e c1).
Proof.
  intros He [F1 F2]. split; [exact F1|]. intro flow.
  destruct (F2 flow) as [A B]. split; [exact A|].
  rewrite prompted_log, He, orb_false_r. exact B.
Qed.

Lemma unmoved_spawn k c c1 :
  (forall flow, asks flow k = false) ->
  unmoved c c1 -> unmoved c (spawn k c1).
Proof.
  intros Hk [F1 F2]. split; [exact F1|]. intro flow.
  destruct (F2 flow) as [A B]. rewrite asking_spawn, Hk. split; [lia|exact B].
Qed.

Lemma unmoved_settle f v c c1 : unmoved c c1 -> unmoved c (settle f v c1).
Proof. intros [F1 F2]. split; [exact F1|exact F2]. Qed.

Lemma unmoved_with_db d c c1 : unmoved c c1 -> unmoved c (with_db d c1).
Proof. intros [F1 F2]. split; [exact F1|exact F2]. Qed.

Lemma unmoved_with_mutex m c c1 :
  unmoved c c1 -> unmoved c (with_mutex m c1).
Proof. intros [F1 F2]. split; [exact F1|exact F2]. Qed.

Lemma unmoved_randomUUID c c1 :
  unmoved c c1 -> unmoved c (snd (randomUUID c1)).
Proof. intros [F1 F2]. split; [exact F1|exact F2]. Qed.

Lemma unmoved_send message c c1 :
  unmoved c c1 -> unmoved c (sendToFrontend message c1).
Proof.
  intros [F1 F2]. unfold sendToFrontend.
  destruct (lastSentMessage c1) as [last|];
    [destruct (String.eqb last (messageStr message))|];
    (split; [exact F1|exact F2]).
Qed.

Ltac unmoved_step :=
  first [ apply unmoved_settle
        | apply unmoved_send
        | apply unmoved_with_db
        | apply unmoved_with_mutex
        | apply unmoved_randomUUID
        | apply unmoved_log; [intro; reflexivity|]
        | apply unmoved_spawn; [intro; reflexivity|] ].

Ltac unmoved_steps :=
  repeat unmoved_step; try assumption; try apply unmoved_refl.

Lemma unmoved_executeTask f task c c1 :
  unmoved c c1 -> unmoved c (executeTask f task c1).
Proof.
  intro U. unfold executeTask.
  destruct (nullish task); [unmoved_steps|].
  destruct (String.eqb (Js.str_prop "key" task) EmptyString);
    [|unmoved_steps].
  unmoved_step. apply (unmoved_randomUUID (c1 := log (Executing f) c1)).
  unmoved_steps.
Qed.

Lemma unmoved_db_update value key o c c1 :
  unmoved c c1 -> unmoved c (snd (db_update value key o c1)).
Proof.
  intro U. unfold db_update.
  destruct (Db.update value key (uuids c1 (drawn c1)) o (db c1)) as [r d].
  destruct o; [destruct (String.eqb key EmptyString)|];
    cbn [snd]; unmoved_steps.
Qed.

Lemma unmoved_afterUpdate f task key o c :
  unmoved c (afterUpdate f task key o c).
Proof.
  unfold afterUpdate.
  pose proof (unmoved_db_update task key o (unmoved_refl c)) as U.
  destruct (db_update task key o c) as [[r|e] c1]; simpl in U;
    unmoved_steps.
Qed.

Lemma unmoved_onPromptResponse w r c :
  unmoved c (onPromptResponse w r c).
Proof.
  unfold onPromptResponse.
  assert (U : unmoved c
    match remember r with
    | Some true =>
        spawn (SetPermission (w_flow w) (w_taskType w) (approved r))
          (log (PersistStarted (w_flow w) (w_taskType w) (approved r))
               (log (ResponseReceived (w_flow w) r) c))
    | _ => log (ResponseReceived (w_flow w) r) c
    end).
  { destruct (remember r) as [[|]|]; unmoved_steps. }
  destruct (approved r).
  - apply unmoved_executeTask. exact U.
  - unmoved_steps.
Qed.

Lemma unmoved_afterSetPermission f ty ok o c :
  unmoved c (afterSetPermission f ty ok o c).
Proof.
  unfold afterSetPermission.
  pose proof (unmoved_randomUUID (unmoved_refl c)) as U.
  destruct (randomUUID c) as [uuid c1]. simpl in U.
  destruct (Db.setPermission ty ok true uuid o (db c1)) as [[key|e] d];
    unmoved_steps.
Qed.

Lemma unmoved_afterGetAll o c : unmoved c (afterGetAll o c).
Proof.
  unfold afterGetAll. destruct (Db.getAll o (db c)); unmoved_steps.
Qed.

Lemma unmoved_afterUpdateSetting key value o c :
  unmoved c (afterUpdateSetting key value o c).
Proof.
  unfold afterUpdateSetting, fetchSettings.
  match goal with |- context [db_update ?v key o c] =>
    pose proof (unmoved_db_update v key o (unmoved_refl c)) as U;
    destruct (db_update v key o c) as [[r|e] c1] end; simpl in U;
    unmoved_steps.
Qed.

Lemma unmoved_afterGetRelays o c : unmoved c (afterGetRelays o c).
Proof.
  unfold afterGetRelays. destruct (Db.getRelays o (db c)); unmoved_steps.
Qed.

Lemma unmoved_afterAddRelay url o c : unmoved c (afterAddRelay url o c).
Proof.
  unfold afterAddRelay, fetchRelays.
  pose proof (unmoved_randomUUID (unmoved_refl c)) as U.
  destruct (randomUUID c) as [uuid c1]. simpl in U.
  destruct (Db.addRelay url uuid o (db c1)) as [[key|e] d]; unmoved_steps.
Qed.

Lemma unmoved_afterRemoveRelay key o c : unmoved c (afterRemoveRelay key o c).
Proof.
  unfold afterRemoveRelay, fetchRelays.
  destruct (Db.removeRelay key o (db c)) as [[u|e] d]; unmoved_steps.
Qed.

Lemma unmoved_afterGetPermissions o c :
  unmoved c (afterGetPermissions o c).
Proof.
  unfold afterGetPermissions.
  destruct (Db.getPermissions o (db c)); unmoved_steps.
Qed.

Lemma orderly_unmoved c c' : unmoved c c' -> orderly c -> orderly c'.
Proof.
  intros [F1 F2] O flow. destruct (O flow) as [O1 O2].
  destruct (F2 flow) as [A B]. rewrite A, B, F1. auto.
Qed.

Lemma count_remove_nth (A : Type) (p : A -> bool) (l : list A) :
  forall i x, nth_error l i = Some x ->
  List.length (filter p (remove_nth i l)) + (if p x then 1 else 0) =
  List.length (filter p l).
Proof.
  induction l as [|y r IH]; intros [|i] x; simpl; try discriminate.
  - intro Q. injection Q as <-. destruct (p y); simpl; lia.
  - intro Q. pose proof (IH i x Q) as E.
    destruct (p y); simpl; lia.
Qed.

Lemma count_none (A : Type) (p : A -> bool) (l : list A) :
  List.length (filter p l) = 0 -> forallb (fun x => negb (p x)) l = true.
Proof.
  induction l as [|y r IH]; simpl; auto.
  destruct (p y); simpl; [discriminate|exact IH].
Qed.

Lemma asking_resumed flow i k c :
  nth_error (pending c) i = Some k ->
  asking flow (with_pending (remove_nth i (pending c)) c) +
    (if asks flow k then 1 else 0) = asking flow c.
Proof.
  intro E. unfold asking. simpl.
  pose proof (count_remove_nth (asks flow) (pending c) i E). lia.
Qed.

Lemma take_waiting_count flow f w :
  List.length (filter (fun x => Nat.eqb (fst x) f)
                      (snd (take_waiting flow w))) +
    match fst (take_waiting flow w) with
    | Some _ => if Nat.eqb flow f then 1 else 0
    | None => 0
    end =
  List.length (filter (fun x => Nat.eqb (fst x) f) w).
Proof.
  induction w as [|[g x] r IH]; simpl; [reflexivity|].
  destruct (Nat.eqb g flow) eqn:E.
  - apply Nat.eqb_eq in E. subst g. simpl.
    destruct (Nat.eqb flow f); simpl; lia.
  - destruct (take_waiting flow r) as [y r']. simpl in *.
    destruct (Nat.eqb g f); simpl; lia.
Qed.

Lemma unmoved_wake g c c1 : unmoved c c1 -> unmoved c (wake g c1).
Proof.
  intros [F1 F2]. unfold wake. destruct g as [f|]; [|split; assumption].
  pose proof (fun flow => take_waiting_count f flow (waiting c1)) as T.
  destruct (take_waiting f (waiting c1)) as [[[task ty]|] w];
    [|split; assumption].
  split; [exact F1|]. intro flow. destruct (F2 flow) as [A B].
  split;
    [|rewrite <- B; unfold prompted; simpl; rewrite existsb_app; simpl;
      rewrite !orb_false_r; reflexivity].
  rewrite <- A. specialize (T flow). simpl in T.
  unfold asking. simpl. rewrite filter_app, length_app. simpl.
  destruct (Nat.eqb f flow); simpl in *; lia.
Qed.

Lemma unmoved_releaseLock f c c1 :
  unmoved c c1 -> unmoved c (releaseLock f c1).
Proof.
  intro U. unfold releaseLock. destruct (Mutex.release (mutex c1)) as [m g].
  apply unmoved_wake. unmoved_steps.
Qed.

(** [acquire] puts the call at one place more: with the scheduler when
    the lock is free, in the queue of the mutex when it is not. *)
Lemma acquireLock_asking f task ty c :
  flows (acquireLock f task ty c) = flows c /\
  forall flow,
    asking flow (acquireLock f task ty c) =
      asking flow c + (if Nat.eqb f flow then 1 else 0) /\
    prompted flow (acquireLock f task ty c) = prompted flow c.
Proof.
  unfold acquireLock. destruct (Mutex.acquire f (mutex c)) as [m [g|]].
  - split; [reflexivity|]. intro flow. split.
    + rewrite asking_spawn. reflexivity.
    + unfold prompted. simpl. rewrite existsb_app. simpl.
      rewrite !orb_false_r. reflexivity.
  - split; [reflexivity|]. intro flow. split; [|reflexivity].
    unfold asking. simpl. rewrite filter_app, length_app. simpl.
    destruct (Nat.eqb f flow); simpl; lia.
Qed.

Lemma afterGetPermission_asking f task ty o c :
  flows (afterGetPermission f task ty o c) = flows c /\
  forall flow,
    asking flow (afterGetPermission f task ty o c) <=
      asking flow c + (if Nat.eqb f flow then 1 else 0) /\
    prompted flow (afterGetPermission f task ty o c) = prompted flow c.
Proof.
  assert (U : forall c', unmoved c c' ->
            flows c' = flows c /\
            forall flow,
              asking flow c' <=
                asking flow c + (if Nat.eqb f flow then 1 else 0) /\
              prompted flow c' = prompted flow c).
  { intros c' [F1 F2]. split; [exact F1|]. intro flow.
    destruct (F2 flow) as [A B]. split; [lia|exact B]. }
  assert (L : flows (acquireLock f task ty c) = flows c /\
            forall flow,
              asking flow (acquireLock f task ty c) <=
                asking flow c + (if Nat.eqb f flow then 1 else 0) /\
              prompted flow (acquireLock f task ty c) = prompted flow c).
  { destruct (acquireLock_asking f task ty c) as [F1 F2].
    split; [exact F1|]. intro flow. destruct (F2 flow) as [A B].
    split; [lia|exact B]. }
  unfold afterGetPermission.
  destruct (Db.getPermission ty o (db c)) as [[permission|]|e]; auto.
  - destruct (Db.remember permission); auto.
    destruct (Db.approved permission); apply U.
    + apply unmoved_executeTask, unmoved_refl.
    + unmoved_steps.
  - apply U. unmoved_steps.
Qed.

(** The step that prompts. *)
Lemma prompt_asking f task ty (s : state) :
  flows (Emitter.world (prompt f task ty s)) = flows (Emitter.world s) /\
  forall flow,
    asking flow (Emitter.world (prompt f task ty s)) =
      asking flow (Emitter.world s) /\
    prompted flow (Emitter.world (prompt f task ty s)) =
      prompted flow (Emitter.world s) || Nat.eqb f flow.
Proof.
  rewrite world_prompt.
  set (c := Emitter.world s).
  set (c1 := log (PromptSent f (uuids c (drawn c))) (snd (randomUUID c))).
  assert (U : unmoved c1
                (releaseLock f
                   (sendToFrontend (PROMPT (uuids c (drawn c)) task) c1))).
  { apply unmoved_releaseLock. unmoved_steps. }
  destruct U as [F1 F2]. split; [rewrite F1; reflexivity|].
  intro flow. destruct (F2 flow) as [A B]. rewrite A, B. split.
  - reflexivity.
  - unfold c1. rewrite prompted_log. reflexivity.
Qed.

Lemma processTask_asking task ra c :
  flows (processTask task ra c) = S (flows c) /\
  forall flow,
    asking flow (processTask task ra c) <=
      asking flow c + (if Nat.eqb (flows c) flow then 1 else 0) /\
    prompted flow (processTask task ra c) = prompted flow c.
Proof.
  unfold processTask. simpl.
  set (c0 := snd (new_flow c)).
  assert (U : forall c', unmoved c0 c' ->
            flows c' = S (flows c) /\
            forall flow,
              asking flow c' <=
                asking flow c + (if Nat.eqb (flows c) flow then 1 else 0) /\
              prompted flow c' = prompted flow c).
  { intros c' [F1 F2]. split; [exact F1|]. intro flow.
    destruct (F2 flow) as [A B]. rewrite A, B. split; [|reflexivity].
    change (asking flow c0) with (asking flow c). lia. }
  destruct ra.
  - destruct (nullish task).
    + apply U. unmoved_steps.
    + split; [reflexivity|]. intro flow. split.
      * rewrite asking_spawn. cbn [asks]. apply Nat.le_refl.
      * unfold prompted. simpl. rewrite existsb_app. simpl.
        rewrite !orb_false_r. reflexivity.
  - apply U. apply unmoved_executeTask. unmoved_steps.
Qed.

Lemma orderly_boot uuids d : orderly (Emitter.world (boot uuids d)).
Proof. intro flow. simpl. split; [lia|auto]. Qed.

Lemma orderly_processTask task ra c :
  orderly c -> orderly (processTask task ra c).
Proof.
  intros O flow. destruct (O flow) as [O1 O2].
  destruct (processTask_asking task ra c) as [F1 F2].
  destruct (F2 flow) as [A B]. rewrite B, F1.
  destruct (Nat.eqb (flows c) flow) eqn:E.
  - apply Nat.eqb_eq in E.
    destruct O2 as [O3 O4]; [lia|]. rewrite O4 in *. split; lia.
  - apply Nat.eqb_neq in E. split; [lia|].
    intro L. destruct O2 as [O3 O4]; [lia|]. split; [lia|exact O4].
Qed.

Lemma orderly_resume i k o (s : state) :
  nth_error (pending (Emitter.world s)) i = Some k ->
  orderly (Emitter.world s) ->
  orderly (Emitter.world
    (resume k o
       (lift (fun c => with_pending (remove_nth i (pending c)) c) s))).
Proof.
  intros E O.
  set (c := Emitter.world s) in *.
  set (c0 := with_pending (remove_nth i (pending c)) c).
  assert (R : forall flow,
            asking flow c0 + (if asks flow k then 1 else 0) = asking flow c)
    by (intro flow; apply asking_resumed; exact E).
  assert (U : forall c', (forall flow, asks flow k = false) ->
            unmoved c0 c' -> orderly c').
  { intros c' N [F1 F2] flow. destruct (O flow) as [O1 O2].
    destruct (F2 flow) as [A B]. specialize (R flow).
    rewrite N, Nat.add_0_r in R. rewrite A, B, F1, R.
    change (prompted flow c0) with (prompted flow c).
    change (flows c0) with (flows c).
    split; assumption. }
  destruct k; unfold resume, lift, Emitter.with_world; cbn [Emitter.world];
    fold c; fold c0;
    try (apply U; [intro; reflexivity|]).
  - intro f. destruct (O f) as [O1 O2]. specialize (R f). cbn [asks] in R.
    destruct (afterGetPermission_asking flow task taskType o c0) as [F1 F2].
    destruct (F2 f) as [A B]. rewrite B, F1.
    change (prompted f c0) with (prompted f c).
    change (flows c0) with (flows c).
    destruct (Nat.eqb flow f); split; try lia;
      intro L; destruct (O2 L) as [O3 O4]; split; try lia; exact O4.
  - intro f. destruct (O f) as [O1 O2]. specialize (R f). cbn [asks] in R.
    destruct (prompt_asking flow task taskType
                (Emitter.mkState (Emitter.emitter s) c0 (Emitter.calls s)
                                 (Emitter.settled s) (Emitter.floating s)))
      as [F1 F2].
    cbn [Emitter.world] in F1, F2.
    destruct (F2 f) as [A B]. rewrite A, B, F1.
    change (prompted f c0) with (prompted f c).
    change (flows c0) with (flows c).
    destruct (Nat.eqb flow f).
    + destruct (prompted f c); simpl in *; [lia|].
      split; [lia|]. intro L. destruct (O2 L) as [O3 O4]. lia.
    + rewrite orb_false_r. split; [lia|].
      intro L. destruct (O2 L) as [O3 O4]. split; [lia|exact O4].
  - apply unmoved_afterUpdate.
  - apply unmoved_afterSetPermission.
  - apply unmoved_afterGetAll.
  - apply unmoved_afterUpdateSetting.
  - apply unmoved_afterGetRelays.
  - apply unmoved_afterAddRelay.
  - apply unmoved_afterRemoveRelay.
  - apply unmoved_afterGetPermissions.
Qed.

Lemma orderly_next i (s : state) :
  orderly (Emitter.world s) -> orderly (Emitter.world (next i s)).
Proof.
  intro O. unfold next, step. destruct i as [message|n o].
  - destruct message; simpl; auto;
      try (apply orderly_processTask; exact O);
      try (eapply orderly_unmoved; [|exact O];
           apply unmoved_spawn; [intro; reflexivity|apply unmoved_refl]).
    unfold emit.
    pose proof (proj1 (@emit_keeps_world _ _ _ _ same handler_effect
                         handler_body handler_result orderly
                         (fun x w =>
                            orderly_unmoved
                              (@unmoved_onPromptResponse (fst x) (snd x) w))
                         (emit_fuel s))
                      (topic promptId) response s O) as F.
    destruct (Emitter.emit same handler_effect handler_body handler_result
                           (emit_fuel s) (topic promptId) response s);
      simpl in F; auto.
  - destruct (nth_error (pending (Emitter.world s)) n) as [k|] eqn:E; auto.
    apply orderly_resume; assumption.
Qed.

(** Every state the service reaches is orderly. *)
Lemma orderly_run inputs : forall (s : state),
  orderly (Emitter.world s) -> orderly (Emitter.world (run inputs s)).
Proof.
  induction inputs as [|i r IH]; simpl; intros s O; auto.
  apply IH. apply orderly_next. exact O.
Qed.

(** A call taken from the scheduler on its way to its prompt is nowhere
    else, and has not prompted. *)
Lemma orderly_quiet flow i k c :
  orderly c -> nth_error (pending c) i = Some k -> asks flow k = true ->
  quiet flow (with_pending (remove_nth i (pending c)) c).
Proof.
  intros O E A. destruct (O flow) as [O1 O2].
  pose proof (asking_resumed flow i c E) as R. rewrite A in R.
  assert (Z : asking flow (with_pending (remove_nth i (pending c)) c) = 0)
    by lia.
  unfold asking in Z.
  repeat split.
  - destruct (Nat.lt_ge_cases flow (flows c)) as [L|L]; [exact L|].
    destruct (O2 L) as [O3 _]. lia.
  - apply count_none. lia.
  - apply (count_none (fun w => Nat.eqb (fst w) flow)). lia.
  - change (prompted flow c = false).
    destruct (prompted flow c); [lia|reflexivity].
Qed.


End Orderly.

(* ================================================================== *)
(** * The approval flow *)

Section Approval.
Import Service.

Lemma sent_keeps message c :
  db (sendToFrontend message c) = db c /\
  mutex (sendToFrontend message c) = mutex c /\
  pending (sendToFrontend message c) = pending c /\
  events (sendToFrontend message c) = events c.
Proof.
  unfold sendToFrontend.
  destruct (lastSentMessage c) as [last|];
    [destruct (String.eqb last (messageStr message))|]; auto.
Qed.

Lemma executeTask_keeps f task c :
  outbox (executeTask f task c) = outbox c /\
  db (executeTask f task c) = db c /\
  mutex (executeTask f task c) = mutex c /\
  exists rest, events (executeTask f task c) = events c ++ Executing f :: rest.
Proof.
  unfold executeTask. destruct (nullish task).
  - repeat split; auto. exists [ExecuteFailed f]. simpl.
    rewrite <- app_assoc. reflexivity.
  - destruct (String.eqb (Js.str_prop "key" task) EmptyString);
      repeat split; auto; exists []; reflexivity.
Qed.

(** ** The response *)




(** ** The lock and the prompt *)

Lemma wake_keeps g c :
  mutex (wake g c) = mutex c /\
  exists rest, events (wake g c) = events c ++ rest.
Proof.
  unfold wake. destruct g as [f|].
  - destruct (take_waiting f (waiting c)) as [[[t y]|] w0].
    + split; [reflexivity|]. exists [LockGranted f]. reflexivity.
    + split; [reflexivity|]. exists []. rewrite app_nil_r. reflexivity.
  - split; [reflexivity|]. exists []. rewrite app_nil_r. reflexivity.
Qed.

Lemma releaseLock_spec f c :
  mutex (releaseLock f c) = fst (Mutex.release (mutex c)) /\
  exists rest, events (releaseLock f c) = events c ++ LockReleased f :: rest.
Proof.
  unfold releaseLock. destruct (Mutex.release (mutex c)) as [m g].
  destruct (wake_keeps g (log (LockReleased f) (with_mutex m c)))
    as [W1 [rest W2]].
  rewrite W1, W2. split; [reflexivity|]. exists rest. simpl.
  rewrite <- app_assoc. reflexivity.
Qed.

(** C1 does not hold of the code. The step that broadcasts [PROMPT]
    registers the one-time handler and runs the [finally] block: the lock
    is released in that very step, for every state, before any response
    can arrive.  So of two tasks of unresolved types "a" and "b", whether
    the second finds the lock free or is handed it by the first, both
    prompts are out while no response at all has been received. *)
Theorem lock_released_with_prompt :
  (forall (s : state) flow task ty,
     mutex (Emitter.world (prompt flow task ty s)) =
       fst (Mutex.release (mutex (Emitter.world s))) /\
     exists rest,
       events (Emitter.world (prompt flow task ty s)) =
         events (Emitter.world s) ++
           PromptSent flow (uuids (Emitter.world s)
                                  (drawn (Emitter.world s))) ::
           LockReleased flow :: rest) /\
  let a := Js.Obj [("type", Js.Str "a")] in
  let b := Js.Obj [("type", Js.Str "b")] in
  let submitted := run [Receive (TASK a true); Receive (TASK b true)]
                       (boot numbered Db.empty) in
  let ok := Db.Succeeds in
  let one_by_one :=
    run [Resume 0 ok; Resume 1 ok; Resume 0 ok; Resume 0 ok] submitted in
  let contended :=
    run [Resume 0 ok; Resume 0 ok; Resume 0 ok; Resume 0 ok] submitted in
  outbox (Emitter.world one_by_one) = [PROMPT "uuid-0" a; PROMPT "uuid-1" b] /\
  outbox (Emitter.world contended) = [PROMPT "uuid-0" a; PROMPT "uuid-1" b] /\
  events (Emitter.world contended) =
    [Processing 0 true; Processing 1 true; LockGranted 0;
     PromptSent 0 "uuid-0"; LockReleased 0; LockGranted 1;
     PromptSent 1 "uuid-1"; LockReleased 1] /\
  events (Emitter.world one_by_one) = events (Emitter.world contended) /\
  existsb (is_response 0) (events (Emitter.world contended)) = false /\
  Emitter.has (topic "uuid-0") (Emitter.emitter contended) = true /\
  Emitter.has (topic "uuid-1") (Emitter.emitter contended) = true.
Proof.
  split.
  - intros s flow task ty. rewrite world_prompt.
    match goal with |- context [releaseLock flow ?c0] =>
      destruct (releaseLock_spec flow c0) as [L1 [rest L2]];
      rewrite L1, L2 end.
    pose proof (sent_keeps
      (PROMPT (uuids (Emitter.world s) (drawn (Emitter.world s))) task)
      (log (PromptSent flow (uuids (Emitter.world s)
                                   (drawn (Emitter.world s))))
           (snd (randomUUID (Emitter.world s))))) as (_ & Km & _ & Ke).
    rewrite Km, Ke. split; [reflexivity|]. exists rest. simpl.
    rewrite <- !app_assoc. reflexivity.
  - vm_compute. repeat split; reflexivity.
Qed.

End Approval.

(* ================================================================== *)
(** * The emitter with handlers that leave it alone *)

Section EmitterPassive.
Import Emitter.
Variables (H P W X : Type).
Variable same : H -> H -> bool.
Variable ext : X -> W -> W.
Variable body : H -> list (arg P) -> list (cmd H P X).
Variable result : H -> returns.

Local Abbreviation state := (state H P W).
Local Abbreviation emit := (emit same ext body result).
Local Abbreviation forEach := (forEach same ext body result).
Local Abbreviation invoke := (invoke same ext body result).
Local Abbreviation exec := (exec same ext body result).

Lemma nth_grown (A : Type) (l : list A) (d : A) a :
  nth a (l ++ [d]) d = nth a l d.
Proof.
  destruct (Nat.lt_ge_cases a (List.length l)) as [L|L].
  - apply app_nth1. exact L.
  - rewrite (nth_overflow l d L). rewrite app_nth2 by exact L.
    destruct (a - List.length l) as [|[|k]]; reflexivity.
Qed.

Lemma map_get_set n a m n' :
  map_get n' (map_set n a m) =
  if String.eqb n n' then Some a else map_get n' m.
Proof.
  induction m as [|[k b] r IH]; simpl.
  - reflexivity.
  - destruct (String.eqb k n) eqn:E; simpl.
    + apply String.eqb_eq in E. subst k.
      destruct (String.eqb n n'); reflexivity.
    + rewrite IH. destruct (String.eqb k n') eqn:F; auto.
      apply String.eqb_eq in F. subst k.
      rewrite String.eqb_sym, E. reflexivity.
Qed.

(** [getEventHandlers] changes no set and no registration. *)
Lemma getEventHandlers_spec n (e : t H) :
  let (a, e1) := getEventHandlers n e in
  map_get n (eventMap e1) = Some a /\
  set_at a e1 = registered n e /\
  closures e1 = closures e /\
  (forall a', set_at a' e1 = set_at a' e) /\
  (forall n', registered n' e1 = registered n' e) /\
  (forall n', n' <> n -> map_get n' (eventMap e1) = map_get n' (eventMap e)) /\
  (map_get n (eventMap e) <> None -> e1 = e).
Proof.
  unfold getEventHandlers, registered.
  destruct (map_get n (eventMap e)) as [a|] eqn:G.
  - rewrite G. repeat split; auto.
  - assert (S : forall a',
      set_at a' (mk (heap e ++ [[]])
                    (map_set n (List.length (heap e)) (eventMap e))
                    (closures e)) = set_at a' e).
    { intro a'. unfold set_at. simpl. apply nth_grown. }
    simpl. rewrite map_get_set, String.eqb_refl.
    split; [reflexivity|]. split.
    { rewrite S. unfold set_at. apply nth_overflow. lia. }
    split; [reflexivity|]. split; [exact S|]. split; [|split].
    + intro n'. rewrite map_get_set.
      destruct (String.eqb n n') eqn:E.
      * apply String.eqb_eq in E. subst n'. rewrite G, S.
        unfold set_at. apply nth_overflow. lia.
      * destruct (map_get n' (eventMap e)); auto.
    + intros n' N. rewrite map_get_set.
      destruct (String.eqb n n') eqn:E; auto.
      apply String.eqb_eq in E. congruence.
    + intro A. congruence.
Qed.

Lemma touch_spec n (s : state) :
  world (touch n s) = world s /\
  calls (touch n s) = calls s /\
  settled (touch n s) = settled s /\
  floating (touch n s) = floating s /\
  emitter (touch n s) = snd (getEventHandlers n (emitter s)) /\
  handlers_of n s = (fst (getEventHandlers n (emitter s)), touch n s).
Proof.
  unfold touch, handlers_of.
  destruct (getEventHandlers n (emitter s)); simpl. repeat split.
Qed.

Lemma exec_effects (cs : list (cmd H P X)) : forall fuel (s : state),
  (forall c, In c cs -> exists x, c = Effect x) ->
  List.length cs < fuel ->
  exec fuel cs s = Done (with_world (run_effects ext cs) s).
Proof.
  induction cs as [|c rest IH]; intros [|f] s Hc Hf; simpl in Hf; try lia.
  - rewrite exec_S. destruct s; reflexivity.
  - rewrite exec_S. destruct (Hc c (or_introl eq_refl)) as [x ->].
    rewrite IH; [reflexivity| |lia].
    intros c' Hin. apply Hc. right. exact Hin.
Qed.

(** Calling an entry of a set, [3 +] the length of its body being at
    hand. *)
Lemma invoke_user (u : H) wr xs fuel (s : state) :
  passive body ->
  S (List.length (body u xs)) < fuel ->
  invoke fuel (User u) wr xs s =
  Done (promise_of result u,
        with_world (run_effects ext (body u xs))
                   (record_call (mkCall wr u xs) s)).
Proof.
  intros Hp Hf. destruct fuel as [|f]; [lia|].
  rewrite invoke_user_S, exec_effects; [reflexivity| |lia].
  intros c Hin. eapply Hp. exact Hin.
Qed.

Lemma nth_error_here (A : Type) (l1 l2 : list A) (x : A) :
  nth_error (l1 ++ x :: l2) (List.length l1) = Some x.
Proof.
  rewrite nth_error_app2 by lia. rewrite Nat.sub_diag. reflexivity.
Qed.

Lemma nth_error_end (A : Type) (l : list A) :
  nth_error l (List.length l) = None.
Proof. apply nth_error_None. lia. Qed.

(** [forEach] over entries that are all deleted. *)
Lemma forEach_idle a xs ps (rest : set H) : forall front fuel (s : state),
  set_at a (emitter s) = front ++ rest ->
  live rest = [] ->
  List.length rest < fuel ->
  forEach fuel a (List.length front) xs ps s = Done (ps, s).
Proof.
  induction rest as [|entry rest IH]; intros front [|f] s Hs Hl Hf;
    simpl in Hf; try lia; rewrite forEach_S, Hs.
  - rewrite app_nil_r, nth_error_end. reflexivity.
  - rewrite nth_error_here.
    destruct entry as [h|]; [discriminate|]. simpl in Hl.
    replace (S (List.length front)) with (List.length (front ++ [None]))
      by (rewrite length_app; simpl; lia).
    apply IH; try lia; auto.
    rewrite Hs, <- app_assoc. reflexivity.
Qed.

Lemma allSettled_nil (s : state) : allSettled [] s = s.
Proof. destruct s. unfold allSettled. simpl. rewrite app_nil_r. auto. Qed.

(** [emit] when nothing is registered under the name nor under "*". *)
Lemma emit_idle n p fuel (s : state) :
  live (registered n (emitter s)) = [] ->
  live (registered "*" (emitter s)) = [] ->
  List.length (registered n (emitter s)) + 1 < fuel ->
  List.length (registered "*" (emitter s)) + 1 < fuel ->
  emit fuel n p s = Done (touch "*" (touch n s)).
Proof.
  intros L1 L2 F1 F2. destruct fuel as [|f]; [lia|]. rewrite emit_S.
  destruct (touch_spec n s) as (_ & _ & _ & _ & T1 & T1').
  pose proof (getEventHandlers_spec n (emitter s)) as G1.
  destruct (getEventHandlers n (emitter s)) as [a e1]. simpl in T1, T1'.
  destruct G1 as (_ & G1 & _ & _ & G1' & _).
  rewrite T1'.
  pose proof (@forEach_idle a [Payload p] [] (set_at a e1) [] f (touch n s))
    as E1.
  simpl in E1. rewrite E1; rewrite ?T1, ?G1; auto; try lia.
  destruct (touch_spec "*" (touch n s)) as (_ & _ & _ & _ & T2 & T2').
  pose proof (getEventHandlers_spec "*" (emitter (touch n s))) as G2.
  destruct (getEventHandlers "*" (emitter (touch n s))) as [b e2].
  simpl in T2, T2'. destruct G2 as (_ & G2 & _).
  rewrite T2'. rewrite T1, G1' in G2.
  pose proof (@forEach_idle b [EventName n; Payload p] [] (set_at b e2) [] f
                (touch "*" (touch n s))) as E2.
  simpl in E2. rewrite E2; rewrite ?T2, ?G2; auto; try lia.
  rewrite allSettled_nil. reflexivity.
Qed.

Lemma has_registered n (e : t H) :
  has n e = Nat.ltb 0 (List.length (live (registered n e))).
Proof.
  unfold has, registered. destruct (map_get n (eventMap e)); reflexivity.
Qed.

Lemma live_app (l1 l2 : set H) : live (l1 ++ l2) = live l1 ++ live l2.
Proof. unfold live. apply flat_map_app. Qed.

Lemma existsb_once_sym reg n u (l : list (handler H)) :
  existsb (fun h' => handler_eqb same h' (OneTime reg n u)) l =
  existsb (handler_eqb same (OneTime reg n u)) l.
Proof.
  induction l as [|[v|r m v] l IH]; simpl; auto.
  rewrite IH, Nat.eqb_sym. reflexivity.
Qed.

Lemma set_delete_absent (h : handler H) (l : set H) :
  existsb (handler_eqb same h) (live l) = false -> set_delete same h l = l.
Proof.
  induction l as [|[h'|] r IH]; simpl; auto.
  - intro E. apply orb_false_elim in E. destruct E as [E1 E2].
    rewrite E1, IH; auto.
  - intro E. rewrite IH; auto.
Qed.

Lemma set_delete_app (h : handler H) (l1 l2 : set H) :
  set_delete same h (l1 ++ l2) = set_delete same h l1 ++ set_delete same h l2.
Proof. unfold set_delete. apply map_app. Qed.

Lemma set_delete_once reg n u (l : set H) :
  set_delete same (OneTime reg n u) (Some (OneTime reg n u) :: l) =
  None :: set_delete same (OneTime reg n u) l.
Proof. simpl. rewrite Nat.eqb_refl. reflexivity. Qed.

Lemma set_delete_length (h : handler H) (l : set H) :
  List.length (set_delete same h l) = List.length l.
Proof. unfold set_delete. apply length_map. Qed.

Lemma replace_at a (f : set H -> set H) : forall (heap : list (set H)) a',
  nth a' (replace a f heap) [] =
  if Nat.eqb a' a then
    if Nat.ltb a (List.length heap) then f (nth a heap []) else []
  else nth a' heap [].
Proof.
  induction a as [|a IH]; intros [|x heap] [|a']; simpl; auto.
  all: try (destruct (Nat.eqb a' a); auto; destruct a'; reflexivity).
  all: try (destruct a'; reflexivity).
Qed.

Lemma update_set_spec a (f : set H -> set H) (e : t H) :
  set_at a e <> [] ->
  set_at a (update_set a f e) = f (set_at a e) /\
  (forall a', a' <> a -> set_at a' (update_set a f e) = set_at a' e) /\
  eventMap (update_set a f e) = eventMap e.
Proof.
  intro N. unfold set_at, update_set in *. simpl. repeat split.
  - rewrite replace_at, Nat.eqb_refl.
    destruct (Nat.ltb a (List.length (heap e))) eqn:L; auto.
    apply Nat.ltb_ge in L. exfalso. apply N. apply nth_overflow. exact L.
  - intros a' Na. rewrite replace_at.
    apply Nat.eqb_neq in Na. rewrite Na. reflexivity.
Qed.

Lemma remove_handler_spec n a (h : handler H) (e : t H) :
  map_get n (eventMap e) = Some a ->
  remove_handler same n h e = update_set a (set_delete same h) e.
Proof.
  intro G. unfold remove_handler, getEventHandlers. rewrite G. reflexivity.
Qed.

Lemma run_effects_app (cs1 cs2 : list (cmd H P X)) w :
  run_effects ext (cs1 ++ cs2) w = run_effects ext cs2 (run_effects ext cs1 w).
Proof. unfold run_effects. apply fold_left_app. Qed.

Lemma exec_aloof (cs : list (cmd H P X)) : forall fuel (s : state),
  (forall c, In c cs -> c = Throw \/ exists x, c = Effect x) ->
  List.length cs < fuel ->
  exec fuel cs s =
  ends (existsb (@is_throw H P X) cs)
       (with_world (run_effects ext (before_throw cs)) s).
Proof.
  induction cs as [|c rest IH]; intros [|f] s Hc Hf; simpl in Hf; try lia.
  - rewrite exec_S. destruct s; reflexivity.
  - rewrite exec_S. destruct (Hc c (or_introl eq_refl)) as [->|[x ->]].
    + destruct s; reflexivity.
    + rewrite IH; [reflexivity| |lia].
      intros c' Hin. apply Hc. right. exact Hin.
Qed.

(** Calling a user's handler that leaves the emitter alone. *)
Lemma invoke_aloof (u : H) wr xs fuel (s : state) :
  aloof body ->
  S (List.length (body u xs)) < fuel ->
  invoke fuel (User u) wr xs s =
  let s1 := with_world (run_effects ext (before_throw (body u xs)))
                       (record_call (mkCall wr u xs) s) in
  if throws body xs (User u)
  then Raised ([], s1) else Done (promise_of result u, s1).
Proof.
  intros Ha Hf. destruct fuel as [|f]; [lia|].
  rewrite invoke_user_S, exec_aloof; [| |lia].
  - change (throws body xs (User u))
      with (existsb (@is_throw H P X) (body u xs)).
    destruct (existsb (@is_throw H P X) (body u xs)); reflexivity.
  - intros c Hin. eapply Ha. exact Hin.
Qed.

(** [forEach] over the entries [rest] of the set of [n], the entries
    before them having been visited. *)
Lemma forEach_aloof n a xs :
  aloof body ->
  forall (rest front : set H) ps (s : state) fuel,
  map_get n (eventMap (emitter s)) = Some a ->
  set_at a (emitter s) = front ++ rest ->
  distinctb same (live rest) = true ->
  forallb (at_home n) (live rest) = true ->
  cost body xs rest < fuel ->
  exists ps' s',
    forEach fuel a (List.length front) xs ps s =
      ends (existsb (throws body xs) (live rest)) (ps', s') /\
    calls s' = calls s ++ map (call_of xs) (called body xs (live rest)) /\
    world s' =
      run_effects ext
        (flat_map (fun h => before_throw (commands_of body xs h))
                  (called body xs (live rest)))
        (world s) /\
    eventMap (emitter s') = eventMap (emitter s) /\
    (forall a', a' <> a -> set_at a' (emitter s') = set_at a' (emitter s)).
Proof.
  intros Ha rest.
  induction rest as [|entry rest IH]; intros front ps s fuel Hg Hs Hd Hh Hf.
  - exists ps, s. rewrite app_nil_r in Hs.
    destruct fuel as [|f]; [simpl in Hf; lia|].
    rewrite forEach_S, Hs, nth_error_end. simpl. rewrite app_nil_r. auto.
  - destruct fuel as [|f]; [simpl in Hf; lia|].
    rewrite forEach_S, Hs, nth_error_here.
    destruct entry as [h|].
    + assert (F : 3 + List.length (commands_of body xs h) < f /\
                  cost body xs rest < f) by (cbn [cost] in Hf; lia).
      destruct F as [F1 F2]. clear Hf.
      change (live (Some h :: rest)) with (h :: live rest) in *.
      cbn [distinctb forallb] in Hd, Hh.
      apply andb_prop in Hd. destruct Hd as [Hd1 Hd2].
      apply negb_true_iff in Hd1.
      apply andb_prop in Hh. destruct Hh as [Hh1 Hh2].
      cbn [existsb called flat_map map].
      destruct h as [u|reg n' u]; cbn [commands_of] in F1.
      * rewrite invoke_aloof; [|exact Ha|lia]. cbv zeta.
        destruct (throws body xs (User u)) eqn:T.
        { eexists ps, _. split; [reflexivity|]. simpl.
          rewrite app_nil_r. auto. }
        match goal with |- context [forEach f a _ xs ?ps1 ?s1] =>
          destruct (IH (front ++ [Some (User u)]) ps1 s1 f)
            as (ps' & s' & E & Ec & Ew & Em & Es) end;
          try assumption.
        { simpl. rewrite Hs, <- app_assoc. reflexivity. }
        exists ps', s'. rewrite length_app in E.
        cbn [List.length] in E. rewrite Nat.add_1_r in E.
        rewrite E. split; [reflexivity|].
        simpl in Ec, Ew, Em, Es. simpl. rewrite Ec, Ew, Em.
        rewrite <- app_assoc, run_effects_app. repeat split; auto.
      * simpl in Hh1. apply String.eqb_eq in Hh1. subst n'.
        destruct f as [|f']; [lia|].
        rewrite invoke_once_S.
        rewrite invoke_aloof; [|exact Ha|lia]. cbv zeta.
        change (throws body (firstn 1 xs) (User u))
          with (throws body xs (OneTime reg n u)).
        assert (Ne : set_at a (emitter s) <> [])
          by (rewrite Hs; destruct front; discriminate).
        destruct (@update_set_spec a (set_delete same (OneTime reg n u))
                                   (emitter s) Ne) as (U1 & U2 & U3).
        destruct (throws body xs (OneTime reg n u)) eqn:T.
        { eexists ps, _. split; [reflexivity|]. simpl.
          rewrite (@remove_handler_spec n a _ _ Hg), U3, app_nil_r.
          repeat split; auto. }
        match goal with |- context [forEach (S f') a _ xs ?ps1 ?s1] =>
          destruct (IH (set_delete same (OneTime reg n u) front ++ [None])
                       ps1 s1 (S f'))
            as (ps' & s' & E & Ec & Ew & Em & Es) end;
          try assumption.
        { simpl. rewrite (@remove_handler_spec n a _ _ Hg), U3. exact Hg. }
        { simpl. rewrite (@remove_handler_spec n a _ _ Hg), U1, Hs.
          rewrite set_delete_app, set_delete_once.
          rewrite existsb_once_sym in Hd1.
          rewrite (set_delete_absent _ _ Hd1), <- app_assoc. reflexivity. }
        exists ps', s'. rewrite length_app, set_delete_length in E.
        cbn [List.length] in E. rewrite Nat.add_1_r in E.
        rewrite E. split; [reflexivity|].
        simpl in Ec, Ew, Em, Es. simpl.
        rewrite (@remove_handler_spec n a _ _ Hg) in Em, Es.
        rewrite Ec, Ew, Em, U3.
        rewrite <- app_assoc, run_effects_app. repeat split; auto.
        intros a' Na. rewrite Es, U2; auto.
    + cbn [cost] in Hf.
      change (live (None :: rest)) with (live rest) in *.
      destruct (IH (front ++ [None]) ps s f)
        as (ps' & s' & E & R); try assumption; try lia.
      { rewrite Hs, <- app_assoc. reflexivity. }
      exists ps', s'. rewrite length_app in E.
      cbn [List.length] in E. rewrite Nat.add_1_r in E.
      rewrite E. split; [reflexivity|exact R].
Qed.

(** When no handler throws, all are called. *)
Lemma called_all xs (hs : list (handler H)) :
  existsb (throws body xs) hs = false -> called body xs hs = hs.
Proof.
  induction hs as [|h r IH]; simpl; auto.
  intro E. apply orb_false_elim in E. destruct E as [E1 E2].
  rewrite E1, IH; auto.
Qed.

Lemma map_get_in n a (m : list (string * nat)) :
  map_get n m = Some a -> In (n, a) m.
Proof.
  induction m as [|[k b] r IH]; simpl; [discriminate|].
  destruct (String.eqb k n) eqn:E; auto.
  apply String.eqb_eq in E. subst k. intro Q. injection Q as ->. auto.
Qed.

Lemma apartb_inj (m : list (string * nat)) x y a :
  apartb (map snd m) = true -> In (x, a) m -> In (y, a) m -> x = y.
Proof.
  induction m as [|[k b] r IH]; simpl; [intros _ []|].
  intro A. apply andb_prop in A. destruct A as [A1 A2].
  apply negb_true_iff in A1.
  assert (N : forall z, In (z, b) r -> False).
  { intros z Hz.
    assert (E : existsb (Nat.eqb b) (map snd r) = true).
    { apply existsb_exists. exists b. split; [|apply Nat.eqb_refl].
      apply in_map_iff. exists (z, b). auto. }
    congruence. }
  intros [Q1|Q1] [Q2|Q2].
  - congruence.
  - injection Q1 as -> ->. destruct (N _ Q2).
  - injection Q2 as -> ->. destruct (N _ Q1).
  - eauto.
Qed.

Lemma well_formed_lookup (e : t H) n a :
  well_formed same e = true -> map_get n (eventMap e) = Some a ->
  distinctb same (live (set_at a e)) = true /\
  forallb (at_home n) (live (set_at a e)) = true /\
  a < List.length (heap e).
Proof.
  intros Wf G. unfold well_formed in Wf.
  apply andb_prop in Wf. destruct Wf as [Wf _].
  apply map_get_in in G.
  pose proof (proj1 (forallb_forall _ _) Wf _ G) as K. simpl in K.
  apply andb_prop in K. destruct K as [K K3].
  apply andb_prop in K. destruct K as [K1 K2].
  apply Nat.ltb_lt in K3. auto.
Qed.

Lemma well_formed_registered (e : t H) n :
  well_formed same e = true ->
  distinctb same (live (registered n e)) = true /\
  forallb (at_home n) (live (registered n e)) = true.
Proof.
  intro Wf. unfold registered.
  destruct (map_get n (eventMap e)) as [a|] eqn:G; [|auto].
  destruct (@well_formed_lookup e n a Wf G) as (K1 & K2 & _). auto.
Qed.

Lemma touch_apart (e : t H) n n' b :
  well_formed same e = true -> n <> n' ->
  map_get n' (eventMap e) = Some b -> fst (getEventHandlers n e) <> b.
Proof.
  intros Wf N G. unfold getEventHandlers.
  destruct (map_get n (eventMap e)) as [a|] eqn:Gn; simpl.
  - intro Q. subst b. apply N.
    unfold well_formed in Wf. apply andb_prop in Wf. destruct Wf as [_ A].
    eapply apartb_inj; eauto using map_get_in.
  - destruct (@well_formed_lookup e n' b Wf G) as (_ & _ & L). lia.
Qed.

End EmitterPassive.

(* ================================================================== *)
(** * The methods of the emitter keep it well formed *)

Section WellFormed.
Import Emitter.
Variables (H P W X : Type).
Variable same : H -> H -> bool.
Variable ext : X -> W -> W.
Variable body : H -> list (arg P) -> list (cmd H P X).
Variable result : H -> returns.

Lemma well_formed_iff (e : t H) :
  well_formed same e = true <->
  apartb (map snd (eventMap e)) = true /\
  forall n a, In (n, a) (eventMap e) ->
    distinctb same (live (set_at a e)) = true /\
    forallb (at_home n) (live (set_at a e)) = true /\
    a < List.length (heap e).
Proof.
  unfold well_formed. rewrite andb_true_iff, forallb_forall. split.
  - intros [B A]. split; [exact A|]. intros n a Hin.
    specialize (B (n, a) Hin). simpl in B.
    rewrite !andb_true_iff, Nat.ltb_lt in B. tauto.
  - intros [A B]. split; [|exact A]. intros [n a] Hin.
    specialize (B n a Hin). simpl.
    rewrite !andb_true_iff, Nat.ltb_lt. tauto.
Qed.

Lemma map_set_fresh n a (m : list (string * nat)) :
  map_get n m = None -> map_set n a m = m ++ [(n, a)].
Proof.
  induction m as [|[k b] r IH]; simpl; [reflexivity|].
  destruct (String.eqb k n); [discriminate|].
  intro G. rewrite IH; auto.
Qed.

Lemma apartb_snoc (l : list nat) a :
  apartb l = true -> (forall x, In x l -> x <> a) ->
  apartb (l ++ [a]) = true.
Proof.
  induction l as [|x l IH]; simpl; [reflexivity|].
  intros A N. apply andb_prop in A. destruct A as [A1 A2].
  rewrite existsb_app. simpl. apply negb_true_iff in A1. rewrite A1.
  assert (E : Nat.eqb x a = false) by (apply Nat.eqb_neq, N; auto).
  rewrite E. simpl. apply IH; auto.
Qed.

Lemma existsb_filter_false (A : Type) (q p : A -> bool) (l : list A) :
  existsb q l = false -> existsb q (filter p l) = false.
Proof.
  induction l as [|x l IH]; simpl; auto.
  intro E. apply orb_false_elim in E. destruct E as [E1 E2].
  destruct (p x); simpl; [rewrite E1|]; auto.
Qed.

Lemma apartb_filter (p : string * nat -> bool) (m : list (string * nat)) :
  apartb (map snd m) = true -> apartb (map snd (filter p m)) = true.
Proof.
  induction m as [|[k b] m IH]; simpl; auto.
  intro A. apply andb_prop in A. destruct A as [A1 A2].
  destruct (p (k, b)); simpl; auto.
  rewrite IH by exact A2. rewrite andb_true_r.
  apply negb_true_iff in A1. apply negb_true_iff.
  destruct (existsb (Nat.eqb b) (map snd (filter p m))) eqn:E; auto.
  apply existsb_exists in E. destruct E as (x & Hin & Hx).
  apply in_map_iff in Hin. destruct Hin as ([k' b'] & Q & Hin).
  simpl in Q. subst b'. apply filter_In in Hin. destruct Hin as [Hin _].
  assert (T : existsb (Nat.eqb b) (map snd m) = true).
  { apply existsb_exists. exists x. split; [|exact Hx].
    apply in_map_iff. exists (k', x). auto. }
  congruence.
Qed.

Lemma distinctb_snoc (l : list (handler H)) h :
  distinctb same l = true -> existsb (handler_eqb same h) l = false ->
  distinctb same (l ++ [h]) = true.
Proof.
  induction l as [|x l IH]; simpl; [reflexivity|].
  intros D E. apply andb_prop in D. destruct D as [D1 D2].
  apply orb_false_elim in E. destruct E as [E1 E2].
  rewrite existsb_app. simpl. apply negb_true_iff in D1.
  rewrite D1, E1. simpl. apply IH; auto.
Qed.

Lemma distinctb_filter (p : handler H -> bool) (l : list (handler H)) :
  distinctb same l = true -> distinctb same (filter p l) = true.
Proof.
  induction l as [|x l IH]; simpl; auto.
  intro D. apply andb_prop in D. destruct D as [D1 D2].
  destruct (p x); simpl; auto.
  apply negb_true_iff in D1.
  rewrite existsb_filter_false by exact D1. simpl. auto.
Qed.

Lemma forallb_filter (A : Type) (q p : A -> bool) (l : list A) :
  forallb q l = true -> forallb q (filter p l) = true.
Proof.
  induction l as [|x l IH]; simpl; auto.
  intro F. apply andb_prop in F. destruct F as [F1 F2].
  destruct (p x); simpl; [rewrite F1|]; auto.
Qed.

Lemma live_set_add (h : handler H) (s : set H) :
  live (set_add same h s) =
  if set_has same h s then live s else live s ++ [h].
Proof.
  unfold set_add. destruct (set_has same h s); [reflexivity|].
  rewrite live_app. reflexivity.
Qed.

Lemma live_set_delete (h : handler H) (s : set H) :
  live (set_delete same h s) =
  filter (fun h' => negb (handler_eqb same h h')) (live s).
Proof.
  induction s as [|[h'|] s IH]; simpl; auto.
  destruct (handler_eqb same h h'); simpl; rewrite IH; reflexivity.
Qed.

Lemma replace_length a (f : set H -> set H) : forall heap,
  List.length (replace a f heap) = List.length heap.
Proof.
  induction a as [|a IH]; intros [|x heap]; simpl; auto.
Qed.

Lemma well_formed_create : well_formed same (@create H) = true.
Proof. reflexivity. Qed.

Lemma well_formed_get n (e : t H) :
  well_formed same e = true ->
  well_formed same (snd (getEventHandlers n e)) = true.
Proof.
  intro Wf. pose proof (getEventHandlers_spec n e) as S.
  unfold getEventHandlers in *.
  destruct (map_get n (eventMap e)) eqn:G; [exact Wf|].
  destruct S as (_ & _ & _ & S & _). cbn [snd].
  apply well_formed_iff in Wf. destruct Wf as [A B].
  apply well_formed_iff. cbn [eventMap heap]. split.
  - rewrite (@map_set_fresh n _ _ G), map_app. simpl.
    apply apartb_snoc; [exact A|].
    intros x Hin. apply in_map_iff in Hin. destruct Hin as ([k b] & Q & Hin).
    simpl in Q. subst b. destruct (B k x Hin) as (_ & _ & L). lia.
  - intros n' a Hin. rewrite S, length_app.
    rewrite (@map_set_fresh n _ _ G) in Hin.
    apply in_app_or in Hin. destruct Hin as [Hin|[Q|[]]].
    + destruct (B n' a Hin) as (B1 & B2 & B3). repeat split; auto. lia.
    + injection Q as <- <-.
      assert (E : set_at (List.length (heap e)) e = [])
        by (apply nth_overflow; lia).
      rewrite E. repeat split; auto. simpl. lia.
Qed.

(** A change to the set of an event name that keeps it in order. *)
Lemma well_formed_update n a (f : set H -> set H) (e : t H) :
  well_formed same e = true -> map_get n (eventMap e) = Some a ->
  (distinctb same (live (set_at a e)) = true ->
   forallb (at_home n) (live (set_at a e)) = true ->
   distinctb same (live (f (set_at a e))) = true /\
   forallb (at_home n) (live (f (set_at a e))) = true) ->
  well_formed same (update_set a f e) = true.
Proof.
  intros Wf G Hf. apply well_formed_iff in Wf. destruct Wf as [A B].
  apply well_formed_iff. simpl. split; [exact A|].
  intros n' a' Hin. unfold set_at. simpl.
  rewrite replace_at, replace_length.
  destruct (B n' a' Hin) as (B1 & B2 & B3).
  destruct (Nat.eqb a' a) eqn:E.
  - apply Nat.eqb_eq in E. subst a'.
    assert (n' = n) by (eapply apartb_inj; eauto using map_get_in).
    subst n'. apply Nat.ltb_lt in B3. rewrite B3. apply Nat.ltb_lt in B3.
    destruct (Hf B1 B2) as [F1 F2]. unfold set_at in *. auto.
  - unfold set_at in *. auto.
Qed.

Lemma well_formed_add n (h : handler H) (e : t H) :
  at_home n h = true -> well_formed same e = true ->
  well_formed same (add_handler same n h e) = true.
Proof.
  intros Hh Wf. unfold add_handler.
  pose proof (@well_formed_get n e Wf) as Wf1.
  pose proof (getEventHandlers_spec n e) as G.
  destruct (getEventHandlers n e) as [a e1]. simpl in Wf1.
  destruct G as (G1 & _).
  apply well_formed_update with n; auto.
  intros D F. rewrite live_set_add. unfold set_has.
  destruct (existsb (handler_eqb same h) (live (set_at a e1))) eqn:E; auto.
  split.
  - apply distinctb_snoc; auto.
  - rewrite forallb_app, F. simpl. rewrite Hh. reflexivity.
Qed.

Lemma well_formed_remove n (h : handler H) (e : t H) :
  well_formed same e = true ->
  well_formed same (remove_handler same n h e) = true.
Proof.
  intro Wf. unfold remove_handler.
  pose proof (@well_formed_get n e Wf) as Wf1.
  pose proof (getEventHandlers_spec n e) as G.
  destruct (getEventHandlers n e) as [a e1]. simpl in Wf1.
  destruct G as (G1 & _).
  apply well_formed_update with n; auto.
  intros D F. rewrite live_set_delete. split.
  - apply distinctb_filter. exact D.
  - apply forallb_filter. exact F.
Qed.

Lemma well_formed_once n (h : H) (e : t H) :
  well_formed same e = true -> well_formed same (once same n h e) = true.
Proof.
  intro Wf. unfold once. apply well_formed_add.
  - simpl. apply String.eqb_refl.
  - exact Wf.
Qed.

Lemma well_formed_clear n (e : t H) :
  well_formed same e = true -> well_formed same (clear n e) = true.
Proof.
  intro Wf. apply well_formed_iff in Wf. destruct Wf as [A B].
  apply well_formed_iff. simpl. unfold map_delete. split.
  - apply apartb_filter. exact A.
  - intros n' a Hin. apply filter_In in Hin. destruct Hin as [Hin _].
    exact (B n' a Hin).
Qed.

Lemma well_formed_command (c : cmd H P X) (e : t H) :
  well_formed same e = true ->
  well_formed same (on_emitter same c e) = true.
Proof.
  intro Wf. destruct c; simpl; auto.
  - apply well_formed_add; auto.
  - apply well_formed_once; auto.
  - apply well_formed_remove; auto.
  - apply well_formed_clear; auto.
Qed.

(** Whatever its handlers do, [emit] leaves a well-formed emitter well
    formed. *)
Lemma well_formed_emit fuel n p (s : state H P W) :
  well_formed same (emitter s) = true ->
  finally (emit same ext body result fuel n p s)
          (fun s' => well_formed same (emitter s') = true).
Proof.
  apply (proj1 (@emit_keeps_emitter _ _ _ _ same ext body result
                  (fun e => well_formed same e = true)
                  (fun n e => @well_formed_get n e)
                  (fun n h e => @well_formed_remove n h e)
                  (fun _ _ c e _ => @well_formed_command c e)
                  fuel)).
Qed.

(** An emitter used through its methods only is well formed. *)
Lemma built_well_formed (s : state H P W) :
  built same ext body result s -> well_formed same (emitter s) = true.
Proof.
  induction 1 as [w cs ps fs|f s B IH|n h s B IH|n h s B IH|n h s B IH
                  |n s B IH|fuel n p s s' B IH E|fuel n p s s' B IH E];
    simpl; auto.
  - apply well_formed_add; auto.
  - apply well_formed_once; auto.
  - apply well_formed_remove; auto.
  - apply well_formed_clear; auto.
  - pose proof (@well_formed_emit fuel n p s IH) as F.
    rewrite E in F. exact F.
  - pose proof (@well_formed_emit fuel n p s IH) as F.
    rewrite E in F. exact F.
Qed.

End WellFormed.

(* ================================================================== *)
(** * The emitter with handlers that leave it alone: termination *)

Section EmitterTotal.
Import Emitter.
Variables (H P W X : Type).
Variable same : H -> H -> bool.
Variable ext : X -> W -> W.
Variable body : H -> list (arg P) -> list (cmd H P X).
Variable result : H -> returns.
Variable longest : nat.
Hypothesis body_passive : passive body.
Hypothesis body_short : forall u xs, List.length (body u xs) <= longest.

Local Abbreviation state := (state H P W).
Local Abbreviation emit := (emit same ext body result).
Local Abbreviation forEach := (forEach same ext body result).
Local Abbreviation invoke := (invoke same ext body result).

Lemma remove_handler_size n (h : handler H) (e : t H) a :
  List.length (set_at a (remove_handler same n h e)) =
  List.length (set_at a e).
Proof.
  unfold remove_handler.
  pose proof (getEventHandlers_spec n e) as G.
  destruct (getEventHandlers n e) as [b e1].
  destruct G as (_ & _ & _ & G & _). rewrite <- G.
  unfold set_at, update_set. simpl. rewrite replace_at.
  destruct (Nat.eqb a b) eqn:E; auto.
  apply Nat.eqb_eq in E. subst b.
  destruct (Nat.ltb a (List.length (heap e1))) eqn:L.
  - apply set_delete_length.
  - apply Nat.ltb_ge in L. rewrite nth_overflow by exact L. reflexivity.
Qed.

(** A call of an entry returns, and keeps the size of every set. *)
Lemma invoke_total (h : handler H) xs fuel (s : state) :
  longest + 2 < fuel ->
  exists ps s',
    invoke fuel h None xs s = Done (ps, s') /\
    forall a, List.length (set_at a (emitter s')) =
              List.length (set_at a (emitter s)).
Proof.
  intro F. destruct h as [u|reg n u].
  - rewrite invoke_user; auto.
    + eexists _, _. split; [reflexivity|]. reflexivity.
    + pose proof (body_short u xs). lia.
  - destruct fuel as [|f]; [lia|]. rewrite invoke_once_S, invoke_user; auto.
    + eexists _, _. split; [reflexivity|]. intro a. simpl.
      apply remove_handler_size.
    + pose proof (body_short u (firstn 1 xs)). lia.
Qed.

Lemma forEach_total a xs : forall k fuel i ps (s : state),
  List.length (set_at a (emitter s)) - i <= k ->
  k + longest + 3 < fuel ->
  exists ps' s',
    forEach fuel a i xs ps s = Done (ps', s') /\
    forall a', List.length (set_at a' (emitter s')) =
               List.length (set_at a' (emitter s)).
Proof.
  induction k as [|k IH]; intros [|f] i ps s Hk Hf; try lia;
    rewrite forEach_S.
  - rewrite (proj2 (nth_error_None _ _)) by lia. eauto.
  - destruct (nth_error (set_at a (emitter s)) i) as [[h|]|] eqn:E.
    + assert (Hi : i < List.length (set_at a (emitter s)))
        by (apply nth_error_Some; congruence).
      destruct (@invoke_total h xs f s) as (ps1 & s1 & E1 & L1); [lia|].
      rewrite E1.
      destruct (IH f (S i) (ps ++ ps1) s1) as (ps' & s' & E2 & L2);
        [rewrite L1; lia|lia|].
      exists ps', s'. split; [exact E2|]. intro a'. rewrite L2. apply L1.
    + assert (Hi : i < List.length (set_at a (emitter s)))
        by (apply nth_error_Some; congruence).
      apply IH; lia.
    + eauto.
Qed.

Lemma touch_size n (s : state) a :
  set_at a (emitter (touch n s)) = set_at a (emitter s).
Proof.
  destruct (touch_spec n s) as (_ & _ & _ & _ & E & _). rewrite E.
  pose proof (getEventHandlers_spec n (emitter s)) as G.
  destruct (getEventHandlers n (emitter s)) as [b e1].
  destruct G as (_ & _ & _ & G & _). apply G.
Qed.

(** With enough fuel for the longest set, [emit] returns normally. *)
Theorem emit_total n p fuel (s : state) :
  (forall a, List.length (set_at a (emitter s)) + longest + 4 < fuel) ->
  exists s', emit fuel n p s = Done s'.
Proof.
  intro F. destruct fuel as [|f]; [specialize (F 0); lia|].
  rewrite emit_S.
  destruct (touch_spec n s) as (_ & _ & _ & _ & _ & T1). rewrite T1.
  destruct (@forEach_total (fst (getEventHandlers n (emitter s)))
              [Payload p]
              (List.length (set_at (fst (getEventHandlers n (emitter s)))
                                   (emitter (touch n s))))
              f 0 [] (touch n s)) as (ps1 & s2 & E1 & L1); [lia| |].
  { rewrite touch_size. specialize (F (fst (getEventHandlers n (emitter s)))).
    lia. }
  rewrite E1.
  destruct (touch_spec "*" s2) as (_ & _ & _ & _ & _ & T2). rewrite T2.
  destruct (@forEach_total (fst (getEventHandlers "*" (emitter s2)))
              [EventName n; Payload p]
              (List.length (set_at (fst (getEventHandlers "*" (emitter s2)))
                                   (emitter (touch "*" s2))))
              f 0 ps1 (touch "*" s2)) as (ps2 & s4 & E2 & L2); [lia| |].
  { rewrite touch_size, L1, touch_size.
    specialize (F (fst (getEventHandlers "*" (emitter s2)))). lia. }
  rewrite E2. eauto.
Qed.

End EmitterTotal.

(* ================================================================== *)
(** * What [emit] does to handlers and to its caller *)

Section EmitContract.
Import Emitter.
Variables (H P W X : Type).
Variable same : H -> H -> bool.
Variable ext : X -> W -> W.
Variable body : H -> list (arg P) -> list (cmd H P X).
Variable result : H -> returns.

(** C9, amended. On an emitter used through its methods, with handlers
    that leave the emitter alone, [emit] of a name other than "*" calls
    the handlers registered under the name, in the order of their
    registration, then the wildcard handlers, up to and including the
    first that throws.  When none throws every one of them is called and
    [emit] returns normally, whether the promises they return are
    fulfilled or rejected; when one throws, [emit] throws to its caller
    and the handlers after that one are not called. *)
Theorem emit_calls_every_handler (n : string) (p : P) (s : state H P W) :
  aloof body -> n <> "*" -> built same ext body result s ->
  let own := live (registered n (emitter s)) in
  let wild := live (registered "*" (emitter s)) in
  let stop := existsb (throws body [Payload p]) own in
  let raised :=
    stop || existsb (throws body [EventName n; Payload p]) wild in
  let run1 := called body [Payload p] own in
  let run2 :=
    if stop then [] else called body [EventName n; Payload p] wild in
  (raised = false -> run1 = own /\ run2 = wild) /\
  exists enough, forall fuel, enough <= fuel ->
  exists s',
    emit same ext body result fuel n p s = ends raised s' /\
    calls s' =
      calls s ++
      map (call_of [Payload p]) run1 ++
      map (call_of [EventName n; Payload p]) run2 /\
    world s' =
      run_effects ext
        (flat_map (fun h => before_throw (commands_of body [Payload p] h))
                  run1 ++
         flat_map (fun h => before_throw
                              (commands_of body [EventName n; Payload p] h))
                  run2)
        (world s).
Proof.
  intros Hp Hn B own wild stop raised run1 run2.
  pose proof (built_well_formed B) as Wf.
  split.
  { unfold raised. intro E. apply orb_false_elim in E.
    destruct E as [E1 E2]. unfold run2. rewrite E1. unfold run1.
    split; apply called_all; assumption. }
  exists (2 + Nat.max (cost body [Payload p] (registered n (emitter s)))
                      (cost body [EventName n; Payload p]
                            (registered "*" (emitter s)))).
  intros [|f] Hf; [lia|]. rewrite emit_S.
  destruct (touch_spec n s) as (Tw & Tc & _ & _ & Te & Th).
  pose proof (getEventHandlers_spec n (emitter s)) as G.
  pose proof (@touch_apart _ same (emitter s) n "*") as Ap.
  destruct (getEventHandlers n (emitter s)) as [a e1].
  simpl in Te, Th, Ap. rewrite Th.
  destruct G as (G1 & G2 & _ & G4 & G5 & G6 & _).
  destruct (@well_formed_registered _ same (emitter s) n Wf) as [D1 A1].
  destruct (@forEach_aloof _ _ _ _ same ext body result n a [Payload p] Hp
              (registered n (emitter s)) [] [] (touch n s) f)
    as (ps1 & s2 & E1 & C1 & W1 & M1 & S1);
    rewrite ?Te; auto; try lia.
  simpl in E1. rewrite E1. fold own. fold own in C1, W1.
  fold stop. fold run1 in C1, W1. unfold raised, run2.
  destruct stop.
  { exists s2. simpl. rewrite !app_nil_r, C1, W1, Tc, Tw. auto. }
  cbn [ends orb].
  destruct (touch_spec "*" s2) as (Tw2 & Tc2 & _ & _ & Te2 & Th2).
  pose proof (getEventHandlers_spec "*" (emitter s2)) as G'.
  destruct (getEventHandlers "*" (emitter s2)) as [b e3].
  simpl in Te2, Th2. rewrite Th2.
  destruct G' as (G1' & G2' & _).
  assert (R : registered "*" (emitter s2) = registered "*" (emitter s)).
  { unfold registered. rewrite M1, Te, G6 by congruence.
    destruct (map_get "*" (eventMap (emitter s))) as [b0|] eqn:Gb; auto.
    rewrite S1, Te, G4; auto. intro Q. subst b0.
    eapply Ap; eauto. }
  destruct (@well_formed_registered _ same (emitter s) "*" Wf) as [D2 A2].
  destruct (@forEach_aloof _ _ _ _ same ext body result "*" b
              [EventName n; Payload p] Hp
              (registered "*" (emitter s)) [] ps1 (touch "*" s2) f)
    as (ps2 & s4 & E2 & C2 & W2 & M2 & S2);
    rewrite ?Te2, ?G2', ?R; auto; try lia.
  simpl in E2. rewrite E2. fold wild. fold wild in C2, W2.
  destruct (existsb (throws body [EventName n; Payload p]) wild).
  - exists s4. split; [reflexivity|].
    rewrite C2, Tc2, C1, Tc, W2, Tw2, W1, Tw.
    rewrite <- app_assoc, run_effects_app. auto.
  - exists (allSettled ps2 s4). split; [reflexivity|]. simpl.
    rewrite C2, Tc2, C1, Tc, W2, Tw2, W1, Tw.
    rewrite <- app_assoc, run_effects_app. auto.
Qed.

End EmitContract.

Section EmitExamples.
Import Emitter.

(** The claim of C9 as it is stated fails: the first of two handlers
    throws; [emit] raises to its caller and the second handler is not
    called. *)
Lemma emit_raises_synchronous_failure :
  let throwing (h : nat) (_ : list (arg unit)) : list (cmd nat unit unit) :=
    match h with 0 => [Throw] | _ => [] end in
  let s :=
    with_emitter (on Nat.eqb "t" 1)
      (with_emitter (on Nat.eqb "t" 0)
         (mkState create tt [] [] [])) in
  live (registered "t" (emitter s)) = [User 0; User 1] /\
  match emit Nat.eqb (fun _ w => w) throwing (fun _ => Plain) 10 "t" tt s with
  | Raised s' => calls s' = [mkCall None 0 [Payload tt]]
  | _ => False
  end.
Proof.
  vm_compute. split; reflexivity.
Qed.

(** The theorem on an emitter with a one-time handler whose promise
    rejects, a plain handler and a wildcard handler. *)
Lemma emit_calls_every_handler_witness :
  let effects (h : nat) (_ : list (arg unit)) : list (cmd nat unit nat) :=
    [Effect h] in
  let rejecting (h : nat) := Promise true in
  let s :=
    with_emitter (on Nat.eqb "*" 3)
      (with_emitter (on Nat.eqb "t" 2)
         (with_emitter (once Nat.eqb "t" 1)
            (mkState create [] [] [] []))) in
  aloof effects /\
  built Nat.eqb (fun x w => w ++ [x]) effects rejecting s /\
  exists enough, forall fuel, enough <= fuel ->
  exists s',
    emit Nat.eqb (fun x w => w ++ [x]) effects rejecting fuel "t" tt s =
      Done s' /\
    calls s' = [mkCall (Some 0) 1 [Payload tt];
                mkCall None 2 [Payload tt];
                mkCall None 3 [EventName "t"; Payload tt]] /\
    world s' = [1; 2; 3].
Proof.
  assert (Ha : aloof (fun (h : nat) (_ : list (arg unit)) =>
                        [@Effect nat unit nat h])).
  { intros u xs c [<-|[]]. right. eauto. }
  assert (B : built Nat.eqb (fun x w => w ++ [x])
                    (fun (h : nat) (_ : list (arg unit)) =>
                       [@Effect nat unit nat h])
                    (fun _ => Promise true)
                    (with_emitter (on Nat.eqb "*" 3)
                       (with_emitter (on Nat.eqb "t" 2)
                          (with_emitter (once Nat.eqb "t" 1)
                             (mkState create [] [] [] []))))).
  { apply built_on, built_on, built_once, built_new. }
  split; [exact Ha|]. split; [exact B|].
  exact (proj2
           (@emit_calls_every_handler nat unit (list nat) nat Nat.eqb
              (fun x w => w ++ [x])
              (fun (h : nat) (_ : list (arg unit)) => [Effect h])
              (fun _ => Promise true) "t" tt
              (with_emitter (on Nat.eqb "*" 3)
                 (with_emitter (on Nat.eqb "t" 2)
                    (with_emitter (once Nat.eqb "t" 1)
                       (mkState create [] [] [] []))))
              Ha ltac:(discriminate) B)).
Defined.

(** C5 does not hold of the code in one corner.  Three handlers are
    registered under "t": a one-time handler that emits "t" again, a
    handler that clears "t", and the one-time handler 2.  During the
    inner [emit] the set is cleared, so that the [off] of the one-time
    wrapper of 2 deletes from a fresh, empty set while both [forEach]
    loops still walk the old one: handler 2 runs twice for one [once]
    and one outer [emit]. *)
Theorem once_handler_called_twice :
  let reentrant (h : nat) (_ : list (arg unit)) : list (cmd nat unit unit) :=
    match h with
    | 0 => [Emit "t" tt]
    | 1 => [Clear "t"]
    | _ => []
    end in
  let s :=
    with_emitter (once Nat.eqb "t" 2)
      (with_emitter (on Nat.eqb "t" 1)
         (with_emitter (once Nat.eqb "t" 0)
            (mkState create tt [] [] []))) in
  registered "t" (emitter s) =
    [Some (OneTime 0 "t" 0); Some (User 1); Some (OneTime 1 "t" 2)] /\
  match emit Nat.eqb (fun _ w => w) reentrant (fun _ => Plain) 20 "t" tt s with
  | Done s' =>
      times_via 1 s' = 2 /\
      map (@callee nat unit) (calls s') = [0; 1; 2; 1; 2]
  | _ => False
  end.
Proof.
  vm_compute. repeat split; reflexivity.
Qed.

End EmitExamples.

(* ================================================================== *)
(** * A response that nobody waits for *)

Section Unroutable.
Import Service.

Lemma set_at_size (e : Emitter.t waiter) a :
  List.length (Emitter.set_at a e) <=
  fold_right (fun x n => List.length x + n) 0 (Emitter.heap e).
Proof.
  unfold Emitter.set_at. generalize (Emitter.heap e). clear e.
  induction a as [|a IH]; intros [|x heap]; simpl; try lia.
  specialize (IH heap). lia.
Qed.

Lemma registered_size (e : Emitter.t waiter) n :
  List.length (Emitter.registered n e) <=
  fold_right (fun x n => List.length x + n) 0 (Emitter.heap e).
Proof.
  unfold Emitter.registered.
  destruct (Emitter.map_get n (Emitter.eventMap e)); simpl; [|lia].
  apply set_at_size.
Qed.

Lemma not_has n (e : Emitter.t waiter) :
  Emitter.has n e = false -> Emitter.live (Emitter.registered n e) = [].
Proof.
  rewrite has_registered. intro L. apply Nat.ltb_ge in L.
  destruct (Emitter.live (Emitter.registered n e)); simpl in L; auto; lia.
Qed.

Lemma handlers_only_act w xs c :
  In c (handler_body w xs) -> exists x, c = Emitter.Effect x.
Proof.
  unfold handler_body. destruct xs as [|[n|r] xs]; simpl; try contradiction.
  intros [<-|[]]. eauto.
Qed.

(** ** The emitter of the service

    The service registers one-time handlers under "prompt-..." names and
    nothing else; its emitter stays well formed and without a wildcard
    handler. *)

Lemma topic_not_wildcard promptId : topic promptId <> "*".
Proof. unfold topic. simpl. discriminate. Qed.

Lemma registered_update n a (f : Emitter.set waiter -> Emitter.set waiter)
      (e : Emitter.t waiter) :
  Emitter.registered n (Emitter.update_set a f e) =
  match Emitter.map_get n (Emitter.eventMap e) with
  | Some b =>
      if Nat.eqb b a then
        if Nat.ltb a (List.length (Emitter.heap e))
        then f (Emitter.set_at a e) else []
      else Emitter.set_at b e
  | None => []
  end.
Proof.
  unfold Emitter.registered, Emitter.update_set, Emitter.set_at. simpl.
  destruct (Emitter.map_get n (Emitter.eventMap e)); auto.
  apply replace_at.
Qed.

Lemma no_wildcard_get n (e : Emitter.t waiter) :
  Emitter.live (Emitter.registered "*" e) = [] ->
  Emitter.live
    (Emitter.registered "*" (snd (Emitter.getEventHandlers n e))) = [].
Proof.
  intro N. pose proof (getEventHandlers_spec n e) as G.
  destruct (Emitter.getEventHandlers n e) as [a e1].
  destruct G as (_ & _ & _ & _ & R & _). simpl. rewrite R. exact N.
Qed.

Lemma no_wildcard_remove n h (e : Emitter.t waiter) :
  Emitter.live (Emitter.registered "*" e) = [] ->
  Emitter.live
    (Emitter.registered "*" (Emitter.remove_handler same n h e)) = [].
Proof.
  intro N. unfold Emitter.remove_handler.
  pose proof (@no_wildcard_get n e N) as N1.
  destruct (Emitter.getEventHandlers n e) as [a e1]. simpl in N1.
  rewrite registered_update. unfold Emitter.registered in N1.
  destruct (Emitter.map_get "*" (Emitter.eventMap e1)) as [b|]; auto.
  destruct (Nat.eqb b a) eqn:E; auto.
  apply Nat.eqb_eq in E. subst b.
  destruct (Nat.ltb a (List.length (Emitter.heap e1))); auto.
  rewrite live_set_delete, N1. reflexivity.
Qed.

Lemma no_wildcard_once promptId w (e : Emitter.t waiter) :
  Emitter.well_formed same e = true ->
  Emitter.live (Emitter.registered "*" e) = [] ->
  Emitter.live
    (Emitter.registered "*" (Emitter.once same (topic promptId) w e)) = [].
Proof.
  intros Wf N. unfold Emitter.once, Emitter.add_handler.
  set (e0 := Emitter.mk (Emitter.heap e) (Emitter.eventMap e)
                        (S (Emitter.closures e))).
  assert (Wf0 : Emitter.well_formed same e0 = true) by exact Wf.
  assert (N0 : Emitter.live (Emitter.registered "*" e0) = []) by exact N.
  pose proof (@well_formed_get _ same (topic promptId) e0 Wf0) as Wf1.
  pose proof (@no_wildcard_get (topic promptId) e0 N0) as N1.
  pose proof (getEventHandlers_spec (topic promptId) e0) as G.
  destruct (Emitter.getEventHandlers (topic promptId) e0) as [a e1].
  simpl in Wf1, N1. destruct G as (G1 & _).
  rewrite registered_update. unfold Emitter.registered in N1.
  destruct (Emitter.map_get "*" (Emitter.eventMap e1)) as [b|] eqn:Gb; auto.
  destruct (Nat.eqb b a) eqn:E; auto.
  apply Nat.eqb_eq in E. subst b. exfalso.
  apply well_formed_iff in Wf1. destruct Wf1 as [A _].
  apply (@topic_not_wildcard promptId).
  eapply apartb_inj; eauto using map_get_in.
Qed.

Lemma tidy_command w xs c (e : Emitter.t waiter) :
  In c (handler_body w xs) ->
  Emitter.well_formed same e = true /\
  Emitter.live (Emitter.registered "*" e) = [] ->
  Emitter.well_formed same (Emitter.on_emitter same c e) = true /\
  Emitter.live (Emitter.registered "*" (Emitter.on_emitter same c e)) = [].
Proof.
  intros Hin K. destruct (@handlers_only_act w xs c Hin) as [x ->].
  exact K.
Qed.

Lemma tidy_next i (s : state) :
  Emitter.well_formed same (Emitter.emitter s) = true /\
  Emitter.live (Emitter.registered "*" (Emitter.emitter s)) = [] ->
  Emitter.well_formed same (Emitter.emitter (next i s)) = true /\
  Emitter.live (Emitter.registered "*" (Emitter.emitter (next i s))) = [].
Proof.
  intro K. unfold next, step. destruct i as [message|n o].
  - destruct message; simpl; auto.
    unfold emit.
    pose proof (proj1 (@emit_keeps_emitter _ _ _ _ same handler_effect
                         handler_body handler_result
                         (fun e =>
                            Emitter.well_formed same e = true /\
                            Emitter.live (Emitter.registered "*" e) = [])
                         (fun n e K =>
                            conj (@well_formed_get _ same n e (proj1 K))
                                 (@no_wildcard_get n e (proj2 K)))
                         (fun n h e K =>
                            conj (@well_formed_remove _ same n h e (proj1 K))
                                 (@no_wildcard_remove n h e (proj2 K)))
                         (fun u xs c e Hin K =>
                            @tidy_command u xs c e Hin K)
                         (emit_fuel s))
                      (topic promptId) response s K) as F.
    destruct (Emitter.emit same handler_effect handler_body handler_result
                           (emit_fuel s) (topic promptId) response s);
      simpl in F; auto.
  - destruct (nth_error (pending (Emitter.world s)) n) as [k|]; auto.
    destruct k; simpl; auto.
    destruct K as [K1 K2]. split.
    + apply well_formed_once. exact K1.
    + apply no_wildcard_once; assumption.
Qed.

(** In every state the service reaches, the emitter is well formed and
    holds no wildcard handler. *)
Lemma tidy_run inputs : forall (s : state),
  Emitter.well_formed same (Emitter.emitter s) = true /\
  Emitter.live (Emitter.registered "*" (Emitter.emitter s)) = [] ->
  Emitter.well_formed same (Emitter.emitter (run inputs s)) = true /\
  Emitter.live (Emitter.registered "*" (Emitter.emitter (run inputs s))) = [].
Proof.
  induction inputs as [|i r IH]; simpl; intros s K; auto.
  apply IH. apply tidy_next. exact K.
Qed.

Lemma no_wildcard_listener uuids d inputs :
  Emitter.has "*" (Emitter.emitter (run inputs (boot uuids d))) = false.
Proof.
  rewrite has_registered.
  rewrite (proj2 (@tidy_run inputs (boot uuids d) (conj eq_refl eq_refl))).
  reflexivity.
Qed.

(** The claim of C8 as it is stated fails in its last clause: a response
    for a prompt that nobody waits for leaves a trace in the state, the
    private map of the emitter gaining an empty handler set for the
    topic of the response and one for "*". *)
Lemma unroutable_response_grows_the_map :
  let s := boot numbered Db.empty in
  let stale := PROMPT_RESPONSE "gone" (mkResponse true None) in
  Emitter.has (topic "gone") (Emitter.emitter s) = false /\
  Emitter.eventMap (Emitter.emitter s) = [] /\
  Emitter.eventMap (Emitter.emitter (next (Receive stale) s)) =
    [("prompt-gone", 0); ("*", 1)] /\
  ~ changes_nothing stale s.
Proof.
  repeat split. intro E. unfold changes_nothing in E. simpl in E.
  injection E as E. apply (f_equal (@List.length _)) in E. discriminate.
Qed.

(** C8, amended. In every state the service reaches, a
    [PROMPT_RESPONSE] whose promptId has no registered waiter is ignored
    in silence: the handler returns normally, no handler is called,
    nothing outside the emitter changes (no message is sent, no [ERROR]
    either), and in the emitter no set and no registration changes; only
    its map is given an empty handler set for the topic, and for "*",
    where it had none. *)
Theorem unroutable_response_is_ignored
        (uuids : nat -> string) (d : Db.t) (inputs : list input)
        (promptId : string) (r : PromptResponse) :
  let s := run inputs (boot uuids d) in
  Emitter.has (topic promptId) (Emitter.emitter s) = false ->
  let s' := Emitter.touch "*" (Emitter.touch (topic promptId) s) in
  handleFrontendMessage (PROMPT_RESPONSE promptId r) s = Emitter.Done s' /\
  Emitter.world s' = Emitter.world s /\
  Emitter.calls s' = Emitter.calls s /\
  (forall a, Emitter.set_at a (Emitter.emitter s') =
             Emitter.set_at a (Emitter.emitter s)) /\
  (forall n, Emitter.registered n (Emitter.emitter s') =
             Emitter.registered n (Emitter.emitter s)) /\
  (forall n, Emitter.has n (Emitter.emitter s') =
             Emitter.has n (Emitter.emitter s)) /\
  (forall n, n <> topic promptId -> n <> "*" ->
     Emitter.map_get n (Emitter.eventMap (Emitter.emitter s')) =
     Emitter.map_get n (Emitter.eventMap (Emitter.emitter s))).
Proof.
  intros s H1 s'. pose proof (no_wildcard_listener uuids d inputs) as H2.
  fold s in H2. apply not_has in H1. apply not_has in H2.
  split.
  - unfold handleFrontendMessage, emit. apply emit_idle; auto.
    + pose proof (registered_size (Emitter.emitter s) (topic promptId)).
      unfold emit_fuel. lia.
    + pose proof (registered_size (Emitter.emitter s) "*").
      unfold emit_fuel. lia.
  - unfold s'.
    destruct (touch_spec (topic promptId) s) as (W1 & C1 & _ & _ & E1 & _).
    destruct (touch_spec "*" (Emitter.touch (topic promptId) s))
      as (W2 & C2 & _ & _ & E2 & _).
    pose proof (getEventHandlers_spec (topic promptId) (Emitter.emitter s))
      as G1.
    pose proof (getEventHandlers_spec "*"
                  (Emitter.emitter (Emitter.touch (topic promptId) s)))
      as G2.
    rewrite E2. rewrite E1 in *.
    destruct (Emitter.getEventHandlers (topic promptId) (Emitter.emitter s))
      as [a e1]. simpl in *.
    destruct (Emitter.getEventHandlers "*" e1) as [b e2]. simpl in *.
    destruct G1 as (_ & _ & _ & S1 & R1 & M1 & _).
    destruct G2 as (_ & _ & _ & S2 & R2 & M2 & _).
    rewrite W2, W1, C2, C1. repeat split.
    + intro a'. rewrite S2, S1. reflexivity.
    + intro n. rewrite R2, R1. reflexivity.
    + intro n. rewrite !has_registered, R2, R1. reflexivity.
    + intros n N1 N2. rewrite M2, M1; auto.
Qed.

(** The theorem on a service that is waiting for the answer to prompt
    uuid-0 and is sent an answer to "gone". *)
Lemma unroutable_response_is_ignored_witness :
  let task := Js.Obj [("type", Js.Str "settings")] in
  let s := run [Receive (TASK task true); Resume 0 Db.Succeeds;
                Resume 0 Db.Succeeds] (boot numbered Db.empty) in
  let s' := next (Receive (PROMPT_RESPONSE "gone" (mkResponse true None))) s in
  Emitter.has (topic "uuid-0") (Emitter.emitter s) = true /\
  Emitter.has (topic "gone") (Emitter.emitter s) = false /\
  Emitter.world s' = Emitter.world s /\
  Emitter.has (topic "uuid-0") (Emitter.emitter s') = true.
Proof.
  split; [reflexivity|]. split; [reflexivity|].
  pose proof (@unroutable_response_is_ignored
    numbered Db.empty
    [Receive (TASK (Js.Obj [("type", Js.Str "settings")]) true);
     Resume 0 Db.Succeeds; Resume 0 Db.Succeeds]
    "gone" (mkResponse true None) eq_refl) as (E & Hw & _).
  split; [|reflexivity].
  unfold next, step. rewrite E. exact Hw.
Defined.

End Unroutable.

(* ================================================================== *)
(** * The event loop never lacks fuel *)

Section Fuel.
Import Service.

Lemma handlers_passive : Emitter.passive handler_body.
Proof.
  intros w xs c Hin. unfold handler_body in Hin.
  destruct xs as [|[n|r] xs]; simpl in Hin; try contradiction.
  destruct Hin as [<-|[]]. eauto.
Qed.

Lemma handlers_short w xs : List.length (handler_body w xs) <= 1.
Proof.
  unfold handler_body. destruct xs as [|[n|r] xs]; simpl; lia.
Qed.

(** Whatever the state of the service and the message, the handler of
    frontend messages returns normally: the fuel [emit_fuel] is enough,
    and no handler of the service throws. *)
Theorem handleFrontendMessage_returns (message : Message) (s : state) :
  exists s', handleFrontendMessage message s = Emitter.Done s'.
Proof.
  destruct message; simpl; eauto.
  unfold emit.
  apply (@emit_total _ _ _ _ same handler_effect handler_body handler_result
           1 handlers_passive handlers_short).
  intro a. pose proof (set_at_size (Emitter.emitter s) a).
  unfold emit_fuel. lia.
Qed.

End Fuel.

(* ================================================================== *)
(** * More on the mutex *)

Section MutexMore.
Import Mutex.

Lemma run_app (a b : list call) (w : world) :
  run (a ++ b) w = run b (run a w).
Proof. unfold run. apply fold_left_app. Qed.

Lemma disciplined_app (a : list call) : forall (b : list call) (w : world),
  disciplined (a ++ b) w = disciplined a w && disciplined b (run a w).
Proof.
  induction a as [|e a IH]; intros b w; simpl; [reflexivity|].
  rewrite IH, andb_assoc. reflexivity.
Qed.

Lemma run_acquires (cs : list nat) : forall (w : world),
  locked (mutex w) = true ->
  disciplined (map Acquire cs) w = true /\
  run (map Acquire cs) w =
    mkWorld (mk (queue (mutex w) ++ cs) true) (holders w)
            (requests w ++ cs) (grants w).
Proof.
  induction cs as [|c cs IH]; intros [[q l] hs rq g] L; simpl in L; subst l.
  - simpl. rewrite !app_nil_r. auto.
  - destruct (IH (mkWorld (mk (q ++ [c]) true) hs (rq ++ [c]) g)
                 eq_refl) as [D R].
    change (map Acquire (c :: cs)) with (Acquire c :: map Acquire cs).
    cbn [disciplined run fold_left allowed andb].
    assert (E : step (Acquire c) (mkWorld (mk q true) hs rq g) =
                mkWorld (mk (q ++ [c]) true) hs (rq ++ [c]) g)
      by reflexivity.
    rewrite E. split; [exact D|].
    unfold run in R. rewrite R. simpl. rewrite <- !app_assoc. reflexivity.
Qed.

Lemma run_releases (q : list nat) : forall (h : nat) (rq g : list nat),
  disciplined (map Release (h :: q)) (mkWorld (mk q true) [h] rq g) = true /\
  run (map Release (h :: q)) (mkWorld (mk q true) [h] rq g) =
    mkWorld init [] rq (g ++ q).
Proof.
  induction q as [|n q IH]; intros h rq g.
  - simpl. rewrite Nat.eqb_refl, app_nil_r. auto.
  - destruct (IH n rq (g ++ [n])) as [D R].
    change (map Release (h :: n :: q))
      with (Release h :: map Release (n :: q)).
    cbn [disciplined run fold_left allowed holders existsb].
    rewrite Nat.eqb_refl. cbn [orb andb].
    assert (E : step (Release h) (mkWorld (mk (n :: q) true) [h] rq g) =
                mkWorld (mk q true) [n] rq (g ++ [n])).
    { simpl. rewrite Nat.eqb_refl. reflexivity. }
    rewrite E. split; [exact D|].
    unfold run in R. rewrite R, <- app_assoc. reflexivity.
Qed.

(** X1. The queue drains in order.  When callers acquire a free mutex
    one after the other and then each holder in turn releases, every
    call is one the discipline allows, each caller has been handed the
    lock in the order of the [acquire] calls, and in the end the mutex
    is free again with nobody waiting. *)
Theorem mutex_drains_in_order (cs : list nat) :
  let tr := map Acquire cs ++ map Release cs in
  disciplined tr start = true /\
  run tr start = mkWorld init [] cs cs /\
  isLocked (mutex (run (map Acquire cs) start)) =
    negb (Nat.eqb (List.length cs) 0) /\
  queue (mutex (run (map Acquire cs) start)) = tl cs.
Proof.
  destruct cs as [|c cs]; [repeat split; reflexivity|].
  cbv zeta.
  assert (A : disciplined (map Acquire (c :: cs)) start = true /\
              run (map Acquire (c :: cs)) start =
                mkWorld (mk cs true) [c] (c :: cs) [c]).
  { destruct (@run_acquires cs (mkWorld (mk [] true) [c] [c] [c]) eq_refl)
      as [D R].
    split; [exact D|]. exact R. }
  destruct A as [D1 R1].
  destruct (run_releases cs c (c :: cs) [c]) as [D2 R2].
  rewrite disciplined_app, run_app, R1, D1, D2, R2.
  repeat split; reflexivity.
Qed.

(** X2. A handle is a bound [release] that nothing invalidates and that
    does not know its caller.  In a world reached with discipline, a
    [release] through a handle that is not the holder's (a handle used
    before, say) does nothing to a free mutex; but when the lock is
    held it is taken from under the holder: handed to the head of the
    queue, so that two callers hold it, or, nobody waiting, marked free
    while the holder still holds it. *)
Theorem release_is_unchecked (tr : list call) (c : nat) :
  disciplined tr start = true ->
  let w := run tr start in
  allowed (Release c) w = false ->
  let w' := step (Release c) w in
  match holders w, queue (mutex w) with
  | [], _ => w' = w
  | [h], next :: rest =>
      holders w' = [h; next] /\ isLocked (mutex w') = true /\
      queue (mutex w') = rest
  | [h], [] => holders w' = [h] /\ isLocked (mutex w') = false
  | _, _ => False
  end.
Proof.
  intros Hd w Ha w'.
  pose proof (mutex_inv_run tr mutex_inv_start Hd) as (Hreq & Hfree & Hheld).
  fold w in Hreq, Hfree, Hheld. unfold w'. clearbody w. clear w'.
  destruct w as [[q l] hs rq g]. simpl in *.
  destruct l.
  - destruct (Hheld eq_refl) as [h ->]. simpl in Ha.
    rewrite orb_false_r in Ha.
    assert (N : Nat.eqb h c = false) by (rewrite Nat.eqb_sym; exact Ha).
    destruct q as [|n q]; unfold release; simpl; rewrite N; auto.
  - destruct (Hfree eq_refl) as [-> ->]. reflexivity.
Qed.

(** The theorem after the example of the discipline: 1 uses its handle
    a second time while 2 holds the lock and 3 waits. *)
Lemma release_is_unchecked_witness :
  let tr := [Acquire 1; Acquire 2; Acquire 3; Release 1] in
  holders (run tr start) = [2] /\
  holders (step (Release 1) (run tr start)) = [2; 3].
Proof.
  split; [reflexivity|].
  exact (proj1 (@release_is_unchecked
                  [Acquire 1; Acquire 2; Acquire 3; Release 1] 1
                  eq_refl eq_refl)).
Defined.

End MutexMore.

(* ================================================================== *)
(** * The methods of the emitter, seen through the handlers registered *)

Section EmitterApi.
Import Emitter.
Variable H : Type.
Variable same : H -> H -> bool.

Lemma registered_update_set n a (f : set H -> set H) (e : t H) :
  registered n (update_set a f e) =
  match map_get n (eventMap e) with
  | Some b =>
      if Nat.eqb b a then
        if Nat.ltb a (List.length (heap e)) then f (set_at a e) else []
      else set_at b e
  | None => []
  end.
Proof.
  unfold registered, update_set, set_at. simpl.
  destruct (map_get n (eventMap e)); auto. apply replace_at.
Qed.

(** A change to the set of [n], on a well-formed emitter, is a change
    to what is registered under [n] and to nothing else. *)
Lemma registered_change n (f : set H -> set H) (e : t H) :
  well_formed same e = true ->
  let e' := update_set (fst (getEventHandlers n e)) f
                       (snd (getEventHandlers n e)) in
  registered n e' = f (registered n e) /\
  forall n', n' <> n -> registered n' e' = registered n' e.
Proof.
  intros Wf e'. unfold e'. clear e'.
  pose proof (@well_formed_get _ same n e Wf) as Wf1.
  pose proof (getEventHandlers_spec n e) as G.
  destruct (getEventHandlers n e) as [a e1]. simpl in *.
  destruct G as (G1 & G2 & _ & _ & G5 & _).
  destruct (@well_formed_lookup _ same e1 n a Wf1 G1) as (_ & _ & L).
  split.
  - rewrite registered_update_set, G1, Nat.eqb_refl.
    apply Nat.ltb_lt in L. rewrite L, G2. reflexivity.
  - intros n' N. rewrite registered_update_set, <- G5.
    unfold registered.
    destruct (map_get n' (eventMap e1)) as [b|] eqn:Gb; auto.
    destruct (Nat.eqb b a) eqn:E; auto.
    apply Nat.eqb_eq in E. subst b. exfalso. apply N.
    apply well_formed_iff in Wf1. destruct Wf1 as [A _].
    eapply apartb_inj; eauto using map_get_in.
Qed.

Lemma registered_add n (h : handler H) (e : t H) :
  well_formed same e = true ->
  registered n (add_handler same n h e) = set_add same h (registered n e) /\
  forall n', n' <> n ->
    registered n' (add_handler same n h e) = registered n' e.
Proof.
  intro Wf. pose proof (@registered_change n (set_add same h) e Wf) as R.
  unfold add_handler. destruct (getEventHandlers n e) as [a e1]. exact R.
Qed.

Lemma registered_remove n (h : handler H) (e : t H) :
  well_formed same e = true ->
  registered n (remove_handler same n h e) =
    set_delete same h (registered n e) /\
  forall n', n' <> n ->
    registered n' (remove_handler same n h e) = registered n' e.
Proof.
  intro Wf. pose proof (@registered_change n (set_delete same h) e Wf) as R.
  unfold remove_handler. destruct (getEventHandlers n e) as [a e1]. exact R.
Qed.

Lemma map_get_delete n n' (m : list (string * nat)) :
  map_get n' (map_delete n m) =
  if String.eqb n n' then None else map_get n' m.
Proof.
  induction m as [|[k a] m IH]; simpl.
  - destruct (String.eqb n n'); reflexivity.
  - destruct (String.eqb k n) eqn:E; simpl.
    + apply String.eqb_eq in E. subst k. rewrite IH.
      destruct (String.eqb n n'); reflexivity.
    + rewrite IH. destruct (String.eqb k n') eqn:F; auto.
      apply String.eqb_eq in F. subst k.
      rewrite String.eqb_sym, E. reflexivity.
Qed.

Lemma registered_clear n n' (e : t H) :
  registered n' (clear n e) =
  if String.eqb n n' then [] else registered n' e.
Proof.
  unfold registered, clear, set_at. simpl. rewrite map_get_delete.
  destruct (String.eqb n n'); reflexivity.
Qed.

Lemma filter_all (A : Type) (p : A -> bool) (l : list A) :
  forallb p l = true -> filter p l = l.
Proof.
  induction l as [|x l IH]; simpl; auto.
  intro F. apply andb_prop in F. destruct F as [-> F]. rewrite IH; auto.
Qed.

Lemma existsb_none (A : Type) (p : A -> bool) (l : list A) :
  existsb p l = false -> forallb (fun x => negb (p x)) l = true.
Proof.
  induction l as [|x l IH]; simpl; auto.
  intro E. apply orb_false_elim in E. destruct E as [-> E]. simpl. auto.
Qed.

(** X3. [on] and [off] are each other's inverse, and a Set holds a
    function once.  On a well-formed emitter, after [on(n, h)] the
    event has a subscriber; registering [h] again changes nothing; an
    [off(n, h)] gives back the handlers that were registered before,
    [h] not being one of them; and no other event is touched. *)
Theorem on_off_round_trip (n : string) (h : H) (e : t H) :
  well_formed same e = true -> same h h = true ->
  let e1 := on same n h e in
  has n e1 = true /\
  registered n (on same n h e1) = registered n e1 /\
  (set_has same (User h) (registered n e) = false ->
   live (registered n e1) = live (registered n e) ++ [User h] /\
   live (registered n (off same n h e1)) = live (registered n e)) /\
  (forall n', n' <> n ->
     registered n' e1 = registered n' e /\
     registered n' (off same n h e1) = registered n' e).
Proof.
  intros Wf Hr e1. unfold e1, on, off.
  pose proof (@well_formed_add _ same n (User h) e eq_refl Wf) as Wf1.
  destruct (@registered_add n (User h) e Wf) as [A1 A2].
  destruct (@registered_add n (User h) (add_handler same n (User h) e) Wf1)
    as [B1 B2].
  destruct (@registered_remove n (User h) (add_handler same n (User h) e)
                               Wf1) as [C1 C2].
  assert (Has : set_has same (User h)
                        (set_add same (User h) (registered n e)) = true).
  { unfold set_add. destruct (set_has same (User h) (registered n e)) eqn:E;
      [exact E|].
    unfold set_has. rewrite live_app, existsb_app. simpl.
    rewrite Hr, orb_true_r. reflexivity. }
  repeat split.
  - rewrite has_registered, A1. unfold set_has in Has.
    destruct (live (set_add same (User h) (registered n e)));
      [discriminate|reflexivity].
  - rewrite B1, A1. unfold set_add at 1. rewrite Has. reflexivity.
  - rewrite A1, live_set_add, H0. reflexivity.
  - rewrite C1, A1, live_set_delete, live_set_add, H0, filter_app.
    simpl. rewrite Hr. simpl. rewrite app_nil_r.
    apply filter_all. apply existsb_none. exact H0.
  - apply A2. assumption.
  - rewrite C2, A2; auto.
Qed.

Lemma filter_implied (A : Type) (p q : A -> bool) (l : list A) :
  (forall x, p x = true -> q x = true) ->
  filter p (filter q l) = filter p l.
Proof.
  intro I. induction l as [|x l IH]; simpl; auto.
  destruct (q x) eqn:Q; simpl.
  - rewrite IH. reflexivity.
  - destruct (p x) eqn:Px; auto. rewrite (I x Px) in Q. discriminate.
Qed.

Lemma once_filter_delete (h : H) (s : set H) :
  filter (@is_once H) (live (set_delete same (User h) s)) =
  filter (@is_once H) (live s).
Proof.
  rewrite live_set_delete. apply filter_implied.
  intros [u|r m u]; [discriminate|reflexivity].
Qed.

(** X4. [off] cannot take back a [once].  What [once(n, h)] puts into
    the Set is a wrapper of its own, so [off(n, h)] finds nothing to
    delete: on a well-formed emitter the event still has its subscriber
    after [once(n, h)] and [off(n, h)], and no [off] ever removes a
    one-time handler, of any event. *)
Theorem off_cannot_remove_once (n : string) (h : H) (e : t H) :
  well_formed same e = true ->
  has n (off same n h (once same n h e)) = true /\
  forall m u n',
    filter (@is_once H) (live (registered n' (off same m u e))) =
    filter (@is_once H) (live (registered n' e)).
Proof.
  intro Wf.
  assert (K : forall m u n',
            filter (@is_once H) (live (registered n' (off same m u e))) =
            filter (@is_once H) (live (registered n' e))).
  { intros m u n'. unfold off.
    destruct (@registered_remove m (User u) e Wf) as [R1 R2].
    destruct (String.eqb n' m) eqn:E.
    - apply String.eqb_eq in E. subst n'.
      rewrite R1. apply once_filter_delete.
    - apply String.eqb_neq in E. rewrite R2; auto. }
  split; [|exact K].
  pose proof (@well_formed_once _ same n h e Wf) as Wf1.
  unfold off. destruct (@registered_remove n (User h) (once same n h e) Wf1)
    as [R1 _].
  rewrite has_registered, R1.
  assert (N : filter (@is_once H)
                (live (set_delete same (User h)
                                  (registered n (once same n h e)))) <> []).
  { rewrite once_filter_delete. unfold once.
    destruct (@registered_add n (OneTime (closures e) n h)
                (mk (heap e) (eventMap e) (S (closures e))) Wf) as [A1 _].
    rewrite A1, live_set_add. unfold set_has.
    destruct (existsb (handler_eqb same (OneTime (closures e) n h))
                (live (registered n
                         (mk (heap e) (eventMap e) (S (closures e))))))
      eqn:E.
    - apply existsb_exists in E. destruct E as ([u|r m u] & Hin & Q);
        [discriminate|].
      intro F.
      assert (Hf : In (OneTime r m u)
                      (filter (@is_once H)
                         (live (registered n
                            (mk (heap e) (eventMap e) (S (closures e)))))))
        by (apply filter_In; auto).
      rewrite F in Hf. exact Hf.
    - rewrite filter_app. simpl. intro F.
      apply app_eq_nil in F. destruct F as [_ F]. discriminate. }
  destruct (live (set_delete same (User h) (registered n (once same n h e))));
    [contradiction|reflexivity].
Qed.

(** X5. [clear(n)] leaves no subscriber of [n], one-time handlers
    included, and touches no other event; and the handlers cleared do
    not come back with the next registration: after [clear(n)] and
    [on(n, h)], [h] is the one handler of [n]. *)
Theorem clear_detaches (n : string) (h : H) (e : t H) :
  well_formed same e = true ->
  has n (clear n e) = false /\
  live (registered n (on same n h (clear n e))) = [User h] /\
  (forall n', n' <> n -> registered n' (clear n e) = registered n' e).
Proof.
  intro Wf. pose proof (@well_formed_clear _ same n e Wf) as Wf1.
  assert (R : registered n (clear n e) = []).
  { rewrite registered_clear, String.eqb_refl. reflexivity. }
  repeat split.
  - rewrite has_registered, R. reflexivity.
  - unfold on. destruct (@registered_add n (User h) (clear n e) Wf1) as [A _].
    rewrite A, R. reflexivity.
  - intros n' N. rewrite registered_clear.
    apply String.eqb_neq in N. rewrite String.eqb_sym, N. reflexivity.
Qed.

End EmitterApi.

Section EmitterApiExamples.
Import Emitter.

(** The theorem on a fresh emitter and on one that holds a one-time
    handler. *)
Lemma on_off_round_trip_witness :
  let e := once Nat.eqb "t" 7 create in
  has "t" (on Nat.eqb "t" 1 e) = true /\
  live (registered "t" (off Nat.eqb "t" 1 (on Nat.eqb "t" 1 e))) =
    [OneTime 0 "t" 7].
Proof.
  pose proof (@on_off_round_trip nat Nat.eqb "t" 1
                                 (once Nat.eqb "t" 7 create)
                                 eq_refl eq_refl) as (T1 & _ & T3 & _).
  split; [exact T1|]. exact (proj2 (T3 eq_refl)).
Defined.

(** The theorem on a fresh emitter. *)
Lemma off_cannot_remove_once_witness :
  has "t" (off Nat.eqb "t" 7 (once Nat.eqb "t" 7 create)) = true.
Proof.
  exact (proj1 (@off_cannot_remove_once nat Nat.eqb "t" 7 create eq_refl)).
Defined.

(** The theorem on an emitter with two handlers of "t", one of them
    one-time. *)
Lemma clear_detaches_witness :
  let e := once Nat.eqb "t" 2 (on Nat.eqb "t" 1 create) in
  has "t" e = true /\ has "t" (clear "t" e) = false /\
  live (registered "t" (on Nat.eqb "t" 3 (clear "t" e))) = [User 3].
Proof.
  split; [reflexivity|].
  pose proof (@clear_detaches nat Nat.eqb "t" 3
                (once Nat.eqb "t" 2 (on Nat.eqb "t" 1 create)) eq_refl)
    as (T1 & T2 & _).
  split; assumption.
Defined.

End EmitterApiExamples.

(* ================================================================== *)
(** * One-time handlers are called once *)

Section EmitterOnce.
Import Emitter.
Variables (H P W X : Type).
Variable same : H -> H -> bool.
Variable ext : X -> W -> W.
Variable body : H -> list (arg P) -> list (cmd H P X).
Variable result : H -> returns.

Local Abbreviation state := (state H P W).
Local Abbreviation emit := (emit same ext body result).
Local Abbreviation forEach := (forEach same ext body result).
Local Abbreviation invoke := (invoke same ext body result).

(** The handlers that stay: those registered with [on]. *)
Local Abbreviation staying := (filter (fun h : handler H => negb (is_once h))).

Lemma live_strike (s : set H) : live (map (@strike H) s) = staying (live s).
Proof.
  induction s as [|[[u|r m u]|] s IH]; simpl; rewrite ?IH; auto.
Qed.

Lemma cost_strike xs (s : set H) :
  cost body xs (map (@strike H) s) <= cost body xs s.
Proof.
  induction s as [|[[u|r m u]|] s IH]; cbn [cost map strike]; lia.
Qed.

Lemma existsb_staying (p : handler H -> bool) (l : list (handler H)) :
  existsb p l = false -> existsb p (staying l) = false.
Proof. apply existsb_filter_false. Qed.

Lemma distinctb_middle (l1 l2 : list (handler H)) h :
  distinctb same (l1 ++ h :: l2) = true ->
  distinctb same (l1 ++ l2) = true /\
  existsb (fun h' => handler_eqb same h' h) l2 = false /\
  existsb (fun x => handler_eqb same h x) l1 = false.
Proof.
  induction l1 as [|x l1 IH]; simpl.
  - intro D. apply andb_prop in D. destruct D as [D1 D2].
    apply negb_true_iff in D1. auto.
  - intro D. apply andb_prop in D. destruct D as [D1 D2].
    apply negb_true_iff in D1. rewrite existsb_app in D1. simpl in D1.
    apply orb_false_elim in D1. destruct D1 as [D1 D3].
    apply orb_false_elim in D3. destruct D3 as [D3 D4].
    destruct (IH D2) as (I1 & I2 & I3).
    rewrite existsb_app, D1, D4, I1, D3, I3. auto.
Qed.

(** [forEach] over the entries [rest] of the set of [n], none of whose
    handlers throws: every one is called, and the one-time wrappers are
    gone from the set. *)
Lemma forEach_leaves n a xs :
  aloof body ->
  forall (rest front : set H) ps (s : state) fuel,
  map_get n (eventMap (emitter s)) = Some a ->
  set_at a (emitter s) = front ++ rest ->
  distinctb same (live (front ++ rest)) = true ->
  forallb (at_home n) (live rest) = true ->
  existsb (throws body xs) (live rest) = false ->
  cost body xs rest < fuel ->
  exists ps' s',
    forEach fuel a (List.length front) xs ps s = Done (ps', s') /\
    calls s' = calls s ++ map (call_of xs) (live rest) /\
    set_at a (emitter s') = front ++ map (@strike H) rest /\
    eventMap (emitter s') = eventMap (emitter s) /\
    (forall a', a' <> a -> set_at a' (emitter s') = set_at a' (emitter s)).
Proof.
  intros Ha rest.
  induction rest as [|entry rest IH];
    intros front ps s fuel Hg Hs Hd Hh Ht Hf.
  - exists ps, s. rewrite app_nil_r in Hs.
    destruct fuel as [|f]; [simpl in Hf; lia|].
    rewrite forEach_S, Hs, nth_error_end. simpl. rewrite !app_nil_r. auto.
  - destruct fuel as [|f]; [simpl in Hf; lia|].
    rewrite forEach_S, Hs, nth_error_here.
    destruct entry as [h|].
    + assert (F : 3 + List.length (commands_of body xs h) < f /\
                  cost body xs rest < f) by (cbn [cost] in Hf; lia).
      destruct F as [F1 F2]. clear Hf.
      rewrite live_app in Hd.
      change (live (Some h :: rest)) with (h :: live rest) in *.
      cbn [forallb existsb] in Hh, Ht.
      apply andb_prop in Hh. destruct Hh as [Hh1 Hh2].
      apply orb_false_elim in Ht. destruct Ht as [Ht1 Ht2].
      destruct (distinctb_middle _ _ _ Hd) as (Hd0 & Hd1 & Hd2).
      cbn [map].
      destruct h as [u|reg n' u]; cbn [commands_of] in F1.
      * rewrite invoke_aloof; [|exact Ha|lia]. cbv zeta. rewrite Ht1.
        match goal with |- context [forEach f a _ xs ?ps1 ?s1] =>
          destruct (IH (front ++ [Some (User u)]) ps1 s1 f)
            as (ps' & s' & E & Ec & Es & Em & Eo) end;
          try assumption.
        { simpl. rewrite Hs, <- app_assoc. reflexivity. }
        { rewrite <- app_assoc, live_app. exact Hd. }
        exists ps', s'. rewrite length_app in E.
        cbn [List.length] in E. rewrite Nat.add_1_r in E.
        rewrite E. split; [reflexivity|].
        simpl in Ec, Es, Em, Eo. simpl. rewrite Ec, Es, Em.
        rewrite <- !app_assoc. repeat split; auto.
      * simpl in Hh1. apply String.eqb_eq in Hh1. subst n'.
        destruct f as [|f']; [lia|].
        rewrite invoke_once_S.
        rewrite invoke_aloof; [|exact Ha|lia]. cbv zeta.
        change (throws body (firstn 1 xs) (User u))
          with (throws body xs (OneTime reg n u)).
        rewrite Ht1.
        assert (Ne : set_at a (emitter s) <> [])
          by (rewrite Hs; destruct front; discriminate).
        destruct (@update_set_spec _ a (set_delete same (OneTime reg n u))
                                   (emitter s) Ne) as (U1 & U2 & U3).
        rewrite existsb_once_sym in Hd1.
        match goal with |- context [forEach (S f') a _ xs ?ps1 ?s1] =>
          destruct (IH (front ++ [None]) ps1 s1 (S f'))
            as (ps' & s' & E & Ec & Es & Em & Eo) end;
          try assumption.
        { simpl. rewrite (@remove_handler_spec _ same n a _ _ Hg), U3.
          exact Hg. }
        { simpl. rewrite (@remove_handler_spec _ same n a _ _ Hg), U1, Hs.
          rewrite set_delete_app, set_delete_once.
          rewrite (set_delete_absent _ _ _ Hd1).
          rewrite (set_delete_absent _ _ _ Hd2), <- app_assoc.
          reflexivity. }
        { rewrite <- app_assoc, live_app. exact Hd0. }
        exists ps', s'. rewrite length_app in E.
        cbn [List.length] in E. rewrite Nat.add_1_r in E.
        rewrite E. split; [reflexivity|].
        simpl in Ec, Es, Em, Eo. simpl.
        rewrite (@remove_handler_spec _ same n a _ _ Hg) in Em, Eo.
        rewrite Ec, Es, Em, U3.
        rewrite <- !app_assoc. repeat split; auto.
        intros a' Na. rewrite Eo, U2; auto.
    + cbn [cost] in Hf.
      rewrite live_app in Hd.
      change (live (None :: rest)) with (live rest) in *.
      destruct (IH (front ++ [None]) ps s f)
        as (ps' & s' & E & Ec & Es & R); try assumption; try lia.
      { rewrite Hs, <- app_assoc. reflexivity. }
      { rewrite <- app_assoc, live_app. exact Hd. }
      exists ps', s'. rewrite length_app in E.
      cbn [List.length] in E. rewrite Nat.add_1_r in E.
      rewrite E. split; [reflexivity|]. split; [exact Ec|].
      split; [|exact R]. rewrite Es, <- app_assoc. reflexivity.
Qed.

(** What is registered after a change to one set. *)
Lemma registered_after (e e' : t H) n a (R : set H) :
  well_formed same e = true ->
  map_get n (eventMap e) = Some a ->
  eventMap e' = eventMap e ->
  set_at a e' = R ->
  (forall a', a' <> a -> set_at a' e' = set_at a' e) ->
  registered n e' = R /\
  forall n', n' <> n -> registered n' e' = registered n' e.
Proof.
  intros Wf G M S O. unfold registered. rewrite M, G.
  split; [exact S|]. intros n' N.
  destruct (map_get n' (eventMap e)) as [b|] eqn:Gb; auto.
  apply O. intro Q. subst b. apply N.
  apply well_formed_iff in Wf. destruct Wf as [A _].
  eapply apartb_inj; eauto using map_get_in.
Qed.

(** [emit] with handlers none of which throws. *)
Lemma emit_leaves (n : string) (p : P) (s : state) :
  aloof body -> n <> "*" -> well_formed same (emitter s) = true ->
  existsb (throws body [Payload p]) (live (registered n (emitter s))) =
    false ->
  existsb (throws body [EventName n; Payload p])
          (live (registered "*" (emitter s))) = false ->
  forall fuel,
  2 + Nat.max (cost body [Payload p] (registered n (emitter s)))
              (cost body [EventName n; Payload p]
                    (registered "*" (emitter s))) <= fuel ->
  exists s',
    emit fuel n p s = Done s' /\
    well_formed same (emitter s') = true /\
    calls s' =
      calls s ++
      map (call_of [Payload p]) (live (registered n (emitter s))) ++
      map (call_of [EventName n; Payload p])
          (live (registered "*" (emitter s))) /\
    registered n (emitter s') = map (@strike H) (registered n (emitter s)) /\
    registered "*" (emitter s') =
      map (@strike H) (registered "*" (emitter s)) /\
    (forall n', n' <> n -> n' <> "*" ->
       registered n' (emitter s') = registered n' (emitter s)).
Proof.
  intros Ha Hn Wf T1 T2 [|f] Hf; [lia|]. rewrite emit_S.
  destruct (touch_spec n s) as (_ & Tc & _ & _ & Te & Th).
  pose proof (getEventHandlers_spec n (emitter s)) as G.
  pose proof (@well_formed_get _ same n (emitter s) Wf) as Wf1.
  destruct (getEventHandlers n (emitter s)) as [a e1].
  simpl in Te, Th, Wf1. rewrite Th.
  destruct G as (G1 & G2 & _ & _ & G5 & _).
  destruct (@well_formed_lookup _ same e1 n a Wf1 G1) as (D1 & A1 & _).
  destruct (@forEach_leaves n a [Payload p] Ha
              (registered n (emitter s)) [] [] (touch n s) f)
    as (ps1 & s2 & E1 & C1 & S1 & M1 & O1);
    rewrite ?Te, ?G2 in *; auto; try lia.
  pose proof (proj1 (proj2 (@emit_keeps_emitter _ _ _ _ same ext body result
                              (fun e => well_formed same e = true)
                              (fun n e => @well_formed_get _ same n e)
                              (fun n h e => @well_formed_remove _ same n h e)
                              (fun _ _ c e _ =>
                                 @well_formed_command _ _ _ same c e)
                              f))
                    a 0 [Payload p] [] (touch n s)) as K1.
  rewrite Te in K1. specialize (K1 Wf1).
  simpl in E1. rewrite E1 in K1 |- *. simpl in K1.
  destruct (@registered_after e1 (emitter s2) n a _ Wf1 G1 M1 S1 O1)
    as [R1 R2].
  destruct (touch_spec "*" s2) as (_ & Tc2 & _ & _ & Te2 & Th2).
  pose proof (getEventHandlers_spec "*" (emitter s2)) as G'.
  pose proof (@well_formed_get _ same "*" (emitter s2) K1) as Wf3.
  destruct (getEventHandlers "*" (emitter s2)) as [b e3].
  simpl in Te2, Th2, Wf3. rewrite Th2.
  destruct G' as (G1' & G2' & _ & _ & G5' & _).
  assert (Rw : registered "*" (emitter s2) = registered "*" (emitter s)).
  { rewrite R2, G5; auto. }
  rewrite Rw in G2'.
  destruct (@well_formed_lookup _ same e3 "*" b Wf3 G1') as (D2 & A2 & _).
  destruct (@forEach_leaves "*" b [EventName n; Payload p] Ha
              (registered "*" (emitter s)) [] ps1 (touch "*" s2) f)
    as (ps2 & s4 & E2 & C2 & S2 & M2 & O2);
    rewrite ?Te2, ?G2' in *; auto; try lia.
  pose proof (proj1 (proj2 (@emit_keeps_emitter _ _ _ _ same ext body result
                              (fun e => well_formed same e = true)
                              (fun n e => @well_formed_get _ same n e)
                              (fun n h e => @well_formed_remove _ same n h e)
                              (fun _ _ c e _ =>
                                 @well_formed_command _ _ _ same c e)
                              f))
                    b 0 [EventName n; Payload p] ps1 (touch "*" s2)) as K2.
  rewrite Te2 in K2. specialize (K2 Wf3).
  simpl in E2. rewrite E2 in K2 |- *. simpl in K2.
  destruct (@registered_after e3 (emitter s4) "*" b _ Wf3 G1' M2 S2 O2)
    as [R3 R4].
  exists (allSettled ps2 s4). split; [reflexivity|]. simpl.
  split; [exact K2|]. split.
  { rewrite C2, Tc2, C1, Tc, <- app_assoc. reflexivity. }
  split; [|split].
  - rewrite R4, G5', R1; auto.
  - exact R3.
  - intros n' N1 N2. rewrite R4, G5', R2, G5; auto.
Qed.

(** X6. A one-time handler is called by the first [emit] of its event
    and by no later one.  On an emitter used through its methods, with
    handlers that leave the emitter alone and do not throw, an [emit] of
    a name other than "*" calls every handler of the name and every
    wildcard handler and leaves registered, under the name and under
    "*", the handlers that were registered with [on]; under other names
    nothing changes; a second [emit] of the name calls the handlers
    registered with [on] and no other. *)
Theorem once_handlers_leave (n : string) (p : P) (s : state) :
  aloof body -> n <> "*" -> built same ext body result s ->
  let own := live (registered n (emitter s)) in
  let wild := live (registered "*" (emitter s)) in
  existsb (throws body [Payload p]) own = false ->
  existsb (throws body [EventName n; Payload p]) wild = false ->
  exists enough, forall fuel, enough <= fuel ->
  exists s1 s2,
    emit fuel n p s = Done s1 /\
    emit fuel n p s1 = Done s2 /\
    calls s1 =
      calls s ++ map (call_of [Payload p]) own ++
      map (call_of [EventName n; Payload p]) wild /\
    live (registered n (emitter s1)) = staying own /\
    live (registered "*" (emitter s1)) = staying wild /\
    (forall n', n' <> n -> n' <> "*" ->
       registered n' (emitter s1) = registered n' (emitter s)) /\
    calls s2 =
      calls s1 ++ map (call_of [Payload p]) (staying own) ++
      map (call_of [EventName n; Payload p]) (staying wild).
Proof.
  intros Ha Hn B own wild T1 T2.
  pose proof (built_well_formed B) as Wf.
  exists (2 + Nat.max (cost body [Payload p] (registered n (emitter s)))
                      (cost body [EventName n; Payload p]
                            (registered "*" (emitter s)))).
  intros fuel Hf.
  destruct (@emit_leaves n p s Ha Hn Wf T1 T2 fuel Hf)
    as (s1 & E1 & Wf1 & C1 & R1 & R2 & R3).
  assert (L1 : live (registered n (emitter s1)) = staying own)
    by (rewrite R1; apply live_strike).
  assert (L2 : live (registered "*" (emitter s1)) = staying wild)
    by (rewrite R2; apply live_strike).
  destruct (@emit_leaves n p s1 Ha Hn Wf1) with (fuel := fuel)
    as (s2 & E2 & _ & C2 & _).
  { rewrite L1. apply existsb_staying. exact T1. }
  { rewrite L2. apply existsb_staying. exact T2. }
  { rewrite R1, R2.
    pose proof (cost_strike [Payload p] (registered n (emitter s))).
    pose proof (cost_strike [EventName n; Payload p]
                            (registered "*" (emitter s))).
    lia. }
  exists s1, s2. rewrite L1, L2 in C2. repeat split; auto.
Qed.

End EmitterOnce.

Section EmitterOnceExamples.
Import Emitter.

(** The theorem on an emitter with a one-time handler, a handler and a
    one-time wildcard handler. *)
Lemma once_handlers_leave_witness :
  let effects (h : nat) (_ : list (arg unit)) : list (cmd nat unit nat) :=
    [Effect h] in
  let s :=
    with_emitter (once Nat.eqb "*" 3)
      (with_emitter (on Nat.eqb "t" 2)
         (with_emitter (once Nat.eqb "t" 1)
            (mkState create [] [] [] []))) in
  exists enough, forall fuel, enough <= fuel ->
  exists s1 s2,
    emit Nat.eqb (fun x w => w ++ [x]) effects (fun _ => Plain) fuel
         "t" tt s = Done s1 /\
    emit Nat.eqb (fun x w => w ++ [x]) effects (fun _ => Plain) fuel
         "t" tt s1 = Done s2 /\
    map (@callee nat unit) (calls s2) = [1; 2; 3; 2].
Proof.
  assert (Ha : aloof (fun (h : nat) (_ : list (arg unit)) =>
                        [@Effect nat unit nat h])).
  { intros u xs c [<-|[]]. right. eauto. }
  assert (B : built Nat.eqb (fun x w => w ++ [x])
                    (fun (h : nat) (_ : list (arg unit)) =>
                       [@Effect nat unit nat h])
                    (fun _ => Plain)
                    (with_emitter (once Nat.eqb "*" 3)
                       (with_emitter (on Nat.eqb "t" 2)
                          (with_emitter (once Nat.eqb "t" 1)
                             (mkState create [] [] [] []))))).
  { apply built_once, built_on, built_once, built_new. }
  destruct (@once_handlers_leave nat unit (list nat) nat Nat.eqb
              (fun x w => w ++ [x])
              (fun (h : nat) (_ : list (arg unit)) => [Effect h])
              (fun _ => Plain) "t" tt _ Ha ltac:(discriminate) B
              eq_refl eq_refl) as [enough F].
  exists enough. intros fuel Hf.
  destruct (F fuel Hf) as (s1 & s2 & E1 & E2 & C1 & _ & _ & _ & C2).
  exists s1, s2. split; [exact E1|]. split; [exact E2|].
  rewrite C2, C1. reflexivity.
Defined.

End EmitterOnceExamples.

(* ================================================================== *)
(** * More on the database controller *)

Section ControllerMore.

Lemma get_put_other (V : Type) (k k' : string) (v : V) (st : Db.store V) :
  k' <> k -> Db.get k' (Db.put k v st) = Db.get k' st.
Proof.
  intro N. assert (E : String.eqb k k' = false)
    by (apply String.eqb_neq; congruence).
  induction st as [|[k0 v0] r IH]; simpl.
  - rewrite E. reflexivity.
  - destruct (String.compare k k0) eqn:C; simpl.
    + apply String.compare_eq_iff in C. subst k0. rewrite E. reflexivity.
    + rewrite E. reflexivity.
    + rewrite IH. reflexivity.
Qed.

Lemma get_none_in (V : Type) (k : string) (st : Db.store V) :
  Db.get k st = None -> forall v, ~ In (k, v) st.
Proof.
  induction st as [|[k0 v0] r IH]; simpl; [tauto|].
  destruct (String.eqb k0 k) eqn:E; [discriminate|].
  intros G v [Q|Q].
  - injection Q as -> ->. rewrite String.eqb_refl in E. discriminate.
  - exact (IH G v Q).
Qed.

Lemma delete_absent (V : Type) (k : string) (st : Db.store V) :
  Db.get k st = None -> Db.delete k st = st.
Proof.
  induction st as [|[k0 v0] r IH]; simpl; [reflexivity|].
  destruct (String.eqb k0 k); [discriminate|].
  simpl. intro G. rewrite IH; auto.
Qed.

Lemma delete_put (V : Type) (k : string) (v : V) (st : Db.store V) :
  Db.get k st = None -> Db.delete k (Db.put k v st) = st.
Proof.
  induction st as [|[k0 v0] r IH]; simpl.
  - rewrite String.eqb_refl. reflexivity.
  - destruct (String.eqb k0 k) eqn:E; [discriminate|]. intro G.
    destruct (String.compare k k0) eqn:C; simpl.
    + apply String.compare_eq_iff in C. subst k0.
      rewrite String.eqb_refl in E. discriminate.
    + rewrite String.eqb_refl, E. simpl.
      rewrite (delete_absent _ _ G). reflexivity.
    + rewrite E. simpl. rewrite IH; auto.
Qed.

Lemma get_delete (V : Type) (k k' : string) (st : Db.store V) :
  Db.get k' (Db.delete k st) =
  if String.eqb k k' then None else Db.get k' st.
Proof.
  induction st as [|[k0 v0] r IH]; simpl.
  - destruct (String.eqb k k'); reflexivity.
  - destruct (String.eqb k0 k) eqn:E; simpl.
    + apply String.eqb_eq in E. subst k0. rewrite IH.
      destruct (String.eqb k k'); reflexivity.
    + rewrite IH. destruct (String.eqb k0 k') eqn:F; auto.
      apply String.eqb_eq in F. subst k0.
      rewrite String.eqb_sym, E. reflexivity.
Qed.

(** X7. What [update] writes, [get] and [getAll] read.  After a
    successful [update(value, key)] the call resolves to the key used
    (the one given or, for an empty one, a fresh identifier); [get]
    returns the value for that key and what it returned before for
    every other key; [getAll] lists the record; the store is still in
    key order, so that there is one record per key; and the relays and
    permissions are as they were.  A failed [update] changes nothing,
    and after a failure [get] returns [null]. *)
Theorem update_round_trip (value : Js.value) (key uuid : string)
        (db : Db.t) (e : string) :
  Db.sorted (Db.data db) ->
  let k := Db.or_uuid key uuid in
  let db' := snd (Db.update value key uuid Db.Succeeds db) in
  fst (Db.update value key uuid Db.Succeeds db) = Db.Ok k /\
  (key <> EmptyString -> k = key) /\
  (forall k', Db.getValue k' Db.Succeeds db' =
              if String.eqb k k' then value
              else Db.getValue k' Db.Succeeds db) /\
  (exists all, Db.getAll Db.Succeeds db' = Db.Ok all /\ In (k, value) all /\
               forall v, In (k, v) all -> v = value) /\
  Db.sorted (Db.data db') /\
  Db.relays db' = Db.relays db /\
  Db.permissions db' = Db.permissions db /\
  snd (Db.update value key uuid (Db.Rejects e) db) = db /\
  Db.getValue k (Db.Rejects e) db' = Js.Null.
Proof.
  intros Hs k db'. unfold db', Db.update. cbn [fst snd]. fold k.
  split; [reflexivity|]. split.
  { intro N. unfold k, Db.or_uuid. apply String.eqb_neq in N.
    rewrite N. reflexivity. }
  split.
  { intro k'. unfold Db.getValue. cbn [Db.data].
    destruct (String.eqb k k') eqn:E.
    - apply String.eqb_eq in E. subst k'. rewrite get_put_same.
      reflexivity.
    - apply String.eqb_neq in E. rewrite get_put_other; [reflexivity|].
      congruence. }
  split.
  { exists (Db.put k value (Db.data db)). split; [reflexivity|].
    split; [apply in_put_same|].
    intros v Hin.
    pose proof (@sorted_get _ k v _ (sorted_put k value _ Hs) Hin) as G.
    rewrite get_put_same in G. congruence. }
  split; [apply sorted_put; exact Hs|]. auto.
Qed.

(** The theorem on a store with one record: a second one is written,
    then the first one is overwritten. *)
Lemma update_round_trip_witness :
  let db := Db.mk [("b", Js.Num 1)] [] [] in
  let db1 := snd (Db.update (Js.Num 2) "a" "id" Db.Succeeds db) in
  let db2 := snd (Db.update (Js.Num 3) "b" "id" Db.Succeeds db1) in
  Db.data db2 = [("a", Js.Num 2); ("b", Js.Num 3)] /\
  Db.getValue "a" Db.Succeeds db1 = Js.Num 2 /\
  Db.getValue "c" Db.Succeeds db1 = Js.Undefined.
Proof.
  split; [reflexivity|].
  assert (S : Db.sorted [("b", Js.Num 1)]).
  { simpl. split; [intros ? ? []|exact I]. }
  pose proof (@update_round_trip (Js.Num 2) "a" "id"
                (Db.mk [("b", Js.Num 1)] [] []) EmptyString S)
    as (_ & _ & G & _).
  split; [exact (G "a")|exact (G "c")].
Defined.

(** X8. Relays: add, list, remove.  On a relay store in key order, and
    no subscriber being registered, [addRelay(url)] under a fresh
    identifier resolves to that identifier and [getRelays] lists the
    relay, the store staying in key order; [removeRelay] of the
    identifier gives the store back as it was.  [removeRelay] of a key
    the store does not hold succeeds and changes nothing.  A failed
    transaction changes nothing and rejects with the name of the
    operation before the cause. *)
Theorem relay_add_remove (url uuid : string) (db : Db.t) (e : string) :
  Db.sorted (Db.relays db) ->
  Db.get uuid (Db.relays db) = None ->
  let db1 := snd (Db.addRelay url uuid Db.Succeeds db) in
  fst (Db.addRelay url uuid Db.Succeeds db) = Db.Ok uuid /\
  (exists all, Db.getRelays Db.Succeeds db1 = Db.Ok all /\
               Db.sorted all /\
               forall k v, In (k, v) all <->
                           (k, v) = (uuid, url) \/ In (k, v) (Db.relays db)) /\
  Db.removeRelay uuid Db.Succeeds db1 = (Db.Ok tt, db) /\
  Db.removeRelay uuid Db.Succeeds db = (Db.Ok tt, db) /\
  Db.addRelay url uuid (Db.Rejects e) db =
    (Db.Err ("Failed to add relay: " +++ e), db) /\
  Db.removeRelay uuid (Db.Rejects e) db =
    (Db.Err ("Failed to remove relay: " +++ e), db).
Proof.
  intros Hs Hf db1. unfold db1, Db.addRelay. rewrite Hf. cbn [fst snd].
  split; [reflexivity|]. split.
  { exists (Db.put uuid url (Db.relays db)). split; [reflexivity|].
    split; [apply sorted_put; exact Hs|].
    intros k v. split.
    - apply in_put.
    - intros [Q|Q].
      + injection Q as -> ->. apply in_put_same.
      + destruct (String.eqb k uuid) eqn:E.
        * apply String.eqb_eq in E. subst k.
          destruct (get_none_in _ _ Hf v Q).
        * apply get_in. rewrite get_put_other.
          -- apply sorted_get; assumption.
          -- apply String.eqb_neq. exact E. }
  destruct db as [d r p]. unfold Db.removeRelay. simpl in *.
  rewrite delete_put, delete_absent by exact Hf. auto.
Qed.

(** The theorem on a store that holds the default relay. *)
Lemma relay_add_remove_witness :
  let db := Db.mk [] [("default", Db.defaultRelay)] [] in
  let db1 := snd (Db.addRelay "wss://relay.example" "abc" Db.Succeeds db) in
  Db.relays db1 = [("abc", "wss://relay.example");
                   ("default", Db.defaultRelay)] /\
  Db.removeRelay "abc" Db.Succeeds db1 = (Db.Ok tt, db).
Proof.
  split; [reflexivity|].
  assert (S : Db.sorted [("default", Db.defaultRelay)]).
  { simpl. split; [intros ? ? []|exact I]. }
  exact (proj1 (proj2 (proj2
    (@relay_add_remove "wss://relay.example" "abc"
       (Db.mk [] [("default", Db.defaultRelay)] []) EmptyString S eq_refl)))).
Defined.

Lemma compare_gt_lt_inv (a b : string) :
  String.compare a b = Lt -> String.compare b a = Gt.
Proof.
  intro C. rewrite String.compare_antisym, C. reflexivity.
Qed.

Lemma find_in (A : Type) (m : A -> bool) (l : list A) x :
  find m l = Some x -> In x l.
Proof. intro F. apply find_some in F. tauto. Qed.

Lemma find_put (V : Type) (m : string * V -> bool) (k : string) (v : V)
      (st : Db.store V) :
  Db.sorted st -> m (k, v) = true ->
  find m (Db.put k v st) =
  match find m st with
  | Some (k0, v0) =>
      match String.compare k0 k with
      | Lt => Some (k0, v0)
      | _ => Some (k, v)
      end
  | None => Some (k, v)
  end.
Proof.
  intros Hs Hm. induction st as [|[k0 v0] r IH]; simpl.
  - rewrite Hm. reflexivity.
  - destruct Hs as [Hlo Hr].
    destruct (String.compare k k0) eqn:C; simpl.
    + apply String.compare_eq_iff in C. subst k0. rewrite Hm.
      destruct (m (k, v0)).
      * rewrite compare_refl. reflexivity.
      * destruct (find m r) as [[k1 v1]|] eqn:F; auto.
        apply find_in in F. apply Hlo in F.
        rewrite (compare_gt_lt_inv _ _ F). reflexivity.
    + rewrite Hm.
      assert (G : forall k1 v1, In (k1, v1) ((k0, v0) :: r) ->
                                String.compare k1 k = Gt).
      { intros k1 v1 [Q|Q].
        - injection Q as <- <-. apply compare_gt_lt_inv. exact C.
        - apply compare_gt_lt_inv. eapply compare_lt_trans; eauto. }
      destruct (m (k0, v0)) eqn:M0.
      * rewrite (G k0 v0 (or_introl eq_refl)). reflexivity.
      * destruct (find m r) as [[k1 v1]|] eqn:F; auto.
        apply find_in in F. rewrite (G k1 v1 (or_intror F)). reflexivity.
    + destruct (m (k0, v0)) eqn:M0.
      * rewrite (compare_gt_lt _ _ C). reflexivity.
      * apply IH. exact Hr.
Qed.

Lemma find_put_other (V : Type) (m : string * V -> bool) (k : string)
      (v : V) (st : Db.store V) :
  Db.get k st = None -> m (k, v) = false ->
  find m (Db.put k v st) = find m st.
Proof.
  intros Hf Hm. induction st as [|[k0 v0] r IH]; simpl in *.
  - rewrite Hm. reflexivity.
  - destruct (String.eqb k0 k) eqn:E; [discriminate|].
    destruct (String.compare k k0) eqn:C; simpl.
    + apply String.compare_eq_iff in C. subst k0.
      rewrite String.eqb_refl in E. discriminate.
    + rewrite Hm. reflexivity.
    + rewrite IH; auto.
Qed.

(** X9. Which remembered decision counts.  (No subscriber is
    registered.)  [setPermission] stores every decision under a fresh
    random key and [getPermission] takes the first record of the task
    type in key order.  So after a successful [setPermission] for a
    type, on a permission store in key order, [getPermission] of that
    type returns the new decision when the store held no record of the
    type, or none with a smaller key, and still the old one when it held
    one with a smaller key: of two decisions for one type the one with
    the smaller key counts, not the later one.  The decisions for other
    types are not affected when the key is indeed fresh.  A store that
    fails is read as no decision. *)
Theorem decision_by_key_order (ty : string) (ok rem : bool)
        (uuid : string) (db : Db.t) (e : string) :
  Db.sorted (Db.permissions db) ->
  let decision := Db.mkPermission (Js.Str ty) ok rem in
  let db' := snd (Db.setPermission (Js.Str ty) ok rem uuid Db.Succeeds db) in
  Db.getPermission (Js.Str ty) Db.Succeeds db' =
    match find (fun p => Js.strict_equal_copy (Db.taskType (snd p))
                                              (Js.Str ty))
               (Db.permissions db) with
    | Some (k, old) =>
        match String.compare k uuid with
        | Lt => Db.Ok (Some old)
        | _ => Db.Ok (Some decision)
        end
    | None => Db.Ok (Some decision)
    end /\
  (forall ty' : Js.value, ty' <> Js.Str ty ->
     Db.get uuid (Db.permissions db) = None ->
     Db.getPermission ty' Db.Succeeds db' =
     Db.getPermission ty' Db.Succeeds db) /\
  Db.getPermission (Js.Str ty) (Db.Rejects e) db' = Db.Ok None.
Proof.
  intros Hs decision db'. unfold db', Db.setPermission, Db.getPermission,
    Db.getPermissions. cbn [snd Db.permissions].
  split; [|split; [|reflexivity]].
  - rewrite find_put; [|exact Hs|simpl; apply String.eqb_refl].
    destruct (find (fun p => Js.strict_equal_copy (Db.taskType (snd p))
                                                  (Js.Str ty))
                   (Db.permissions db)) as [[k old]|]; auto.
    destruct (String.compare k uuid); reflexivity.
  - intros ty' N Hf. rewrite find_put_other; auto.
    simpl. destruct ty'; try reflexivity.
    apply String.eqb_neq. congruence.
Qed.

(** The theorem on a store that holds a denial for "sign" under key
    "a": an approval stored under "b" does not count, one stored under
    "0" does. *)
Lemma decision_by_key_order_witness :
  let sign := Js.Str "sign" in
  let db := Db.mk [] [] [("a", Db.mkPermission sign false true)] in
  Db.getPermission sign Db.Succeeds
    (snd (Db.setPermission sign true true "b" Db.Succeeds db)) =
    Db.Ok (Some (Db.mkPermission sign false true)) /\
  Db.getPermission sign Db.Succeeds
    (snd (Db.setPermission sign true true "0" Db.Succeeds db)) =
    Db.Ok (Some (Db.mkPermission sign true true)).
Proof.
  assert (S : Db.sorted [("a", Db.mkPermission (Js.Str "sign") false true)]).
  { simpl. split; [intros ? ? []|exact I]. }
  split.
  - exact (proj1 (@decision_by_key_order "sign" true true "b"
             (Db.mk [] [] [("a", Db.mkPermission (Js.Str "sign") false true)])
             EmptyString S)).
  - exact (proj1 (@decision_by_key_order "sign" true true "0"
             (Db.mk [] [] [("a", Db.mkPermission (Js.Str "sign") false true)])
             EmptyString S)).
Defined.


(** X11. A subscriber that throws makes [update] fail after the fact.
    The subscribers are notified inside the [try] of [update], once the
    value is stored: so the store is written whatever they do; when all
    of them return, each has been called, in the order of subscription,
    and [update] resolves to the key; when one throws, [update] rejects
    with what it threw although the value is stored, and the subscribers
    after it are not called.  Without subscribers this [update] is the
    one of the service. *)
Theorem update_survives_subscribers (value : Js.value) (key uuid : string)
        (db : Db.t) (before after : list Db.subscriber)
        (sub : Db.subscriber) (message : string) :
  forallb (fun s => match Db.sub_throws s with
                    | None => true
                    | Some _ => false
                    end) before = true ->
  Db.sub_throws sub = Some message ->
  Db.update_notifying value key uuid Db.Succeeds before db =
    (Db.Ok (Db.or_uuid key uuid),
     snd (Db.update value key uuid Db.Succeeds db),
     map Db.sub_id before) /\
  Db.update_notifying value key uuid Db.Succeeds
                      (before ++ sub :: after) db =
    (Db.Err ("Failed to update data: " +++ message),
     snd (Db.update value key uuid Db.Succeeds db),
     map Db.sub_id before ++ [Db.sub_id sub]) /\
  (forall o,
     Db.update_notifying value key uuid o [] db =
     (Db.update value key uuid o db, [])).
Proof.
  intros Hb Hs.
  assert (N1 : Db.notifySubscribers before = (map Db.sub_id before, None)).
  { induction before as [|s r IH]; simpl in *; [reflexivity|].
    destruct (Db.sub_throws s); [discriminate|]. rewrite IH; auto. }
  assert (N2 : Db.notifySubscribers (before ++ sub :: after) =
               (map Db.sub_id before ++ [Db.sub_id sub], Some message)).
  { clear N1. induction before as [|s r IH]; simpl in *.
    - rewrite Hs. reflexivity.
    - destruct (Db.sub_throws s); [discriminate|]. rewrite IH; auto. }
  unfold Db.update_notifying. rewrite N1, N2.
  split; [reflexivity|]. split; [reflexivity|].
  intros [|e]; reflexivity.
Qed.

(** The theorem with three subscribers, the second of which throws. *)
Lemma update_survives_subscribers_witness :
  let quiet := Db.mkSubscriber 1 None in
  let loud := Db.mkSubscriber 2 (Some "boom") in
  let late := Db.mkSubscriber 3 None in
  Db.update_notifying (Js.Num 1) "k" "id" Db.Succeeds [quiet; loud; late]
                      Db.empty =
    (Db.Err "Failed to update data: boom", Db.mk [("k", Js.Num 1)] [] [],
     [1; 2]).
Proof.
  exact (proj1 (proj2
    (@update_survives_subscribers (Js.Num 1) "k" "id" Db.empty
       [Db.mkSubscriber 1 None] [Db.mkSubscriber 3 None]
       (Db.mkSubscriber 2 (Some "boom")) "boom" eq_refl eq_refl))).
Defined.

Lemma notified_subscribed (l : list Db.subscriber) x :
  In x (fst (Db.notifySubscribers l)) -> In x (map Db.sub_id l).
Proof.
  induction l as [|s r IH]; simpl; [tauto|].
  destruct (Db.sub_throws s).
  - simpl. tauto.
  - destruct (Db.notifySubscribers r) as [called thrown]. simpl in *.
    intros [Q|Q]; auto.
Qed.

(** X12. Unsubscribing removes the callback however often it was
    subscribed.  The function that [subscribe] returns filters the
    callback out of the list: after it, no notification calls the
    callback, even if it had been subscribed twice and is unsubscribed
    once; the other subscribers are kept, in their order; and
    subscribing a new callback and unsubscribing it gives the list
    back. *)
Theorem unsubscribe_removes_all (callback : Db.subscriber)
        (subscribers : list Db.subscriber) :
  let left := Db.unsubscribe callback
                (Db.subscribe callback
                   (Db.subscribe callback subscribers)) in
  ~ In (Db.sub_id callback) (fst (Db.notifySubscribers left)) /\
  left = Db.unsubscribe callback subscribers /\
  (forall s, In s left <->
             In s subscribers /\ Db.sub_id s <> Db.sub_id callback) /\
  (~ In (Db.sub_id callback) (map Db.sub_id subscribers) ->
   Db.unsubscribe callback (Db.subscribe callback subscribers) =
     subscribers).
Proof.
  intro left.
  assert (E : left = Db.unsubscribe callback subscribers).
  { unfold left, Db.unsubscribe, Db.subscribe. rewrite !filter_app. simpl.
    rewrite Nat.eqb_refl. simpl. rewrite !app_nil_r. reflexivity. }
  assert (K : forall l, ~ In (Db.sub_id callback)
                          (fst (Db.notifySubscribers
                                  (Db.unsubscribe callback l)))).
  { intros l Hin. apply notified_subscribed in Hin.
    apply in_map_iff in Hin. destruct Hin as (s & Q & Hin).
    apply filter_In in Hin. destruct Hin as [_ Hin].
    apply negb_true_iff, Nat.eqb_neq in Hin. auto. }
  split; [rewrite E; apply K|]. split; [exact E|]. split.
  { intro s. rewrite E. unfold Db.unsubscribe. rewrite filter_In.
    rewrite negb_true_iff, Nat.eqb_neq. reflexivity. }
  intro N. unfold Db.unsubscribe, Db.subscribe. rewrite filter_app. simpl.
  rewrite Nat.eqb_refl. simpl. rewrite app_nil_r.
  apply filter_all. apply forallb_forall. intros s Hin.
  apply negb_true_iff, Nat.eqb_neq. intro Q. apply N.
  apply in_map_iff. exists s. auto.
Qed.

End ControllerMore.

(* ================================================================== *)
(** * The service, act by act *)

Section ServiceActs.
Import Service.

Lemma perform_all_app l1 l2 c :
  perform_all (l1 ++ l2) c = perform_all l2 (perform_all l1 c).
Proof. unfold perform_all. apply fold_left_app. Qed.

Lemma after_plain_refl c : after_plain c c.
Proof. exists []. auto. Qed.

Lemma after_plain_act a c c1 :
  plain a = true -> after_plain c c1 -> after_plain c (perform a c1).
Proof.
  intros Pa (l & F & E). exists (l ++ [a]). split.
  - rewrite forallb_app, F. simpl. rewrite Pa. reflexivity.
  - rewrite perform_all_app, <- E. reflexivity.
Qed.

Lemma after_plain_log e c c1 :
  plain (Log e) = true -> after_plain c c1 -> after_plain c (log e c1).
Proof. apply (@after_plain_act (Log e)). Qed.

Lemma after_plain_spawn k c c1 :
  inert k = true -> after_plain c c1 -> after_plain c (spawn k c1).
Proof. apply (@after_plain_act (Spawn k)). Qed.

Lemma after_plain_settle f v c c1 :
  after_plain c c1 -> after_plain c (settle f v c1).
Proof. apply (@after_plain_act (Settle f v)). reflexivity. Qed.

Lemma after_plain_with_db d c c1 :
  after_plain c c1 -> after_plain c (with_db d c1).
Proof. apply (@after_plain_act (Store d)). reflexivity. Qed.

Lemma after_plain_randomUUID c c1 :
  after_plain c c1 -> after_plain c (snd (randomUUID c1)).
Proof. apply (@after_plain_act Draw). reflexivity. Qed.

Lemma after_plain_send message c c1 :
  after_plain c c1 -> after_plain c (sendToFrontend message c1).
Proof. apply (@after_plain_act (Send message)). reflexivity. Qed.

Ltac plain_step :=
  first [ apply after_plain_settle
        | apply after_plain_send
        | apply after_plain_with_db
        | apply after_plain_randomUUID
        | apply after_plain_log; [reflexivity|]
        | apply after_plain_spawn; [reflexivity|] ].

Ltac plain_steps :=
  repeat plain_step; try assumption; try apply after_plain_refl.

Lemma after_plain_executeTask f task c c1 :
  after_plain c c1 -> after_plain c (executeTask f task c1).
Proof.
  intro U. unfold executeTask.
  destruct (nullish task); [plain_steps|].
  destruct (String.eqb (Js.str_prop "key" task) EmptyString);
    [|plain_steps].
  plain_step.
  apply (@after_plain_randomUUID c (log (Executing f) c1)).
  plain_steps.
Qed.

Lemma after_plain_db_update value key o c c1 :
  after_plain c c1 -> after_plain c (snd (db_update value key o c1)).
Proof.
  intro U. unfold db_update.
  destruct (Db.update value key (uuids c1 (drawn c1)) o (db c1)) as [r d].
  destruct o; [destruct (String.eqb key EmptyString)|];
    cbn [snd]; plain_steps.
Qed.

Lemma after_plain_afterUpdate f task key o c :
  after_plain c (afterUpdate f task key o c).
Proof.
  unfold afterUpdate.
  pose proof (@after_plain_db_update task key o c c (after_plain_refl c))
    as U.
  destruct (db_update task key o c) as [[r|e] c1]; simpl in U;
    plain_steps.
Qed.

Lemma after_plain_onPromptResponse w r c :
  after_plain c (onPromptResponse w r c).
Proof.
  unfold onPromptResponse.
  assert (U : after_plain c
    match remember r with
    | Some true =>
        spawn (SetPermission (w_flow w) (w_taskType w) (approved r))
          (log (PersistStarted (w_flow w) (w_taskType w) (approved r))
               (log (ResponseReceived (w_flow w) r) c))
    | _ => log (ResponseReceived (w_flow w) r) c
    end).
  { destruct (remember r) as [[|]|]; plain_steps. }
  destruct (approved r).
  - apply after_plain_executeTask. exact U.
  - plain_steps.
Qed.

Lemma after_plain_afterSetPermission f ty ok o c :
  after_plain c (afterSetPermission f ty ok o c).
Proof.
  unfold afterSetPermission.
  pose proof (@after_plain_randomUUID c c (after_plain_refl c)) as U.
  destruct (randomUUID c) as [uuid c1]. simpl in U.
  destruct (Db.setPermission ty ok true uuid o (db c1)) as [[key|e] d];
    plain_steps.
Qed.

Lemma after_plain_afterGetAll o c : after_plain c (afterGetAll o c).
Proof.
  unfold afterGetAll. destruct (Db.getAll o (db c)); plain_steps.
Qed.

Lemma after_plain_afterUpdateSetting key value o c :
  after_plain c (afterUpdateSetting key value o c).
Proof.
  unfold afterUpdateSetting, fetchSettings.
  match goal with |- context [db_update ?v key o c] =>
    pose proof (@after_plain_db_update v key o c c (after_plain_refl c))
      as U;
    destruct (db_update v key o c) as [[r|e] c1] end; simpl in U;
    plain_steps.
Qed.

Lemma after_plain_afterGetRelays o c : after_plain c (afterGetRelays o c).
Proof.
  unfold afterGetRelays. destruct (Db.getRelays o (db c)); plain_steps.
Qed.

Lemma after_plain_afterAddRelay url o c :
  after_plain c (afterAddRelay url o c).
Proof.
  unfold afterAddRelay, fetchRelays.
  pose proof (@after_plain_randomUUID c c (after_plain_refl c)) as U.
  destruct (randomUUID c) as [uuid c1]. simpl in U.
  destruct (Db.addRelay url uuid o (db c1)) as [[key|e] d]; plain_steps.
Qed.

Lemma after_plain_afterRemoveRelay key o c :
  after_plain c (afterRemoveRelay key o c).
Proof.
  unfold afterRemoveRelay, fetchRelays.
  destruct (Db.removeRelay key o (db c)) as [[u|e] d]; plain_steps.
Qed.

Lemma after_plain_afterGetPermissions o c :
  after_plain c (afterGetPermissions o c).
Proof.
  unfold afterGetPermissions.
  destruct (Db.getPermissions o (db c)); plain_steps.
Qed.

(** What resuming an inert continuation does, once it is taken from the
    scheduler. *)
Lemma after_plain_resume k o (s : state) :
  inert k = true ->
  after_plain (Emitter.world s) (Emitter.world (resume k o s)) /\
  Emitter.emitter (resume k o s) = Emitter.emitter s.
Proof.
  intro Hk. destruct k; try discriminate; simpl; split; try reflexivity.
  - apply after_plain_afterUpdate.
  - apply after_plain_afterSetPermission.
  - apply after_plain_afterGetAll.
  - apply after_plain_afterUpdateSetting.
  - apply after_plain_afterGetRelays.
  - apply after_plain_afterAddRelay.
  - apply after_plain_afterRemoveRelay.
  - apply after_plain_afterGetPermissions.
Qed.

(** ** Properties kept by every run *)

Section Invariant.
Variable I : core -> Prop.
Hypothesis I_act : forall a c, plain a = true -> I c -> I (perform a c).
Hypothesis I_task : forall task ra c, I c -> I (processTask task ra c).
Hypothesis I_taken : forall i k c,
  nth_error (pending c) i = Some k -> inert k = true -> I c ->
  I (with_pending (remove_nth i (pending c)) c).
Hypothesis I_lookup : forall i flow task ty o c,
  nth_error (pending c) i = Some (GetPermission flow task ty) -> I c ->
  I (afterGetPermission flow task ty o
       (with_pending (remove_nth i (pending c)) c)).
Hypothesis I_prompt : forall i flow task ty c,
  nth_error (pending c) i = Some (Acquire flow task ty) -> I c ->
  let c0 := with_pending (remove_nth i (pending c)) c in
  I (releaseLock flow
       (sendToFrontend (PROMPT (uuids c0 (drawn c0)) task)
          (log (PromptSent flow (uuids c0 (drawn c0)))
               (snd (randomUUID c0))))).

Lemma I_plain c c' : after_plain c c' -> I c -> I c'.
Proof.
  intros (l & F & ->). revert c F.
  induction l as [|a l IH]; intros c F Hc; simpl in *; [exact Hc|].
  apply andb_prop in F. destruct F as [Fa F].
  apply IH; auto.
Qed.

Lemma invariant_next i (s : state) :
  I (Emitter.world s) -> I (Emitter.world (next i s)).
Proof.
  intro Hs. unfold next, step. destruct i as [message|n o].
  - destruct message; simpl; auto;
      try (apply (@I_act (Spawn _)); [reflexivity|exact Hs]).
    unfold emit.
    pose proof (proj1 (@emit_keeps_world _ _ _ _ same handler_effect
                         handler_body handler_result I
                         (fun x w =>
                            @I_plain w _
                              (@after_plain_onPromptResponse
                                 (fst x) (snd x) w))
                         (emit_fuel s))
                      (topic promptId) response s Hs) as F.
    destruct (Emitter.emit same handler_effect handler_body handler_result
                           (emit_fuel s) (topic promptId) response s);
      simpl in F; auto.
  - destruct (nth_error (pending (Emitter.world s)) n) as [k|] eqn:E; auto.
    destruct (inert k) eqn:Hk.
    + set (s0 := lift (fun c => with_pending (remove_nth n (pending c)) c) s).
      destruct (@after_plain_resume k o s0 Hk) as [A _].
      apply (I_plain A). unfold s0. simpl. eapply I_taken; eauto.
    + destruct k; try discriminate.
      * simpl. eapply I_lookup; eauto.
      * cbn [resume]. rewrite world_prompt. exact (I_prompt _ E Hs).
Qed.

Lemma invariant_run inputs : forall (s : state),
  I (Emitter.world s) -> I (Emitter.world (run inputs s)).
Proof.
  induction inputs as [|i r IH]; simpl; intros s Hs; auto.
  apply IH. apply invariant_next. exact Hs.
Qed.

End Invariant.

End ServiceActs.

(* ================================================================== *)
(** * What every run of the service keeps *)

Section ServiceInvariants.
Import Service.

(** The fields that a plain act leaves alone, and what it adds. *)
Lemma plain_fields a c :
  plain a = true ->
  mutex (perform a c) = mutex c /\
  waiting (perform a c) = waiting c /\
  flows (perform a c) = flows c /\
  (pending (perform a c) = pending c \/
   exists k, inert k = true /\ pending (perform a c) = pending c ++ [k]) /\
  (events (perform a c) = events c \/
   exists e, (forall f, is_prompt f e = false) /\
             events (perform a c) = events c ++ [e]).
Proof.
  destruct a; try discriminate; simpl; intro Pa; repeat split; auto.
  - right. exists e. split; [|reflexivity].
    destruct e; try discriminate; reflexivity.
  - right. exists k. auto.
  - unfold sendToFrontend. destruct (lastSentMessage c) as [last|];
      [destruct (String.eqb last (messageStr m))|]; reflexivity.
  - unfold sendToFrontend. destruct (lastSentMessage c) as [last|];
      [destruct (String.eqb last (messageStr m))|]; reflexivity.
  - unfold sendToFrontend. destruct (lastSentMessage c) as [last|];
      [destruct (String.eqb last (messageStr m))|]; reflexivity.
  - left. unfold sendToFrontend. destruct (lastSentMessage c) as [last|];
      [destruct (String.eqb last (messageStr m))|]; reflexivity.
  - left. unfold sendToFrontend. destruct (lastSentMessage c) as [last|];
      [destruct (String.eqb last (messageStr m))|]; reflexivity.
Qed.

Lemma inert_asks f k : inert k = true -> asks f k = false.
Proof. destruct k; simpl; auto; discriminate. Qed.

Lemma inert_acquire k : inert k = true -> is_acquire k = false.
Proof. destruct k; simpl; auto; discriminate. Qed.

Lemma filter_snoc (A : Type) (p : A -> bool) (l : list A) x :
  p x = false -> filter p (l ++ [x]) = filter p l.
Proof. intro E. rewrite filter_app. simpl. rewrite E. apply app_nil_r. Qed.

(** What a plain act leaves as it is. *)
Lemma plain_keeps a c :
  plain a = true ->
  mutex (perform a c) = mutex c /\
  waiting (perform a c) = waiting c /\
  flows (perform a c) = flows c /\
  filter is_acquire (pending (perform a c)) =
    filter is_acquire (pending c) /\
  (forall f, asking f (perform a c) = asking f c) /\
  (forall f, prompts f (perform a c) = prompts f c).
Proof.
  intro Pa. destruct (plain_fields a c Pa) as (M & Wt & Fl & Pe & Ev).
  split; [exact M|]. split; [exact Wt|]. split; [exact Fl|].
  split; [|split].
  - destruct Pe as [->|(k & Hk & ->)]; auto.
    apply filter_snoc, inert_acquire, Hk.
  - intro f. unfold asking. rewrite Wt.
    destruct Pe as [->|(k & Hk & ->)]; auto.
    rewrite filter_snoc; auto. apply inert_asks, Hk.
  - intro f. unfold prompts.
    destruct Ev as [->|(e & He & ->)]; auto.
    rewrite filter_snoc; auto.
Qed.

Lemma after_plain_keeps c c' :
  after_plain c c' ->
  mutex c' = mutex c /\ waiting c' = waiting c /\ flows c' = flows c /\
  filter is_acquire (pending c') = filter is_acquire (pending c) /\
  (forall f, asking f c' = asking f c) /\
  (forall f, prompts f c' = prompts f c).
Proof.
  intros (l & F & ->). revert c F.
  induction l as [|a l IH]; intros c F; simpl in *; [repeat split; auto|].
  apply andb_prop in F. destruct F as [Fa F].
  destruct (IH (perform a c) F) as (M & Wt & Fl & Pe & As & Pr).
  destruct (plain_keeps a c Fa) as (M1 & Wt1 & Fl1 & Pe1 & As1 & Pr1).
  unfold perform_all in *.
  rewrite M, Wt, Fl, Pe, M1, Wt1, Fl1, Pe1. repeat split; auto.
  - intro f. rewrite As, As1. reflexivity.
  - intro f. rewrite Pr, Pr1. reflexivity.
Qed.

(** ** The lock and the calls around it *)

Lemma lockstep_boot uuids d : lockstep (Emitter.world (boot uuids d)).
Proof. repeat split. Qed.

Lemma lockstep_keeps c c' :
  mutex c' = mutex c -> waiting c' = waiting c ->
  filter is_acquire (pending c') = filter is_acquire (pending c) ->
  lockstep c -> lockstep c'.
Proof. unfold lockstep. intros -> -> ->. auto. Qed.

Lemma lockstep_acquireLock f task ty c :
  lockstep c -> lockstep (acquireLock f task ty c).
Proof.
  intros (Q & N & Z). unfold acquireLock, Mutex.acquire.
  destruct (Mutex.locked (mutex c)) eqn:L; simpl.
  - unfold lockstep. simpl. rewrite map_app, Q. simpl.
    split; [reflexivity|]. split; [exact N|discriminate].
  - unfold lockstep. simpl. rewrite filter_app, length_app, N. simpl.
    split; [exact Q|]. split; [reflexivity|discriminate].
Qed.

Lemma take_waiting_head f x w :
  take_waiting f ((f, x) :: w) = (Some x, w).
Proof. simpl. rewrite Nat.eqb_refl. reflexivity. Qed.

Lemma lockstep_releaseLock f c :
  map fst (waiting c) = Mutex.queue (mutex c) ->
  filter is_acquire (pending c) = [] ->
  lockstep (releaseLock f c).
Proof.
  intros Q N. unfold releaseLock, Mutex.release.
  destruct (Mutex.queue (mutex c)) as [|next rest] eqn:E.
  - simpl. unfold lockstep. simpl. rewrite N.
    destruct (waiting c); [auto|discriminate].
  - destruct (waiting c) as [|[g [task ty]] w] eqn:Ew; [discriminate|].
    simpl in Q. injection Q as -> Q.
    unfold Mutex.wake, wake. cbn [fst snd].
    cbn [log with_mutex waiting]. rewrite Ew, take_waiting_head.
    unfold lockstep. simpl. rewrite filter_app, N. simpl.
    split; [exact Q|]. split; [reflexivity|discriminate].
Qed.

Lemma count_taken (A : Type) (p : A -> bool) (l : list A) i x :
  nth_error l i = Some x -> p x = false ->
  filter p (remove_nth i l) = filter p l.
Proof.
  revert i. induction l as [|y r IH]; intros [|i]; simpl; try discriminate.
  - intros Q E. injection Q as ->. rewrite E. reflexivity.
  - intros Q E. rewrite (IH i Q E). reflexivity.
Qed.

Lemma lockstep_processTask task ra c :
  lockstep c -> lockstep (processTask task ra c).
Proof.
  intro L. unfold processTask. simpl.
  set (c1 := log (Processing (flows c) ra) (snd (new_flow c))).
  assert (L1 : lockstep c1) by exact L.
  destruct ra.
  - destruct (nullish task); [exact L1|].
    revert L1. apply lockstep_keeps; try reflexivity.
    simpl. apply filter_snoc. reflexivity.
  - destruct (after_plain_keeps
                (@after_plain_executeTask (flows c) task c1 c1
                   (after_plain_refl c1))) as (M & Wt & _ & Pe & _).
    revert L1. apply lockstep_keeps; assumption.
Qed.

(** X13. The lock is never held across a wait.  In every state the
    service reaches, the queue of the mutex holds exactly the calls that
    wait for the lock, in their order; the mutex is locked exactly when
    one call has been handed the lock and its continuation is with the
    scheduler, about to send its prompt and to release the lock in the
    same step; and when the mutex is free nobody waits.  So no call is
    left waiting for a lock that nobody is about to release. *)
Theorem lock_follows_the_calls
        (uuids : nat -> string) (d : Db.t) (inputs : list input) :
  let c := Emitter.world (run inputs (boot uuids d)) in
  lockstep c /\
  (waiting c <> [] ->
   exists flow task ty, In (Acquire flow task ty) (pending c)).
Proof.
  intro c.
  assert (L : lockstep c).
  { unfold c. apply invariant_run; [| | | | |apply lockstep_boot].
    - intros a c0 Pa. destruct (plain_keeps a c0 Pa) as (M & Wt & _ & Pe & _).
      apply lockstep_keeps; assumption.
    - apply lockstep_processTask.
    - intros i k c0 E Hk. apply lockstep_keeps; try reflexivity.
      simpl. eapply count_taken; eauto. apply inert_acquire, Hk.
    - intros i flow task ty o c0 E L0.
      set (c1 := with_pending (remove_nth i (pending c0)) c0).
      assert (L1 : lockstep c1).
      { revert L0. apply lockstep_keeps; try reflexivity.
        simpl. eapply count_taken; eauto. }
      unfold afterGetPermission.
      destruct (Db.getPermission ty o (db c1)) as [[p|]|e];
        try (apply lockstep_acquireLock; exact L1).
      + destruct (Db.remember p);
          [|apply lockstep_acquireLock; exact L1].
        destruct (Db.approved p).
        * destruct (after_plain_keeps
                      (@after_plain_executeTask flow task c1 c1
                         (after_plain_refl c1))) as (M & Wt & _ & Pe & _).
          revert L1. apply lockstep_keeps; assumption.
        * exact L1.
      + exact L1.
    - intros i flow task ty c0 E (Q & N & Z) c1.
      apply lockstep_releaseLock.
      + unfold sendToFrontend. simpl.
        destruct (lastSentMessage c0) as [last|];
          [match goal with |- context [String.eqb ?x ?y] =>
             destruct (String.eqb x y) end|]; exact Q.
      + assert (P1 : List.length (filter is_acquire
                                    (remove_nth i (pending c0))) = 0).
        { pose proof (count_remove_nth is_acquire (pending c0) i E) as K.
          simpl in K. destruct (Mutex.locked (mutex c0)); lia. }
        assert (P2 : filter is_acquire (remove_nth i (pending c0)) = []).
        { destruct (filter is_acquire (remove_nth i (pending c0)));
            [reflexivity|discriminate]. }
        unfold sendToFrontend. simpl.
        destruct (lastSentMessage c0) as [last|];
          [match goal with |- context [String.eqb ?x ?y] =>
             destruct (String.eqb x y) end|]; exact P2. }
  split; [exact L|].
  intro Nw. destruct L as (Q & N & Z).
  destruct (Mutex.locked (mutex c)) eqn:E; [|destruct (Nw (Z eq_refl))].
  destruct (filter is_acquire (pending c)) as [|k r] eqn:F;
    [discriminate|].
  assert (Hin : In k (filter is_acquire (pending c)))
    by (rewrite F; left; reflexivity).
  apply filter_In in Hin. destruct Hin as [Hin Hk].
  destruct k; try discriminate. eauto.
Qed.

End ServiceInvariants.

(* ================================================================== *)
(** * Prompts, counted *)

Section PromptCount.
Import Service.

Lemma prompts_log f e c :
  prompts f (log e c) = prompts f c + (if is_prompt f e then 1 else 0).
Proof.
  unfold prompts. simpl. rewrite filter_app, length_app. simpl.
  destruct (is_prompt f e); reflexivity.
Qed.

Lemma prompts_events f c c' :
  events c' = events c -> prompts f c' = prompts f c.
Proof. unfold prompts. intros ->. reflexivity. Qed.

Lemma prompts_send f m c : prompts f (sendToFrontend m c) = prompts f c.
Proof.
  apply prompts_events. unfold sendToFrontend.
  destruct (lastSentMessage c) as [last|];
    [destruct (String.eqb last (messageStr m))|]; reflexivity.
Qed.

Lemma prompts_acquireLock f g task ty c :
  prompts f (acquireLock g task ty c) = prompts f c.
Proof.
  unfold acquireLock. destruct (Mutex.acquire g (mutex c)) as [m [h|]].
  - unfold prompts. simpl. rewrite filter_app. simpl. rewrite app_nil_r.
    reflexivity.
  - reflexivity.
Qed.

Lemma prompts_releaseLock f g c :
  prompts f (releaseLock g c) = prompts f c.
Proof.
  unfold releaseLock. destruct (Mutex.release (mutex c)) as [m [h|]];
    unfold wake.
  - destruct (take_waiting h
                (waiting (log (LockReleased g) (with_mutex m c))))
      as [[[task ty]|] w].
    + unfold prompts. simpl. rewrite !filter_app. simpl.
      rewrite !app_nil_r. reflexivity.
    + rewrite prompts_log.
      change (prompts f (with_mutex m c)) with (prompts f c). simpl. lia.
  - rewrite prompts_log.
    change (prompts f (with_mutex m c)) with (prompts f c). simpl. lia.
Qed.

Lemma prompts_afterGetPermission f g task ty o c :
  prompts f (afterGetPermission g task ty o c) = prompts f c.
Proof.
  unfold afterGetPermission.
  destruct (Db.getPermission ty o (db c)) as [[p|]|e];
    try apply prompts_acquireLock; try reflexivity.
  destruct (Db.remember p); [|apply prompts_acquireLock].
  destruct (Db.approved p).
  - apply (after_plain_keeps
             (@after_plain_executeTask g task c c (after_plain_refl c))).
  - change (prompts f (settle g (Fulfilled None) (log (Dropped g) c)))
      with (prompts f (log (Dropped g) c)).
    rewrite prompts_log. simpl. lia.
Qed.

Lemma prompts_processTask f task ra c :
  prompts f (processTask task ra c) = prompts f c.
Proof.
  unfold processTask. simpl.
  set (c1 := log (Processing (flows c) ra) (snd (new_flow c))).
  assert (P1 : prompts f c1 = prompts f c).
  { unfold c1. rewrite prompts_log.
    change (prompts f (snd (new_flow c))) with (prompts f c). simpl. lia. }
  destruct ra.
  - destruct (nullish task); rewrite <- P1; apply prompts_events;
      reflexivity.
  - rewrite <- P1.
    apply (after_plain_keeps
             (@after_plain_executeTask (flows c) task c1 c1
                (after_plain_refl c1))).
Qed.

(** X14. No call is prompted for twice.  In every state the service
    reaches, at most one [PROMPT] has been sent for each [processTask]
    call, and a call for which one has been sent is no longer on its way
    to one: it neither awaits its permission lookup nor the lock. *)
Theorem prompted_at_most_once
        (uuids : nat -> string) (d : Db.t) (inputs : list input)
        (flow : nat) :
  let c := Emitter.world (run inputs (boot uuids d)) in
  prompts flow c <= 1 /\
  (prompts flow c = 1 -> asking flow c = 0) /\
  (flows c <= flow -> prompts flow c = 0).
Proof.
  intro c.
  assert (J : forall f, asking f c + prompts f c <=
                        (if Nat.ltb f (flows c) then 1 else 0)).
  { unfold c.
    apply (@invariant_run
             (fun c => forall f, asking f c + prompts f c <=
                                 (if Nat.ltb f (flows c) then 1 else 0))).
    - intros a c0 Pa J f.
      destruct (plain_keeps a c0 Pa) as (_ & _ & Fl & _ & As & Pr).
      rewrite Fl, As, Pr. apply J.
    - intros task ra c0 J f.
      destruct (processTask_asking task ra c0) as [Fl As].
      destruct (As f) as [A _].
      rewrite Fl, prompts_processTask. specialize (J f).
      destruct (Nat.eqb (flows c0) f) eqn:E.
      + apply Nat.eqb_eq in E. subst f.
        rewrite Nat.ltb_irrefl in J.
        assert (L : Nat.ltb (flows c0) (S (flows c0)) = true)
          by (apply Nat.ltb_lt; lia).
        rewrite L. lia.
      + apply Nat.eqb_neq in E.
        destruct (Nat.ltb f (flows c0)) eqn:L1.
        * assert (L : Nat.ltb f (S (flows c0)) = true)
            by (apply Nat.ltb_lt; apply Nat.ltb_lt in L1; lia).
          rewrite L. lia.
        * destruct (Nat.ltb f (S (flows c0))); lia.
    - intros i k c0 E Hk J f.
      pose proof (asking_resumed f i c0 E) as R.
      rewrite (inert_asks f k Hk) in R.
      change (prompts f (with_pending (remove_nth i (pending c0)) c0))
        with (prompts f c0).
      change (flows (with_pending (remove_nth i (pending c0)) c0))
        with (flows c0).
      specialize (J f). lia.
    - intros i g task ty o c0 E J f.
      pose proof (asking_resumed f i c0 E) as R. cbn [asks] in R.
      set (c1 := with_pending (remove_nth i (pending c0)) c0) in *.
      destruct (afterGetPermission_asking g task ty o c1) as [Fl As].
      destruct (As f) as [A _].
      rewrite Fl, prompts_afterGetPermission.
      change (prompts f c1) with (prompts f c0).
      change (flows c1) with (flows c0).
      specialize (J f). destruct (Nat.eqb g f); lia.
    - intros i g task ty c0 E J c1 f.
      pose proof (asking_resumed f i c0 E) as R. cbn [asks] in R.
      fold c1 in R.
      set (c2 := log (PromptSent g (Service.uuids c1 (drawn c1)))
                     (snd (randomUUID c1))).
      assert (U : unmoved c2
                (releaseLock g
                   (sendToFrontend (PROMPT (Service.uuids c1 (drawn c1)) task) c2))).
      { apply unmoved_releaseLock. apply unmoved_send.
        apply unmoved_refl. }
      destruct U as [Fl As]. destruct (As f) as [A _].
      rewrite Fl, A, prompts_releaseLock, prompts_send.
      unfold c2. rewrite prompts_log.
      change (prompts f (snd (randomUUID c1))) with (prompts f c0).
      change (asking f (log (PromptSent g (Service.uuids c1 (drawn c1)))
                            (snd (randomUUID c1))))
        with (asking f c1).
      change (flows (log (PromptSent g (Service.uuids c1 (drawn c1)))
                         (snd (randomUUID c1))))
        with (flows c0).
      specialize (J f). cbn [is_prompt]. destruct (Nat.eqb g f); lia.
    - intro f. unfold asking, prompts. simpl.
      destruct (Nat.ltb f 0); lia. }
  specialize (J flow).
  destruct (Nat.ltb flow (flows c)) eqn:L.
  - repeat split; try lia. intro Q. apply Nat.ltb_lt in L. lia.
  - apply Nat.ltb_ge in L. repeat split; lia.
Qed.

End PromptCount.

(* ================================================================== *)
(** * The messages handed to the clients, over a whole run *)

Section Outbox.
Import Service.

Lemma head_snoc (A B : Type) (f : A -> B) (d : B) (l : list A) (a : A) :
  l <> [] ->
  match l ++ [a] with x :: _ => f x | [] => d end =
  match l with x :: _ => f x | [] => d end.
Proof. destruct l; [contradiction|reflexivity]. Qed.

Lemma stutters_snoc (l : list Message) (m : Message) :
  stutters (l ++ [m]) =
  stutters l ||
  match rev l with
  | x :: _ => String.eqb (messageStr x) (messageStr m)
  | [] => false
  end.
Proof.
  induction l as [|a r IH]; [reflexivity|].
  destruct r as [|b r'].
  - simpl. rewrite orb_false_r. reflexivity.
  - change (stutters ((a :: b :: r') ++ [m]))
      with (String.eqb (messageStr a) (messageStr b) ||
            stutters ((b :: r') ++ [m])).
    change (stutters (a :: b :: r'))
      with (String.eqb (messageStr a) (messageStr b) || stutters (b :: r')).
    rewrite IH, orb_assoc. f_equal.
    change (rev (a :: b :: r')) with (rev (b :: r') ++ [a]).
    symmetry. apply head_snoc.
    simpl. intro E. apply app_eq_nil in E. destruct E as [_ E].
    discriminate.
Qed.

Lemma coalesced_same c c' :
  lastSentMessage c' = lastSentMessage c -> outbox c' = outbox c ->
  outbox_coalesced c -> outbox_coalesced c'.
Proof. unfold outbox_coalesced. intros -> ->. auto. Qed.

Lemma coalesced_send m c :
  outbox_coalesced c -> outbox_coalesced (sendToFrontend m c).
Proof.
  intros [L S]. unfold sendToFrontend.
  destruct (lastSentMessage c) as [last|] eqn:E.
  - destruct (String.eqb last (messageStr m)) eqn:Q.
    + split; [rewrite E; exact L|exact S].
    + split; simpl.
      * rewrite rev_unit. reflexivity.
      * rewrite stutters_snoc, S. simpl.
        destruct (rev (outbox c)) as [|x r]; [reflexivity|].
        injection L as ->. exact Q.
  - split; simpl.
    + rewrite rev_unit. reflexivity.
    + rewrite stutters_snoc, S. simpl.
      destruct (rev (outbox c)) as [|x r]; [reflexivity|discriminate].
Qed.

Lemma coalesced_plain c c' :
  after_plain c c' -> outbox_coalesced c -> outbox_coalesced c'.
Proof.
  intros (l & F & ->). revert c F.
  induction l as [|a l IH]; intros c F Hc; simpl in *; [exact Hc|].
  apply andb_prop in F. destruct F as [Fa F]. apply IH; auto.
  destruct a; try discriminate; try exact Hc.
  apply coalesced_send. exact Hc.
Qed.

Lemma coalesced_acquireLock f task ty c :
  outbox_coalesced c -> outbox_coalesced (acquireLock f task ty c).
Proof.
  unfold acquireLock. destruct (Mutex.acquire f (mutex c)) as [m [g|]];
    apply coalesced_same; reflexivity.
Qed.

Lemma coalesced_releaseLock f c :
  outbox_coalesced c -> outbox_coalesced (releaseLock f c).
Proof.
  unfold releaseLock. destruct (Mutex.release (mutex c)) as [m [g|]];
    unfold wake.
  - destruct (take_waiting g
                (waiting (log (LockReleased f) (with_mutex m c))))
      as [[[task ty]|] w]; apply coalesced_same; reflexivity.
  - apply coalesced_same; reflexivity.
Qed.

(** X15. No message is handed to the clients twice in a row, over a
    whole run.  In every state the service reaches, no two consecutive
    messages of those handed to [postMessage] have the same
    serialisation, and [lastSentMessage] is the serialisation of the
    last of them ([null] as long as there is none). *)
Theorem outbox_never_stutters
        (uuids : nat -> string) (d : Db.t) (inputs : list input) :
  let c := Emitter.world (run inputs (boot uuids d)) in
  stutters (outbox c) = false /\
  lastSentMessage c =
    match rev (outbox c) with
    | m :: _ => Some (messageStr m)
    | [] => None
    end.
Proof.
  intro c.
  assert (K : outbox_coalesced c).
  { unfold c. apply invariant_run.
    - intros a c0 Pa Hc.
      apply (@coalesced_plain c0 (perform a c0)); [|exact Hc].
      exists [a]. split; [simpl; rewrite Pa; reflexivity|reflexivity].
    - intros task ra c0 Hc. unfold processTask. simpl.
      set (c1 := log (Processing (flows c0) ra) (snd (new_flow c0))).
      assert (H1 : outbox_coalesced c1) by exact Hc.
      destruct ra.
      + destruct (nullish task); exact H1.
      + apply (@coalesced_plain c1); [|exact H1].
        apply after_plain_executeTask, after_plain_refl.
    - intros i k c0 E Hk Hc. exact Hc.
    - intros i flow task ty o c0 E Hc.
      set (c1 := with_pending (remove_nth i (pending c0)) c0).
      assert (H1 : outbox_coalesced c1) by exact Hc.
      unfold afterGetPermission.
      destruct (Db.getPermission ty o (db c1)) as [[p|]|e];
        try (apply coalesced_acquireLock; exact H1); try exact H1.
      destruct (Db.remember p); [|apply coalesced_acquireLock; exact H1].
      destruct (Db.approved p); [|exact H1].
      apply (@coalesced_plain c1); [|exact H1].
      apply after_plain_executeTask, after_plain_refl.
    - intros i flow task ty c0 E Hc c1.
      apply coalesced_releaseLock, coalesced_send. exact Hc.
    - split; reflexivity. }
  destruct K as [L S]. split; assumption.
Qed.

End Outbox.

(* ================================================================== *)
(** * Tasks, settings and writes *)

Section ServiceMore.
Import Service.

Lemma lookup_set_prop k k' v fs :
  Js.lookup k' (Js.set_prop k v fs) =
  if String.eqb k k' then v else Js.lookup k' fs.
Proof.
  induction fs as [|[k0 v0] r IH]; simpl.
  - destruct (String.eqb k k'); reflexivity.
  - destruct (String.eqb k0 k) eqn:E; simpl.
    + apply String.eqb_eq in E. subst k0.
      destruct (String.eqb k k'); reflexivity.
    + rewrite IH. destruct (String.eqb k0 k') eqn:F; auto.
      apply String.eqb_eq in F. subst k0.
      rewrite String.eqb_sym, E. reflexivity.
Qed.

Lemma sorted_head_absent (V : Type) k (v : V) (r : Db.store V) :
  Db.sorted ((k, v) :: r) -> Db.get k r = None.
Proof.
  intros [Hlo _]. destruct (Db.get k r) as [v'|] eqn:G; auto.
  apply get_in in G. apply Hlo in G. rewrite compare_refl in G.
  discriminate.
Qed.

Lemma lookup_fold settings : forall acc k,
  Db.sorted settings ->
  Js.lookup k
    (fold_left
       (fun acc item =>
          if deleted (snd item) then acc
          else if String.eqb (fst item) EmptyString then acc
               else Js.set_prop (fst item) (snd item) acc)
       settings acc) =
  match Db.get k settings with
  | Some v =>
      if deleted v || String.eqb k EmptyString then Js.lookup k acc else v
  | None => Js.lookup k acc
  end.
Proof.
  induction settings as [|[k0 v0] r IH]; intros acc k Hs; [reflexivity|].
  pose proof (sorted_head_absent Hs) as Ha. destruct Hs as [_ Hr].
  cbn [fold_left fst snd Db.get]. rewrite IH by exact Hr.
  destruct (String.eqb k0 k) eqn:E.
  - apply String.eqb_eq in E. subst k0. rewrite Ha.
    destruct (deleted v0); [reflexivity|]. simpl.
    destruct (String.eqb k EmptyString); [reflexivity|].
    rewrite lookup_set_prop, String.eqb_refl. reflexivity.
  - assert (L : forall a, Js.lookup k
               (if deleted v0 then a
                else if String.eqb k0 EmptyString then a
                     else Js.set_prop k0 v0 a) = Js.lookup k a).
    { intro a. destruct (deleted v0); [reflexivity|].
      destruct (String.eqb k0 EmptyString); [reflexivity|].
      rewrite lookup_set_prop, E. reflexivity. }
    destruct (Db.get k r) as [v|]; [|apply L].
    destruct (deleted v || String.eqb k EmptyString); [apply L|reflexivity].
Qed.

(** X16. What the settings broadcast holds.  With a data store in key
    order, the [SETTINGS_DATA] that [fetchSettings] sends after a
    successful read maps a key to the value stored under it, when that
    value is not marked deleted and the key is not empty, and holds
    nothing for any other key: a setting whose value is falsy (0, the
    empty string, false) is shown all the same, since only a truthy
    value with a truthy [_deleted] is skipped.  (The key "__proto__" is
    left aside: an assignment to it sets no property of the object.) *)
Theorem settings_data_shows_the_store (c : core) (k : string) :
  Db.sorted (Db.data (db c)) -> k <> "__proto__" ->
  exists d,
    afterGetAll Db.Succeeds c = sendToFrontend (SETTINGS_DATA d) c /\
    Js.lookup k d =
      match Db.get k (Db.data (db c)) with
      | Some v =>
          if deleted v || String.eqb k EmptyString then Js.Undefined else v
      | None => Js.Undefined
      end /\
    (forall v, Db.get k (Db.data (db c)) = Some v -> k <> EmptyString ->
               Js.truthy v = false -> Js.lookup k d = v).
Proof.
  intros Hs _. exists (settingsData (Db.data (db c))).
  split; [reflexivity|].
  assert (E : Js.lookup k (settingsData (Db.data (db c))) =
              match Db.get k (Db.data (db c)) with
              | Some v =>
                  if deleted v || String.eqb k EmptyString
                  then Js.Undefined else v
              | None => Js.Undefined
              end).
  { unfold settingsData. rewrite lookup_fold by exact Hs. reflexivity. }
  split; [exact E|].
  intros v G N F. rewrite E, G. unfold deleted. rewrite F. simpl.
  apply String.eqb_neq in N. rewrite N. reflexivity.
Qed.

(** The theorem on a store with a setting that is 0, a deleted one and
    one under the empty key. *)
Lemma settings_data_shows_the_store_witness :
  let c := mkCore (Db.mk [(EmptyString, Js.Num 1); ("a", Js.Num 0);
                          ("b", tombstone)] [] [])
                  Mutex.init None [] [] [] [] [] (fun _ => "id") 0 0 in
  Db.sorted (Db.data (db c)) /\
  exists d,
    outbox (afterGetAll Db.Succeeds c) = [SETTINGS_DATA d] /\
    Js.lookup EmptyString d = Js.Undefined /\
    Js.lookup "a" d = Js.Num 0 /\
    Js.lookup "b" d = Js.Undefined.
Proof.
  intro c.
  assert (S : Db.sorted (Db.data (db c))).
  { simpl. repeat split; auto.
    - intros k v [E|[E|[]]]; inversion E; reflexivity.
    - intros k v [E|[]]; inversion E; reflexivity.
    - intros k v []. }
  split; [exact S|].
  assert (Na : "a" <> "__proto__") by discriminate.
  assert (Nb : "b" <> "__proto__") by discriminate.
  assert (N0 : EmptyString <> "__proto__") by discriminate.
  destruct (@settings_data_shows_the_store c "a" S Na) as (d & E & _ & F).
  exists d.
  pose proof (@settings_data_shows_the_store c EmptyString S N0)
    as (d0 & E0 & L0 & _).
  pose proof (@settings_data_shows_the_store c "b" S Nb)
    as (d1 & E1 & L1 & _).
  assert (D0 : d0 = d).
  { rewrite E in E0. unfold sendToFrontend in E0. simpl in E0.
    inversion E0. reflexivity. }
  assert (D1 : d1 = d).
  { rewrite E in E1. unfold sendToFrontend in E1. simpl in E1.
    inversion E1. reflexivity. }
  subst d0 d1.
  split; [rewrite E; reflexivity|].
  split; [rewrite L0; reflexivity|].
  split; [|rewrite L1; reflexivity].
  apply F; [reflexivity|discriminate|reflexivity].
Defined.

(** X17. Tasks and settings share one store.  [executeTask] writes the
    task itself into the data store, under its [key]; so, the write
    having succeeded on a store in key order, the call resolves to the
    key, [DATA_UPDATE] with the task is handed to the clients (unless it
    repeats the last message), and the task is from then on one of the
    settings that [fetchSettings] shows, under that key, unless it
    carries a truthy [_deleted].  When the write fails the call resolves
    to [null], nothing is sent and nothing is stored.  (The key
    "__proto__" is left aside, as above.) *)
Theorem executed_task_is_a_setting (flow : nat) (task : Js.value)
        (key : string) (c : core) (e : string) :
  key <> EmptyString -> key <> "__proto__" ->
  Db.sorted (Db.data (db c)) ->
  let c1 := afterUpdate flow task key Db.Succeeds c in
  let c2 := afterUpdate flow task key (Db.Rejects e) c in
  Db.data (db c1) = Db.put key task (Db.data (db c)) /\
  settled c1 = settled c ++ [(flow, Fulfilled (Some key))] /\
  outbox c1 = outbox (sendToFrontend (DATA_UPDATE task) c) /\
  Js.lookup key (settingsData (Db.data (db c1))) =
    (if deleted task then Js.Undefined else task) /\
  db c2 = db c /\ outbox c2 = outbox c /\
  settled c2 = settled c ++ [(flow, Fulfilled None)].
Proof.
  intros N _ Hs c1 c2.
  assert (Q : String.eqb key EmptyString = false)
    by (apply String.eqb_neq; exact N).
  assert (D : Db.data (db c1) = Db.put key task (Db.data (db c)) /\
              settled c1 = settled c ++ [(flow, Fulfilled (Some key))] /\
              outbox c1 = outbox (sendToFrontend (DATA_UPDATE task) c)).
  { unfold c1, afterUpdate, db_update, Db.update, Db.or_uuid. rewrite Q.
    cbn [settle settled db outbox].
    unfold sendToFrontend. cbn [lastSentMessage log with_db].
    destruct (lastSentMessage c) as [last|];
      [destruct (String.eqb last (messageStr (DATA_UPDATE task)))|];
      repeat split; reflexivity. }
  destruct D as (D1 & D2 & D3).
  split; [exact D1|]. split; [exact D2|]. split; [exact D3|].
  split; [|repeat split; reflexivity].
  unfold settingsData. rewrite lookup_fold, D1, get_put_same, Q.
  - rewrite orb_false_r. reflexivity.
  - rewrite D1. apply sorted_put. exact Hs.
Qed.

(** The theorem on a fresh service: the task [{ key: "theme", v: 1 }]
    is executed, then the settings are read. *)
Lemma executed_task_is_a_setting_witness :
  let task := Js.Obj [("key", Js.Str "theme"); ("v", Js.Num 1)] in
  let s := run [Receive (TASK task false); Resume 0 Db.Succeeds;
                Receive FETCH_SETTINGS; Resume 0 Db.Succeeds]
               (boot numbered Db.empty) in
  outbox (Emitter.world s) =
    [DATA_UPDATE task; SETTINGS_DATA [("theme", task)]] /\
  Js.lookup "theme"
    (settingsData
       (Db.data (db (afterUpdate 0 task "theme" Db.Succeeds
                       (Emitter.world (boot numbered Db.empty)))))) = task.
Proof.
  split; [reflexivity|].
  assert (N : "theme" <> EmptyString) by discriminate.
  assert (N' : "theme" <> "__proto__") by discriminate.
  exact (proj1 (proj2 (proj2 (proj2
    (@executed_task_is_a_setting 0
       (Js.Obj [("key", Js.Str "theme"); ("v", Js.Num 1)]) "theme"
       (Emitter.world (boot numbered Db.empty)) EmptyString N N' I))))).
Defined.

(** X18. A write that fails is reported once, and nothing follows.
    When the store rejects the write behind [UPDATE_SETTINGS],
    [ADD_RELAY] or [REMOVE_RELAY], the step that resumes the handler
    leaves the database as it was, starts no new read, and hands the
    clients one [ERROR] message (unless it repeats the last message
    sent), whose text names the operation as the handler does, then as
    the controller does, then gives the cause. *)
Theorem failed_write_is_reported (s : state) (i : nat) (k : cont)
        (e : string) :
  nth_error (pending (Emitter.world s)) i = Some k ->
  let c0 := with_pending (remove_nth i (pending (Emitter.world s)))
                         (Emitter.world s) in
  let c1 := Emitter.world (next (Resume i (Db.Rejects e)) s) in
  let reported text :=
    db c1 = db (Emitter.world s) /\
    pending c1 = pending c0 /\
    outbox c1 = outbox (sendToFrontend (ERROR (text +++ e)) c0) /\
    lastSentMessage c1 = Some (messageStr (ERROR (text +++ e))) in
  match k with
  | UpdateSetting _ _ =>
      reported "Failed to update setting: Failed to update data: "
  | AddRelay _ => reported "Failed to add relay: Failed to add relay: "
  | RemoveRelay _ =>
      reported "Failed to remove relay: Failed to remove relay: "
  | _ => True
  end.
Proof.
  intros E c0 c1 reported.
  assert (W : c1 = Emitter.world
                     (resume k (Db.Rejects e)
                        (lift (fun c => with_pending
                                          (remove_nth i (pending c)) c) s))).
  { unfold c1, next, step. rewrite E. reflexivity. }
  assert (R : forall text c,
            db c = db (Emitter.world s) -> pending c = pending c0 ->
            outbox c = outbox c0 -> lastSentMessage c = lastSentMessage c0 ->
            c1 = sendToFrontend (ERROR (text +++ e)) c -> reported text).
  { intros text c Hd Hp Ho Hl ->. unfold reported.
    destruct (sent_keeps (ERROR (text +++ e)) c) as (K1 & _ & K3 & _).
    rewrite K1, K3, sent_last, !sent_outbox, Hl, Ho. auto. }
  destruct k; try exact I;
    (eapply R; [| | | |rewrite W; cbn [resume];
                       unfold afterUpdateSetting, afterAddRelay,
                         afterRemoveRelay, db_update; simpl; reflexivity];
     reflexivity).
Qed.

(** The theorem on a service that was sent [ADD_RELAY] and whose store
    then fails. *)
Lemma failed_write_is_reported_witness :
  let s := next (Receive (ADD_RELAY "wss://relay.example"))
                (boot numbered Db.empty) in
  outbox (Emitter.world (next (Resume 0 (Db.Rejects "quota")) s)) =
    [ERROR "Failed to add relay: Failed to add relay: quota"].
Proof.
  exact (proj1 (proj2 (proj2
    (@failed_write_is_reported
       (next (Receive (ADD_RELAY "wss://relay.example"))
             (boot numbered Db.empty))
       0 (AddRelay "wss://relay.example") "quota" eq_refl)))).
Defined.

(** X19. A task that needs no approval is executed at once and never
    prompted for.  In every state the service reaches, the step that
    receives a [TASK] with [requiresApproval] false touches neither the
    mutex, nor the emitter, nor the database, sends nothing, and starts
    the write of the task (for a task that is [null] or [undefined] it
    starts nothing: the call resolves to [null]); and however the
    service runs on, no [PROMPT] is sent for this call. *)
Theorem task_without_approval
        (uuids : nat -> string) (d : Db.t) (earlier later : list input)
        (task : Js.value) :
  let s := run earlier (boot uuids d) in
  let flow := flows (Emitter.world s) in
  let s1 := next (Receive (TASK task false)) s in
  Emitter.world s1 =
    executeTask flow task
      (log (Processing flow false) (snd (new_flow (Emitter.world s)))) /\
  Emitter.emitter s1 = Emitter.emitter s /\
  mutex (Emitter.world s1) = mutex (Emitter.world s) /\
  db (Emitter.world s1) = db (Emitter.world s) /\
  outbox (Emitter.world s1) = outbox (Emitter.world s) /\
  (nullish task = true ->
   pending (Emitter.world s1) = pending (Emitter.world s) /\
   settled (Emitter.world s1) =
     settled (Emitter.world s) ++ [(flow, Fulfilled None)]) /\
  (nullish task = false ->
   exists key,
     pending (Emitter.world s1) =
       pending (Emitter.world s) ++ [Update flow task key] /\
     (Js.str_prop "key" task <> EmptyString ->
      key = Js.str_prop "key" task)) /\
  prompted flow (Emitter.world (run later s1)) = false.
Proof.
  intros s flow s1.
  set (c1 := log (Processing flow false) (snd (new_flow (Emitter.world s)))).
  assert (W : Emitter.world s1 = executeTask flow task c1) by reflexivity.
  split; [exact W|]. split; [reflexivity|].
  destruct (executeTask_keeps flow task c1) as (K1 & K2 & K3 & _).
  split; [rewrite W, K3; reflexivity|].
  split; [rewrite W, K2; reflexivity|].
  split; [rewrite W, K1; reflexivity|].
  split; [|split].
  - intro N. rewrite W. unfold executeTask. rewrite N. split; reflexivity.
  - intro N. rewrite W. unfold executeTask. rewrite N.
    destruct (String.eqb (Js.str_prop "key" task) EmptyString) eqn:Q.
    + eexists. split; [reflexivity|]. intro F.
      apply String.eqb_neq in F. congruence.
    + eexists. split; [reflexivity|]. reflexivity.
  - pose proof (@orderly_run earlier _ (orderly_boot uuids d)) as O.
    fold s in O. destruct (O flow) as [_ O2].
    destruct (O2 (Nat.le_refl _)) as [A Pr].
    unfold asking in A.
    assert (Q0 : quiet flow c1).
    { repeat split.
      - simpl. unfold flow. lia.
      - apply count_none. simpl. lia.
      - apply (count_none (fun w => Nat.eqb (fst w) flow)). simpl. lia.
      - unfold prompted in *. simpl. rewrite existsb_app, Pr.
        reflexivity. }
    apply (@quiet_executeTask flow flow task) in Q0. rewrite <- W in Q0.
    exact (proj2 (proj2 (proj2 (@quiet_run flow later s1 Q0)))).
Qed.

End ServiceMore.

(* ================================================================== *)
(** * The page's end of the channel *)

Section FrontendFacts.
Import Service Frontend.

Lemma send_all_snoc l cm b :
  send_all (l ++ [cm]) b = send (fst cm) (snd cm) (send_all l b).
Proof. unfold send_all. rewrite fold_left_app. reflexivity. Qed.

Lemma send_coalesced m b :
  lastMessage b =
    match rev (posted b) with
    | x :: _ => Some (messageStr x)
    | [] => None
    end ->
  stutters (posted b) = false ->
  lastMessage (send true m b) =
    match rev (posted (send true m b)) with
    | x :: _ => Some (messageStr x)
    | [] => None
    end /\
  stutters (posted (send true m b)) = false.
Proof.
  intros L S. unfold send.
  destruct (lastMessage b) as [last|] eqn:E.
  - destruct (String.eqb (messageStr m) last) eqn:Q.
    + split; [rewrite E; exact L|exact S].
    + split; simpl.
      * rewrite rev_unit. reflexivity.
      * rewrite stutters_snoc, S. simpl.
        destruct (rev (posted b)) as [|x r]; [reflexivity|].
        injection L as ->. rewrite String.eqb_sym. exact Q.
  - split; simpl.
    + rewrite rev_unit. reflexivity.
    + rewrite stutters_snoc, S. simpl.
      destruct (rev (posted b)) as [|x r]; [reflexivity|discriminate].
Qed.

(** X20. What [send] of [useMessageBus] posts while a service worker
    controls the page.  Whatever messages are sent from a fresh hook, no
    two messages next to each other among those posted have the same
    serialisation, and the remembered last message is the serialisation
    of the last message posted. *)
Theorem send_skips_repeats (l : list (bool * Message)) :
  forallb fst l = true ->
  let b := send_all l fresh in
  stutters (posted b) = false /\
  lastMessage b =
    match rev (posted b) with
    | m :: _ => Some (messageStr m)
    | [] => None
    end.
Proof.
  intros C b. unfold b. clear b. revert C.
  induction l as [|[c m] l IH] using rev_ind; intro C.
  - split; reflexivity.
  - rewrite forallb_app in C. apply andb_prop in C. destruct C as [C1 C2].
    simpl in C2. rewrite andb_true_r in C2. subst c.
    destruct (IH C1) as [S L]. rewrite send_all_snoc.
    destruct (@send_coalesced m _ L S) as [L' S']. split; assumption.
Qed.

(** The theorem on a page that asks for the settings twice, then for the
    relays. *)
Lemma send_skips_repeats_witness :
  let l := [(true, FETCH_SETTINGS); (true, FETCH_SETTINGS);
            (true, FETCH_RELAYS)] in
  forallb fst l = true /\
  posted (send_all l fresh) = [FETCH_SETTINGS; FETCH_RELAYS] /\
  stutters (posted (send_all l fresh)) = false.
Proof.
  split; [reflexivity|]. split; [reflexivity|].
  exact (proj1 (@send_skips_repeats
                  [(true, FETCH_SETTINGS); (true, FETCH_SETTINGS);
                   (true, FETCH_RELAYS)] eq_refl)).
Defined.

(** X21. A message sent while no service worker controls the page is
    lost for good.  [send] remembers it as the last message although
    nothing was posted, so sending the same message again right after,
    with a controller or without, posts nothing either; the message goes
    out only once a different message has been sent in between. *)
Theorem unposted_message_is_not_resent
        (m other : Message) (controller : bool) (b : bus) :
  let b1 := send false m b in
  posted b1 = posted b /\
  lastMessage b1 = Some (messageStr m) /\
  send controller m b1 = b1 /\
  (messageStr other <> messageStr m ->
   posted (send true m (send controller other b1)) =
   (if controller then posted b ++ [other; m] else posted b ++ [m])).
Proof.
  intro b1.
  assert (P : posted b1 = posted b).
  { unfold b1, send. destruct (lastMessage b) as [last|]; [|reflexivity].
    destruct (String.eqb (messageStr m) last); reflexivity. }
  assert (L : lastMessage b1 = Some (messageStr m)).
  { unfold b1, send. destruct (lastMessage b) as [last|] eqn:E;
      [|reflexivity].
    destruct (String.eqb (messageStr m) last) eqn:Q; [|reflexivity].
    apply String.eqb_eq in Q. rewrite E, Q. reflexivity. }
  split; [exact P|]. split; [exact L|]. split.
  - unfold send at 1. rewrite L, String.eqb_refl. reflexivity.
  - intro N. unfold send at 2. rewrite L.
    assert (Q : String.eqb (messageStr other) (messageStr m) = false)
      by (apply String.eqb_neq; exact N).
    rewrite Q. unfold send. cbn [lastMessage posted].
    rewrite String.eqb_sym, Q, P.
    destruct controller; [rewrite <- app_assoc|]; reflexivity.
Qed.

Lemma lookup_delete_prop k k' fs :
  Js.lookup k' (delete_prop k fs) =
  if String.eqb k k' then Js.Undefined else Js.lookup k' fs.
Proof.
  unfold delete_prop. induction fs as [|[k0 v0] r IH]; simpl.
  - destruct (String.eqb k k'); reflexivity.
  - destruct (String.eqb k0 k) eqn:E; simpl.
    + apply String.eqb_eq in E. subst k0. rewrite IH.
      destruct (String.eqb k k'); reflexivity.
    + rewrite IH. destruct (String.eqb k0 k') eqn:F; auto.
      apply String.eqb_eq in F. subst k0.
      rewrite String.eqb_sym, E. reflexivity.
Qed.

(** X22. The page's own update of a setting agrees with the next read.
    After [UPDATE_SETTINGS] for a key that is not empty, with a value
    that is [null] or carries no truthy [_deleted], has been written to
    a store in key order, the service sends [SETTINGS_UPDATED] and starts
    a read of all settings; the settings the listener of [useDatabase]
    computes from that message and the settings it had (those of the
    store before the write) hold, under every key, what the settings
    read from the store after the write hold.  (The key "__proto__" is
    left aside, as above.) *)
Theorem setting_update_agrees_with_refetch
        (key : string) (value : Js.value) (c : core) (k : string) :
  key <> EmptyString -> k <> "__proto__" -> Db.sorted (Db.data (db c)) ->
  value = Js.Null \/ deleted value = false ->
  let c1 := afterUpdateSetting key value Db.Succeeds c in
  outbox c1 = outbox (sendToFrontend (SETTINGS_UPDATED key value) c) /\
  pending c1 = pending c ++ [GetAll] /\
  Js.lookup k (settingUpdated key value (settingsData (Db.data (db c)))) =
  Js.lookup k (settingsData (Db.data (db c1))).
Proof.
  intros N _ Hs Hv c1.
  assert (Q : String.eqb key EmptyString = false)
    by (apply String.eqb_neq; exact N).
  set (stored := match value with Js.Null => tombstone | _ => value end).
  assert (W : c1 = fetchSettings
                     (sendToFrontend (SETTINGS_UPDATED key value)
                        (with_db (Db.mk (Db.put key stored (Db.data (db c)))
                                        (Db.relays (db c))
                                        (Db.permissions (db c))) c))).
  { unfold c1, afterUpdateSetting, db_update, Db.update, Db.or_uuid.
    fold stored. rewrite Q. reflexivity. }
  assert (D : Db.data (db c1) = Db.put key stored (Db.data (db c))).
  { rewrite W. unfold fetchSettings, spawn. simpl.
    destruct (sent_keeps (SETTINGS_UPDATED key value)
                (with_db (Db.mk (Db.put key stored (Db.data (db c)))
                                (Db.relays (db c))
                                (Db.permissions (db c))) c)) as (K & _).
    rewrite K. reflexivity. }
  split; [|split].
  - rewrite W. unfold fetchSettings, spawn. simpl.
    rewrite !sent_outbox. reflexivity.
  - rewrite W. unfold fetchSettings, spawn. simpl.
    destruct (sent_keeps (SETTINGS_UPDATED key value)
                (with_db (Db.mk (Db.put key stored (Db.data (db c)))
                                (Db.relays (db c))
                                (Db.permissions (db c))) c))
      as (_ & _ & K & _).
    rewrite K. reflexivity.
  - rewrite D. unfold settingsData at 2.
    rewrite lookup_fold by (apply sorted_put; exact Hs).
    assert (E : Js.lookup k (settingsData (Db.data (db c))) =
                match Db.get k (Db.data (db c)) with
                | Some v =>
                    if deleted v || String.eqb k EmptyString
                    then Js.Undefined else v
                | None => Js.Undefined
                end).
    { unfold settingsData. rewrite lookup_fold by exact Hs. reflexivity. }
    destruct (String.eqb key k) eqn:F.
    + apply String.eqb_eq in F. subst k. rewrite get_put_same, Q.
      rewrite orb_false_r.
      destruct Hv as [->|Hd].
      * simpl. rewrite lookup_delete_prop, String.eqb_refl. reflexivity.
      * assert (S : stored = value \/ value = Js.Null)
          by (unfold stored; destruct value; auto).
        destruct S as [S|S].
        -- rewrite S, Hd.
           assert (U : settingUpdated key value
                         (settingsData (Db.data (db c))) =
                       Js.set_prop key value
                         (settingsData (Db.data (db c))) \/
                       value = Js.Null)
             by (unfold settingUpdated; destruct value; auto).
           destruct U as [U|U].
           ++ rewrite U, lookup_set_prop, String.eqb_refl. reflexivity.
           ++ exfalso. unfold stored in S. rewrite U in S. discriminate.
        -- unfold stored. rewrite S. simpl.
           rewrite lookup_delete_prop, String.eqb_refl. reflexivity.
    + assert (N' : k <> key)
        by (intro; subst; rewrite String.eqb_refl in F; discriminate).
      rewrite (get_put_other _ _ N').
      change (Js.lookup k []) with Js.Undefined. rewrite <- E.
      unfold settingUpdated.
      destruct value; rewrite ?lookup_delete_prop, ?lookup_set_prop, F;
        reflexivity.
Qed.

(** The theorem on a store that holds a theme, which is then removed. *)
Lemma setting_update_agrees_with_refetch_witness :
  let c := Emitter.world
             (boot numbered (Db.mk [("theme", Js.Str "dark")] [] [])) in
  Js.lookup "theme"
    (settingUpdated "theme" Js.Null (settingsData (Db.data (db c)))) =
  Js.lookup "theme"
    (settingsData
       (Db.data (db (afterUpdateSetting "theme" Js.Null Db.Succeeds c)))).
Proof.
  intro c.
  assert (N : "theme" <> EmptyString) by discriminate.
  assert (N' : "theme" <> "__proto__") by discriminate.
  assert (S : Db.sorted (Db.data (db c))).
  { simpl. split; [intros ? ? []|exact I]. }
  exact (proj2 (proj2 (@setting_update_agrees_with_refetch
                         "theme" Js.Null c "theme" N N' S
                         (or_introl eq_refl)))).
Defined.

End FrontendFacts.

(* ================================================================== *)
(** * A prompt is answered once *)

Section AnsweredOnce.
Import Service.

Lemma only_once_get n (e : Emitter.t waiter) :
  only_once e -> only_once (snd (Emitter.getEventHandlers n e)).
Proof.
  intros O a. pose proof (getEventHandlers_spec n e) as G.
  destruct (Emitter.getEventHandlers n e) as [b e1].
  destruct G as (_ & _ & _ & G & _). simpl. rewrite G. apply O.
Qed.

Lemma only_once_update a (f : Emitter.set waiter -> Emitter.set waiter)
      (e : Emitter.t waiter) :
  only_once e ->
  (forall x, forallb (@Emitter.is_once waiter) (Emitter.live x) = true ->
             forallb (@Emitter.is_once waiter) (Emitter.live (f x)) = true) ->
  only_once (Emitter.update_set a f e).
Proof.
  intros O F b. unfold Emitter.update_set, Emitter.set_at. simpl.
  rewrite replace_at.
  destruct (Nat.eqb b a); [|apply O].
  destruct (Nat.ltb a (List.length (Emitter.heap e))); [|reflexivity].
  apply F, O.
Qed.

Lemma only_once_remove n h (e : Emitter.t waiter) :
  only_once e -> only_once (Emitter.remove_handler same n h e).
Proof.
  intro O. unfold Emitter.remove_handler.
  pose proof (@only_once_get n e O) as O1.
  destruct (Emitter.getEventHandlers n e) as [a e1]. simpl in O1.
  apply only_once_update; [exact O1|].
  intros x Hx. rewrite live_set_delete. apply forallb_filter. exact Hx.
Qed.

Lemma only_once_once n w (e : Emitter.t waiter) :
  only_once e -> only_once (Emitter.once same n w e).
Proof.
  intro O. unfold Emitter.once, Emitter.add_handler.
  set (e0 := Emitter.mk (Emitter.heap e) (Emitter.eventMap e)
                        (S (Emitter.closures e))).
  assert (O0 : only_once e0) by exact O.
  pose proof (@only_once_get n e0 O0) as O1.
  destruct (Emitter.getEventHandlers n e0) as [a e1]. simpl in O1.
  apply only_once_update; [exact O1|].
  intros x Hx. rewrite live_set_add.
  destruct (Emitter.set_has same _ x); [exact Hx|].
  rewrite forallb_app, Hx. reflexivity.
Qed.

Lemma only_once_command w xs c (e : Emitter.t waiter) :
  In c (handler_body w xs) ->
  only_once e -> only_once (Emitter.on_emitter same c e).
Proof.
  intros Hin K. destruct (@handlers_only_act w xs c Hin) as [x ->].
  exact K.
Qed.

Lemma only_once_next i (s : state) :
  only_once (Emitter.emitter s) -> only_once (Emitter.emitter (next i s)).
Proof.
  intro K. unfold next, step. destruct i as [message|n o].
  - destruct message; simpl; auto.
    unfold emit.
    pose proof (proj1 (@emit_keeps_emitter _ _ _ _ same handler_effect
                         handler_body handler_result only_once
                         only_once_get only_once_remove
                         only_once_command
                         (emit_fuel s))
                      (topic promptId) response s K) as F.
    destruct (Emitter.emit same handler_effect handler_body handler_result
                           (emit_fuel s) (topic promptId) response s);
      simpl in F; auto.
  - destruct (nth_error (pending (Emitter.world s)) n) as [k|]; auto.
    destruct k; simpl; auto.
    apply only_once_once. exact K.
Qed.

Lemma only_once_run inputs : forall (s : state),
  only_once (Emitter.emitter s) ->
  only_once (Emitter.emitter (run inputs s)).
Proof.
  induction inputs as [|i r IH]; simpl; intros s K; auto.
  apply IH. apply only_once_next. exact K.
Qed.

Lemma only_once_boot uuids d : only_once (Emitter.emitter (boot uuids d)).
Proof. intro a. simpl. destruct a; reflexivity. Qed.

Lemma only_once_registered n (e : Emitter.t waiter) :
  only_once e ->
  filter (fun h => negb (Emitter.is_once h))
         (Emitter.live (Emitter.registered n e)) = [].
Proof.
  intro O. unfold Emitter.registered.
  destruct (Emitter.map_get n (Emitter.eventMap e)) as [a|]; [|reflexivity].
  pose proof (O a) as Oa.
  induction (Emitter.live (Emitter.set_at a e)) as [|h l IH];
    [reflexivity|].
  simpl in *. apply andb_prop in Oa. destruct Oa as [O1 O2].
  rewrite O1. simpl. apply IH. exact O2.
Qed.

Lemma never_throws xs (l : list (Emitter.handler waiter)) :
  existsb (Emitter.throws handler_body xs) l = false.
Proof.
  induction l as [|h l IH]; [reflexivity|].
  simpl. rewrite IH, orb_false_r.
  unfold Emitter.throws, Emitter.commands_of, handler_body.
  destruct h as [u|reg m u].
  - destruct xs as [|[x|x] xs]; reflexivity.
  - destruct xs as [|[x|x] xs]; reflexivity.
Qed.

Lemma cost_handler_body xs (s : Emitter.set waiter) :
  Emitter.cost handler_body xs s <= List.length s + 4.
Proof.
  induction s as [|[h|] s IH]; cbn [Emitter.cost List.length]; [lia| |lia].
  assert (L : List.length (Emitter.commands_of handler_body xs h) <= 1).
  { unfold Emitter.commands_of, handler_body.
    destruct h as [u|reg m u]; destruct xs as [|[x|x] xs]; simpl; lia. }
  lia.
Qed.

Lemma set_at_le a (e : Emitter.t waiter) :
  List.length (Emitter.set_at a e) <=
  fold_right (fun x n => List.length x + n) 0 (Emitter.heap e).
Proof.
  unfold Emitter.set_at. revert a.
  induction (Emitter.heap e) as [|x heap IH]; intros [|a]; simpl; try lia.
  specialize (IH a). lia.
Qed.

Lemma registered_le n (s : state) :
  List.length (Emitter.registered n (Emitter.emitter s)) + 6 <= emit_fuel s.
Proof.
  unfold emit_fuel, Emitter.registered.
  destruct (Emitter.map_get n (Emitter.eventMap (Emitter.emitter s)))
    as [a|]; simpl; [|lia].
  pose proof (set_at_le a (Emitter.emitter s)). lia.
Qed.

(** X23. A prompt is answered once.  In every state the service
    reaches, a [PROMPT_RESPONSE] is handled without an exception: it
    calls the handlers waiting under the topic of its prompt id, each
    once and with the response, and leaves none of them registered.  A
    second response to the same prompt, whether it repeats the first or
    contradicts it, therefore calls nothing and leaves the state of the
    service as the first left it. *)
Theorem prompt_is_answered_once
        (uuids : nat -> string) (d : Db.t) (inputs : list input)
        (promptId : string) (r r' : PromptResponse) :
  let s := run inputs (boot uuids d) in
  exists s1 s2,
    handleFrontendMessage (PROMPT_RESPONSE promptId r) s = Emitter.Done s1 /\
    Emitter.calls s1 =
      Emitter.calls s ++
      map (Emitter.call_of [Emitter.Payload r])
          (Emitter.live
             (Emitter.registered (topic promptId) (Emitter.emitter s))) /\
    Emitter.has (topic promptId) (Emitter.emitter s1) = false /\
    handleFrontendMessage (PROMPT_RESPONSE promptId r') s1 =
      Emitter.Done s2 /\
    Emitter.world s2 = Emitter.world s1 /\
    Emitter.calls s2 = Emitter.calls s1.
Proof.
  intro s.
  destruct (@tidy_run inputs (boot uuids d) (conj eq_refl eq_refl))
    as [Wf Nw].
  pose proof (@only_once_run inputs _ (only_once_boot uuids d)) as Oo.
  fold s in Wf, Nw, Oo.
  assert (Ha : Emitter.aloof handler_body).
  { intros u xs c Hin. right. exact (@handlers_only_act u xs c Hin). }
  assert (Hf : 2 + Nat.max
                 (Emitter.cost handler_body [Emitter.Payload r]
                    (Emitter.registered (topic promptId) (Emitter.emitter s)))
                 (Emitter.cost handler_body
                    [Emitter.EventName (topic promptId); Emitter.Payload r]
                    (Emitter.registered "*" (Emitter.emitter s)))
               <= emit_fuel s).
  { pose proof (cost_handler_body [Emitter.Payload r]
                  (Emitter.registered (topic promptId) (Emitter.emitter s))).
    pose proof (cost_handler_body
                  [Emitter.EventName (topic promptId); Emitter.Payload r]
                  (Emitter.registered "*" (Emitter.emitter s))).
    pose proof (registered_le (topic promptId) s).
    pose proof (registered_le "*" s). lia. }
  destruct (@emit_leaves _ _ _ _ same handler_effect handler_body
              handler_result (topic promptId) r s Ha
              (@topic_not_wildcard promptId) Wf
              (never_throws _ _) (never_throws _ _) (emit_fuel s) Hf)
    as (s1 & E1 & Wf1 & C1 & R1 & R2 & _).
  assert (L1 : Emitter.live
                 (Emitter.registered (topic promptId) (Emitter.emitter s1)) =
               []).
  { rewrite R1, live_strike. apply only_once_registered. exact Oo. }
  assert (L2 : Emitter.live (Emitter.registered "*" (Emitter.emitter s1)) =
               []).
  { rewrite R2, live_strike, Nw. reflexivity. }
  exists s1, (Emitter.touch "*" (Emitter.touch (topic promptId) s1)).
  split; [exact E1|]. split.
  - rewrite C1, Nw. simpl. rewrite app_nil_r. reflexivity.
  - split; [rewrite has_registered, L1; reflexivity|].
    split.
    + unfold handleFrontendMessage, emit. apply emit_idle; auto.
      * pose proof (registered_le (topic promptId) s1). lia.
      * pose proof (registered_le "*" s1). lia.
    + destruct (touch_spec "*" (Emitter.touch (topic promptId) s1))
        as (T1 & T2 & _).
      destruct (touch_spec (topic promptId) s1) as (T3 & T4 & _).
      rewrite T1, T2, T3, T4. split; reflexivity.
Qed.

End AnsweredOnce.

(* ================================================================== *)
(** * Relays, through the service *)

Section RelaysMore.
Import Service.

(** X24. A relay added through the service is listed, and removing it
    undoes the addition.  When the store accepts [ADD_RELAY], the relay
    store being in key order and the identifier drawn for the relay not
    one of its keys, the handler sends nothing by itself and starts a
    read of the relays; that read sends [RELAYS_DATA] with the relays
    there were and the new one, under the identifier drawn.
    [REMOVE_RELAY] of that identifier puts the database back as it was
    and starts a read in turn, which sends the relays there were. *)
Theorem relay_through_the_service (url : string) (c : core) :
  Db.sorted (Db.relays (db c)) ->
  Db.get (uuids c (drawn c)) (Db.relays (db c)) = None ->
  let key := uuids c (drawn c) in
  let c1 := afterAddRelay url Db.Succeeds c in
  let c2 := afterRemoveRelay key Db.Succeeds c1 in
  pending c1 = pending c ++ [GetRelays] /\
  outbox c1 = outbox c /\
  (exists all,
     afterGetRelays Db.Succeeds c1 = sendToFrontend (RELAYS_DATA all) c1 /\
     Db.sorted all /\
     forall k v, In (k, v) all <->
                 (k, v) = (key, url) \/ In (k, v) (Db.relays (db c))) /\
  db c2 = db c /\
  pending c2 = pending c1 ++ [GetRelays] /\
  outbox c2 = outbox c /\
  afterGetRelays Db.Succeeds c2 =
    sendToFrontend (RELAYS_DATA (Db.relays (db c))) c2.
Proof.
  intros Hs Hf key c1 c2.
  assert (W1 : c1 = fetchRelays
                      (with_db (Db.mk (Db.data (db c))
                                      (Db.put key url (Db.relays (db c)))
                                      (Db.permissions (db c)))
                               (snd (randomUUID c)))).
  { unfold c1, afterAddRelay, Db.addRelay. simpl. fold key.
    unfold key in *. rewrite Hf. reflexivity. }
  assert (W2 : c2 = fetchRelays (with_db (db c) c1)).
  { unfold c2, afterRemoveRelay, Db.removeRelay. rewrite W1. simpl.
    rewrite delete_put by exact Hf. destruct (db c); reflexivity. }
  split; [rewrite W1; reflexivity|]. split; [rewrite W1; reflexivity|].
  split.
  { exists (Db.put key url (Db.relays (db c))).
    split; [rewrite W1; reflexivity|].
    split; [apply sorted_put; exact Hs|].
    intros k v. split.
    - apply in_put.
    - intros [Q|Q].
      + injection Q as -> ->. apply in_put_same.
      + destruct (String.eqb k key) eqn:E.
        * apply String.eqb_eq in E. subst k.
          destruct (get_none_in _ _ Hf v Q).
        * apply get_in. rewrite get_put_other.
          -- apply sorted_get; assumption.
          -- apply String.eqb_neq. exact E. }
  rewrite W2. repeat split; try reflexivity.
  rewrite W1. reflexivity.
Qed.

(** The theorem on a service that starts with the default relay. *)
Lemma relay_through_the_service_witness :
  let d := Db.initializeDefaultRelay Db.Succeeds Db.empty in
  let s := run [Receive (ADD_RELAY "wss://relay.example");
                Resume 0 Db.Succeeds; Resume 0 Db.Succeeds;
                Receive (REMOVE_RELAY "uuid-0");
                Resume 0 Db.Succeeds; Resume 0 Db.Succeeds]
               (boot numbered d) in
  outbox (Emitter.world s) =
    [RELAYS_DATA [("default", Db.defaultRelay);
                  ("uuid-0", "wss://relay.example")];
     RELAYS_DATA [("default", Db.defaultRelay)]] /\
  db (Emitter.world s) = d /\
  db (afterRemoveRelay "uuid-0" Db.Succeeds
        (afterAddRelay "wss://relay.example" Db.Succeeds
           (Emitter.world (boot numbered d)))) = d.
Proof.
  split; [reflexivity|]. split; [reflexivity|].
  assert (S : Db.sorted [("default", Db.defaultRelay)]).
  { simpl. split; [intros ? ? []|exact I]. }
  exact (proj1 (proj2 (proj2 (proj2
    (@relay_through_the_service "wss://relay.example"
       (Emitter.world
          (boot numbered (Db.initializeDefaultRelay Db.Succeeds Db.empty)))
       S eq_refl))))).
Defined.

End RelaysMore.

(* ================================================================== *)
(** * Remembered decisions *)

Section Remembered.
Import Service.

Lemma sent_rest m c :
  waiting (sendToFrontend m c) = waiting c /\
  settled (sendToFrontend m c) = settled c /\
  uuids (sendToFrontend m c) = uuids c /\
  drawn (sendToFrontend m c) = drawn c.
Proof.
  unfold sendToFrontend.
  destruct (lastSentMessage c) as [last|];
    [destruct (String.eqb last (messageStr m))|]; repeat split.
Qed.

Lemma releaseLock_keeps f c :
  lastSentMessage (releaseLock f c) = lastSentMessage c /\
  outbox (releaseLock f c) = outbox c /\
  db (releaseLock f c) = db c.
Proof.
  unfold releaseLock. destruct (Mutex.release (mutex c)) as [m g].
  unfold wake. destruct g as [h|]; [|repeat split].
  cbn [log with_mutex waiting].
  destruct (take_waiting h (waiting c)) as [[[t y]|] w]; repeat split.
Qed.

Lemma lockstep_next i (s : state) :
  lockstep (Emitter.world s) -> lockstep (Emitter.world (next i s)).
Proof.
  apply invariant_next.
  - intros a c0 Pa. destruct (plain_keeps a c0 Pa) as (M & Wt & _ & Pe & _).
    apply lockstep_keeps; assumption.
  - apply lockstep_processTask.
  - intros j k c0 E Hk. apply lockstep_keeps; try reflexivity.
    simpl. eapply count_taken; eauto. apply inert_acquire, Hk.
  - intros j flow task ty o c0 E L0.
    set (c1 := with_pending (remove_nth j (pending c0)) c0).
    assert (L1 : lockstep c1).
    { revert L0. apply lockstep_keeps; try reflexivity.
      simpl. eapply count_taken; eauto. }
    unfold afterGetPermission.
    destruct (Db.getPermission ty o (db c1)) as [[p|]|e];
      try (apply lockstep_acquireLock; exact L1).
    + destruct (Db.remember p);
        [|apply lockstep_acquireLock; exact L1].
      destruct (Db.approved p).
      * destruct (after_plain_keeps
                    (@after_plain_executeTask flow task c1 c1
                       (after_plain_refl c1))) as (M & Wt & _ & Pe & _).
        revert L1. apply lockstep_keeps; assumption.
      * exact L1.
    + exact L1.
  - intros j flow task ty c0 E (Q & N & Z) c1.
    apply lockstep_releaseLock.
    + rewrite (proj1 (sent_rest _ _)).
      rewrite (proj1 (proj2 (sent_keeps _ _))). exact Q.
    + rewrite (proj1 (proj2 (proj2 (sent_keeps _ _)))).
      pose proof (count_remove_nth is_acquire (pending c0) j E) as K.
      simpl in K. subst c1. cbn [log randomUUID snd pending with_pending].
      destruct (filter is_acquire (remove_nth j (pending c0)));
        [reflexivity|].
      simpl in K. destruct (Mutex.locked (mutex c0)); lia.
Qed.

Lemma lockstep_run inputs : forall (s : state),
  lockstep (Emitter.world s) -> lockstep (Emitter.world (run inputs s)).
Proof.
  induction inputs as [|i r IH]; simpl; intros s L; auto.
  apply IH, lockstep_next, L.
Qed.

Lemma filter_one (A : Type) (p : A -> bool) (l : list A) :
  List.length (filter p l) = 1 ->
  exists j x, nth_error l j = Some x /\ p x = true.
Proof.
  induction l as [|a l IH]; simpl; [discriminate|].
  destruct (p a) eqn:E.
  - intros _. exists 0, a. auto.
  - intro K. destruct (IH K) as (j & x & Hj & Hx). exists (S j), x. auto.
Qed.

(** The holder of the lock is resumed: it sends its prompt and releases
    the lock, which goes to the first of those waiting. *)
Lemma release_step (s : state) j f t y o :
  nth_error (pending (Emitter.world s)) j = Some (Acquire f t y) ->
  lockstep (Emitter.world s) ->
  let c0 := with_pending (remove_nth j (pending (Emitter.world s)))
                         (Emitter.world s) in
  let id := uuids c0 (drawn c0) in
  let c' := Emitter.world (next (Resume j o) s) in
  lockstep c' /\
  prompted f c' = true /\
  In (PromptSent f id) (events c') /\
  lastSentMessage c' = Some (messageStr (PROMPT id t)) /\
  match waiting (Emitter.world s) with
  | [] => waiting c' = [] /\ pending c' = pending c0
  | (g, (t', y')) :: w =>
      waiting c' = w /\ pending c' = pending c0 ++ [Acquire g t' y']
  end.
Proof.
  intros E L c0 id c'.
  set (cP := sendToFrontend (PROMPT id t)
               (log (PromptSent f id) (snd (randomUUID c0)))).
  assert (W : c' = releaseLock f cP).
  { unfold c', next, step. rewrite E. reflexivity. }
  assert (Fm : mutex cP = mutex (Emitter.world s)).
  { unfold cP. rewrite (proj1 (proj2 (sent_keeps _ _))). reflexivity. }
  assert (Fw : waiting cP = waiting (Emitter.world s)).
  { unfold cP. rewrite (proj1 (sent_rest _ _)). reflexivity. }
  assert (Fp : pending cP = pending c0).
  { unfold cP. rewrite (proj1 (proj2 (proj2 (sent_keeps _ _)))).
    reflexivity. }
  assert (Fe : events cP = events (Emitter.world s) ++ [PromptSent f id]).
  { unfold cP. rewrite (proj2 (proj2 (proj2 (sent_keeps _ _)))).
    reflexivity. }
  assert (Fl : lastSentMessage cP = Some (messageStr (PROMPT id t))).
  { unfold cP. apply sent_last. }
  destruct L as (Q & N & Z).
  assert (Fa : filter is_acquire (pending cP) = []).
  { rewrite Fp. pose proof (count_remove_nth is_acquire _ j E) as K.
    simpl in K. cbn [c0 with_pending pending].
    destruct (filter is_acquire (remove_nth j (pending (Emitter.world s))));
      [reflexivity|].
    simpl in K. destruct (Mutex.locked (mutex (Emitter.world s))); lia. }
  destruct (releaseLock_spec f cP) as [_ [rest Ev]].
  destruct (releaseLock_keeps f cP) as (Kl & _).
  rewrite W.
  split; [apply lockstep_releaseLock; [rewrite Fw, Fm; exact Q|exact Fa]|].
  split.
  { unfold prompted. rewrite Ev, Fe, !existsb_app. simpl.
    rewrite Nat.eqb_refl. rewrite orb_true_r. reflexivity. }
  split.
  { rewrite Ev, Fe. apply in_or_app. left. apply in_or_app. right.
    left. reflexivity. }
  split; [rewrite Kl; exact Fl|].
  unfold releaseLock, Mutex.release. rewrite Fm, <- Q.
  destruct (waiting (Emitter.world s)) as [|[g [t' y']] w] eqn:Ew.
  - simpl. split; [exact Fw|exact Fp].
  - cbn [map fst]. unfold Mutex.wake, wake. cbn [fst snd].
    cbn [log with_mutex waiting]. rewrite Fw, take_waiting_head.
    simpl. rewrite Fp. split; reflexivity.
Qed.

(** Whoever waits for the lock gets it: the scheduler has only to
    resume, one after the other, the calls that hold it. *)
Lemma drain w1 : forall (s : state) flow task ty w2,
  lockstep (Emitter.world s) ->
  waiting (Emitter.world s) = w1 ++ (flow, (task, ty)) :: w2 ->
  exists sched idx,
    forallb is_resume sched = true /\
    lockstep (Emitter.world (run sched s)) /\
    nth_error (pending (Emitter.world (run sched s))) idx =
      Some (Acquire flow task ty).
Proof.
  induction w1 as [|[g [t' y']] w1 IH]; intros s flow task ty w2 L Hw.
  - assert (L0 := L). destruct L0 as (Q & N & Z).
    destruct (Mutex.locked (mutex (Emitter.world s))) eqn:Lk;
      [|rewrite (Z eq_refl) in Hw; discriminate].
    destruct (filter_one _ _ N) as (j & k & Hj & Hk).
    destruct k; try discriminate.
    destruct (@release_step s j flow0 task0 taskType Db.Succeeds Hj L)
      as (L' & _ & _ & _ & M).
    rewrite Hw in M. simpl in M. destruct M as [_ M].
    exists [Resume j Db.Succeeds], (List.length (remove_nth j
                                     (pending (Emitter.world s)))).
    split; [reflexivity|]. split; [exact L'|].
    simpl. rewrite M. simpl.
    rewrite nth_error_app2 by lia. rewrite Nat.sub_diag. reflexivity.
  - assert (L0 := L). destruct L0 as (Q & N & Z).
    destruct (Mutex.locked (mutex (Emitter.world s))) eqn:Lk;
      [|rewrite (Z eq_refl) in Hw; discriminate].
    destruct (filter_one _ _ N) as (j & k & Hj & Hk).
    destruct k; try discriminate.
    destruct (@release_step s j flow0 task0 taskType Db.Succeeds Hj L)
      as (L' & _ & _ & _ & M).
    rewrite Hw in M. simpl in M. destruct M as [M _].
    destruct (IH (next (Resume j Db.Succeeds) s) flow task ty w2 L' M)
      as (sched & idx & F & L2 & Hn).
    exists (Resume j Db.Succeeds :: sched), idx.
    split; [exact F|]. split; [exact L2|exact Hn].
Qed.

Lemma run_snoc inputs i (s : state) :
  run (inputs ++ [i]) s = next i (run inputs s).
Proof. unfold run. rewrite fold_left_app. reflexivity. Qed.

(** The claim of C3 fails when the permission store cannot be read: the
    store holds a remembered approval for tasks of type "settings", the
    read behind the lookup fails, which [getPermissions] turns into an
    empty list, and the task is prompted for. *)
Lemma stored_decision_is_not_read :
  let task := Js.Obj [("type", Js.Str "settings")] in
  let record := Db.mkPermission (Js.Str "settings") true true in
  let d := Db.mk [] [] [("k", record)] in
  let s := run [Receive (TASK task true); Resume 0 (Db.Rejects "AbortError");
                Resume 0 Db.Succeeds] (boot numbered d) in
  Db.getPermission (taskType_of task) Db.Succeeds d = Db.Ok (Some record) /\
  Db.permissions (db (Emitter.world s)) = [("k", record)] /\
  outbox (Emitter.world s) = [PROMPT "uuid-0" task] /\
  prompted 0 (Emitter.world s) = true /\
  settled (Emitter.world s) = [].
Proof. repeat split. Qed.

(** C3, amended.  A task that requires approval is looked up under its
    type before anything else.  In every state the service reaches from
    its start, when the permission store is read and the first record of
    the type, in key order, has [remember] set, the call never gets a
    prompt: the step that reads the record sends nothing and leaves
    lock, emitter and database alone; it starts [executeTask] when the
    record says [approved], and otherwise resolves the call to [null]
    without starting anything; and however the service runs on, no
    [PROMPT] is sent for this call.  When the read fails, or finds no
    record of the type, or the first one has [remember] unset, the call
    goes on to its prompt: it takes the lock when that is free and
    queues for it otherwise, sending nothing yet; and the scheduler has
    only to resume what is suspended for the [PROMPT] with the task to
    be sent. *)
Theorem remembered_decision_skips_prompt
        (uuids : nat -> string) (d : Db.t) (earlier : list input)
        (i flow : nat) (task : Js.value) (o : Db.outcome)
        (later : list input) :
  let s := run earlier (boot uuids d) in
  let ty := taskType_of task in
  let c := with_pending (remove_nth i (pending (Emitter.world s)))
                        (Emitter.world s) in
  let s1 := next (Resume i o) s in
  let found := find (fun r => Js.strict_equal_copy (Db.taskType (snd r)) ty)
                    (Db.permissions (db (Emitter.world s))) in
  nth_error (pending (Emitter.world s)) i =
    Some (GetPermission flow task ty) ->
  (forall s0 : state, nullish task = false ->
     pending (Emitter.world (next (Receive (TASK task true)) s0)) =
       pending (Emitter.world s0) ++
         [GetPermission (flows (Emitter.world s0)) task ty]) /\
  (forall k p,
     o = Db.Succeeds -> found = Some (k, p) -> Db.remember p = true ->
     Emitter.emitter s1 = Emitter.emitter s /\
     outbox (Emitter.world s1) = outbox (Emitter.world s) /\
     db (Emitter.world s1) = db (Emitter.world s) /\
     mutex (Emitter.world s1) = mutex (Emitter.world s) /\
     waiting (Emitter.world s1) = waiting (Emitter.world s) /\
     (Db.approved p = true ->
        (exists rest,
           events (Emitter.world s1) =
             events (Emitter.world s) ++ Executing flow :: rest) /\
        (Js.string_or_falsy "key" task = true ->
           Emitter.world s1 = executeTask flow task c)) /\
     (Db.approved p = false ->
        Emitter.world s1 =
          settle flow (Fulfilled None) (log (Dropped flow) c)) /\
     prompted flow (Emitter.world (run later s1)) = false) /\
  (match o, found with
   | Db.Succeeds, Some (_, p) => Db.remember p = false
   | _, _ => True
   end ->
   Emitter.world s1 = acquireLock flow task ty c /\
   Emitter.emitter s1 = Emitter.emitter s /\
   outbox (Emitter.world s1) = outbox (Emitter.world s) /\
   db (Emitter.world s1) = db (Emitter.world s) /\
   settled (Emitter.world s1) = settled (Emitter.world s) /\
   (Mutex.locked (mutex (Emitter.world s)) = false ->
      Mutex.locked (mutex (Emitter.world s1)) = true /\
      pending (Emitter.world s1) = pending c ++ [Acquire flow task ty] /\
      waiting (Emitter.world s1) = waiting (Emitter.world s)) /\
   (Mutex.locked (mutex (Emitter.world s)) = true ->
      Mutex.queue (mutex (Emitter.world s1)) =
        Mutex.queue (mutex (Emitter.world s)) ++ [flow] /\
      waiting (Emitter.world s1) =
        waiting (Emitter.world s) ++ [(flow, (task, ty))] /\
      pending (Emitter.world s1) = pending c) /\
   exists sched promptId,
     forallb is_resume sched = true /\
     prompted flow (Emitter.world (run sched s1)) = true /\
     In (PromptSent flow promptId)
        (events (Emitter.world (run sched s1))) /\
     lastSentMessage (Emitter.world (run sched s1)) =
       Some (messageStr (PROMPT promptId task))).
Proof.
  intros s ty c s1 found Hn.
  assert (E : Emitter.world s1 = afterGetPermission flow task ty o c /\
              Emitter.emitter s1 = Emitter.emitter s).
  { unfold s1, next, step. rewrite Hn. split; reflexivity. }
  destruct E as [E1 E2].
  assert (G : Db.getPermission ty o (db c) =
              match o, found with
              | Db.Succeeds, Some (_, p) => Db.Ok (Some p)
              | _, _ => Db.Ok None
              end).
  { unfold Db.getPermission, Db.getPermissions.
    change (db c) with (db (Emitter.world s)).
    destruct o; [|reflexivity]. fold ty. fold found.
    destruct found as [[k p]|]; reflexivity. }
  split; [|split].
  - intros s0 N. unfold next, step, handleFrontendMessage, lift,
      Emitter.with_world, processTask.
    cbn [Emitter.world new_flow]. rewrite N. reflexivity.
  - intros k p Ho Hf R.
    assert (Hq : quiet flow c).
    { apply (@orderly_quiet flow i (GetPermission flow task ty)
                            (Emitter.world s)).
      - apply orderly_run, orderly_boot.
      - exact Hn.
      - apply Nat.eqb_refl. }
    assert (A : Emitter.world s1 =
                if Db.approved p then executeTask flow task c
                else settle flow (Fulfilled None) (log (Dropped flow) c)).
    { rewrite E1. unfold afterGetPermission. rewrite G, Ho, Hf, R.
      reflexivity. }
    assert (Q1 : quiet flow (Emitter.world s1)).
    { rewrite A. destruct (Db.approved p).
      - apply quiet_executeTask. exact Hq.
      - apply quiet_settle, quiet_log; [reflexivity|exact Hq]. }
    split; [exact E2|].
    destruct (executeTask_keeps flow task c) as (K1 & K2 & K3 & rest & K4).
    assert (K5 : waiting (executeTask flow task c) = waiting c).
    { unfold executeTask. destruct (nullish task); [reflexivity|].
      destruct (String.eqb (Js.str_prop "key" task) EmptyString);
        reflexivity. }
    rewrite A. destruct (Db.approved p).
    + rewrite K1, K2, K3, K5. repeat split; try reflexivity.
      * exists rest. exact K4.
      * discriminate.
      * apply quiet_run. exact Q1.
    + repeat split; try reflexivity; try discriminate.
      apply quiet_run. exact Q1.
  - intro Hnr.
    assert (A : Emitter.world s1 = acquireLock flow task ty c).
    { rewrite E1. unfold afterGetPermission. rewrite G.
      destruct o; [|reflexivity].
      destruct found as [[k p]|]; [|reflexivity].
      rewrite Hnr. reflexivity. }
    assert (L : lockstep (Emitter.world s))
      by apply lockstep_run, lockstep_boot.
    assert (L1 : lockstep (Emitter.world s1))
      by apply lockstep_next, L.
    split; [exact A|]. split; [exact E2|].
    assert (S : outbox (Emitter.world s1) = outbox (Emitter.world s) /\
                db (Emitter.world s1) = db (Emitter.world s) /\
                settled (Emitter.world s1) = settled (Emitter.world s)).
    { rewrite A. unfold acquireLock.
      destruct (Mutex.acquire flow (mutex c)) as [m [h|]]; repeat split. }
    destruct S as (S1 & S2 & S3).
    split; [exact S1|]. split; [exact S2|]. split; [exact S3|].
    destruct (Mutex.locked (mutex (Emitter.world s))) eqn:Lk.
    + assert (B : Mutex.queue (mutex (Emitter.world s1)) =
                    Mutex.queue (mutex (Emitter.world s)) ++ [flow] /\
                  waiting (Emitter.world s1) =
                    waiting (Emitter.world s) ++ [(flow, (task, ty))] /\
                  pending (Emitter.world s1) = pending c).
      { rewrite A. unfold acquireLock, Mutex.acquire.
        change (mutex c) with (mutex (Emitter.world s)). rewrite Lk.
        repeat split. }
      split; [discriminate|]. split; [intros _; exact B|].
      destruct B as (_ & B & _).
      destruct (@drain (waiting (Emitter.world s)) s1 flow task ty [] L1 B)
        as (sched & idx & F & L2 & Hi).
      destruct (@release_step (run sched s1) idx flow task ty Db.Succeeds
                  Hi L2) as (_ & P1 & P2 & P3 & _).
      exists (sched ++ [Resume idx Db.Succeeds]). eexists.
      rewrite run_snoc, forallb_app, F.
      split; [reflexivity|]. split; [exact P1|]. split; [exact P2|exact P3].
    + assert (B : Mutex.locked (mutex (Emitter.world s1)) = true /\
                  pending (Emitter.world s1) =
                    pending c ++ [Acquire flow task ty] /\
                  waiting (Emitter.world s1) = waiting (Emitter.world s)).
      { rewrite A. unfold acquireLock, Mutex.acquire.
        change (mutex c) with (mutex (Emitter.world s)). rewrite Lk.
        repeat split. }
      split; [intros _; exact B|]. split; [discriminate|].
      destruct B as (_ & B & _).
      assert (Hi : nth_error (pending (Emitter.world s1))
                             (List.length (pending c)) =
                   Some (Acquire flow task ty)).
      { rewrite B, nth_error_app2 by lia. rewrite Nat.sub_diag.
        reflexivity. }
      destruct (@release_step s1 (List.length (pending c)) flow task ty
                  Db.Succeeds Hi L1) as (_ & P1 & P2 & P3 & _).
      exists [Resume (List.length (pending c)) Db.Succeeds]. eexists.
      split; [reflexivity|]. split; [exact P1|]. split; [exact P2|exact P3].
Qed.

(** The theorem on a service that has just been sent a task of type
    "settings": with a remembered approval in its store, and with a
    record that is not to be remembered. *)
Lemma remembered_decision_skips_prompt_witness :
  let task := Js.Obj [("type", Js.Str "settings")] in
  let record := Db.mkPermission (Js.Str "settings") true true in
  let once := Db.mkPermission (Js.Str "settings") true false in
  let s := next (Receive (TASK task true))
                (boot numbered (Db.mk [] [] [("k", record)])) in
  let later := [Resume 0 Db.Succeeds;
                Receive (PROMPT_RESPONSE "uuid-0" (mkResponse true None))] in
  let s1 := next (Resume 0 Db.Succeeds) s in
  let t1 := run [Receive (TASK task true); Resume 0 Db.Succeeds]
                (boot numbered (Db.mk [] [] [("k", once)])) in
  (outbox (Emitter.world (run later s1)) = [DATA_UPDATE task] /\
   prompted 0 (Emitter.world (run later s1)) = false) /\
  (outbox (Emitter.world (next (Resume 0 Db.Succeeds) t1)) =
     [PROMPT "uuid-0" task] /\
   exists sched promptId,
     forallb is_resume sched = true /\
     prompted 0 (Emitter.world (run sched t1)) = true /\
     In (PromptSent 0 promptId) (events (Emitter.world (run sched t1))) /\
     lastSentMessage (Emitter.world (run sched t1)) =
       Some (messageStr (PROMPT promptId task))).
Proof.
  split.
  - split; [reflexivity|].
    pose proof (@remembered_decision_skips_prompt
                  numbered
                  (Db.mk [] [] [("k", Db.mkPermission (Js.Str "settings")
                                                      true true)])
                  [Receive (TASK (Js.Obj [("type", Js.Str "settings")])
                                 true)]
                  0 0 (Js.Obj [("type", Js.Str "settings")]) Db.Succeeds
                  [Resume 0 Db.Succeeds;
                   Receive (PROMPT_RESPONSE "uuid-0"
                                            (mkResponse true None))]
                  eq_refl) as (_ & A & _).
    destruct (A "k" (Db.mkPermission (Js.Str "settings") true true)
                eq_refl eq_refl eq_refl) as (_ & _ & _ & _ & _ & _ & _ & P).
    exact P.
  - split; [reflexivity|].
    pose proof (@remembered_decision_skips_prompt
                  numbered
                  (Db.mk [] [] [("k", Db.mkPermission (Js.Str "settings")
                                                      true false)])
                  [Receive (TASK (Js.Obj [("type", Js.Str "settings")])
                                 true)]
                  0 0 (Js.Obj [("type", Js.Str "settings")]) Db.Succeeds []
                  eq_refl) as (_ & _ & B).
    destruct (B eq_refl) as (_ & _ & _ & _ & _ & _ & _ & P).
    exact P.
Defined.

End Remembered.
